(** * HTTP authentication (RFC 2617) in neon: a shallow embedding of
    [src/ne_auth.c] and the properties its specification states.

    C strings are Rocq [string]s (the bytes before the terminating NUL), a
    [char *] that may be [NULL] is an [option string], [unsigned int] is a [Z]
    with its wrap-around written out, and the session and request structures
    are records that the functions pass along explicitly.  A run that reads
    uninitialised memory or hands [NULL] to a libc string function has no
    defined result: such runs are [None] in the [option] that every stateful
    function returns. *)

From Stdlib Require Import ZArith Lia Bool List String Ascii.
Import ListNotations.

Local Open Scope list_scope.
Local Open Scope string_scope.
Local Open Scope Z_scope.

(** ** The MD5 primitive *)

Module MD5.

(** Modelled from the spec: the MD5 primitive of [ne_md5.c], which is not
    among the sources ("Streaming MD5 with init/update/finish and a hex-encode
    helper. Contract only; any conformant implementation suffices").  The
    digest below is RFC 1321 on 32-bit words kept in [Z]. *)
Definition w32 (x : Z) : Z := x mod 4294967296.

Definition rotl (x : Z) (s : Z) : Z :=
  w32 (Z.lor (Z.shiftl x s) (Z.shiftr x (32 - s))).

Definition not32 (x : Z) : Z := Z.lxor x 4294967295.

Definition K : list Z :=
  [ 0xd76aa478; 0xe8c7b756; 0x242070db; 0xc1bdceee;
    0xf57c0faf; 0x4787c62a; 0xa8304613; 0xfd469501;
    0x698098d8; 0x8b44f7af; 0xffff5bb1; 0x895cd7be;
    0x6b901122; 0xfd987193; 0xa679438e; 0x49b40821;
    0xf61e2562; 0xc040b340; 0x265e5a51; 0xe9b6c7aa;
    0xd62f105d; 0x02441453; 0xd8a1e681; 0xe7d3fbc8;
    0x21e1cde6; 0xc33707d6; 0xf4d50d87; 0x455a14ed;
    0xa9e3e905; 0xfcefa3f8; 0x676f02d9; 0x8d2a4c8a;
    0xfffa3942; 0x8771f681; 0x6d9d6122; 0xfde5380c;
    0xa4beea44; 0x4bdecfa9; 0xf6bb4b60; 0xbebfbc70;
    0x289b7ec6; 0xeaa127fa; 0xd4ef3085; 0x04881d05;
    0xd9d4d039; 0xe6db99e5; 0x1fa27cf8; 0xc4ac5665;
    0xf4292244; 0x432aff97; 0xab9423a7; 0xfc93a039;
    0x655b59c3; 0x8f0ccc92; 0xffeff47d; 0x85845dd1;
    0x6fa87e4f; 0xfe2ce6e0; 0xa3014314; 0x4e0811a1;
    0xf7537e82; 0xbd3af235; 0x2ad7d2bb; 0xeb86d391 ].

Definition shifts : list Z :=
  [ 7; 12; 17; 22; 7; 12; 17; 22; 7; 12; 17; 22; 7; 12; 17; 22;
    5;  9; 14; 20; 5;  9; 14; 20; 5;  9; 14; 20; 5;  9; 14; 20;
    4; 11; 16; 23; 4; 11; 16; 23; 4; 11; 16; 23; 4; 11; 16; 23;
    6; 10; 15; 21; 6; 10; 15; 21; 6; 10; 15; 21; 6; 10; 15; 21 ].

Record state := St { sa : Z; sb : Z; sc : Z; sd : Z }.

Definition init_state : state :=
  St 0x67452301 0xefcdab89 0x98badcfe 0x10325476.

(** One of the 64 operations on a 16-word block [m]. *)
Definition step (m : list Z) (st : state) (i : nat) : state :=
  let '(St a b c d) := st in
  let zi := Z.of_nat i in
  let '(f, g) :=
    if zi <? 16 then (Z.lor (Z.land b c) (Z.land (not32 b) d), zi)
    else if zi <? 32 then
      (Z.lor (Z.land d b) (Z.land (not32 d) c), (5 * zi + 1) mod 16)
    else if zi <? 48 then (Z.lxor b (Z.lxor c d), (3 * zi + 5) mod 16)
    else (Z.lxor c (Z.lor b (not32 d)), (7 * zi) mod 16) in
  let f' := w32 (f + a + nth i K 0 + nth (Z.to_nat g) m 0) in
  St d (w32 (b + rotl f' (nth i shifts 0))) b c.

Definition process_block (st : state) (m : list Z) : state :=
  let '(St a b c d) := st in
  let '(St a' b' c' d') := fold_left (step m) (seq 0 64) st in
  St (w32 (a + a')) (w32 (b + b')) (w32 (c + c')) (w32 (d + d')).

(** Little-endian words of a byte list whose length is a multiple of 4. *)
Fixpoint words (bs : list Z) : list Z :=
  match bs with
  | b0 :: b1 :: b2 :: b3 :: rest =>
      (b0 + 256 * b1 + 65536 * b2 + 16777216 * b3) :: words rest
  | _ => []
  end.

Fixpoint blocks (n : nat) (ws : list Z) : list (list Z) :=
  match n with
  | O => []
  | S n' =>
      match ws with
      | [] => []
      | _ => firstn 16 ws :: blocks n' (skipn 16 ws)
      end
  end.

Definition le_bytes (n : nat) (x : Z) : list Z :=
  map (fun k => (x / 256 ^ Z.of_nat k) mod 256) (seq 0 n).

(** The message followed by 0x80, zero bytes up to 56 modulo 64, and the
    bit length on 64 bits. *)
Definition pad (msg : list Z) : list Z :=
  let len := Z.of_nat (List.length msg) in
  let zeros := Z.to_nat ((55 - len) mod 64) in
  (msg ++ 128 :: repeat 0 zeros ++ le_bytes 8 ((8 * len) mod 2 ^ 64))%list.

(** The digest of a message whose blocks are chained from [st]. *)
Definition digest_from (st : state) (msg : list Z) : list Z :=
  let ws := words (pad msg) in
  let '(St a b c d) :=
    fold_left process_block (blocks (List.length ws) ws) st in
  (le_bytes 4 a ++ le_bytes 4 b ++ le_bytes 4 c ++ le_bytes 4 d)%list.

Definition digest (msg : list Z) : list Z := digest_from init_state msg.

(** The chaining value of a context whose memory is all zero bytes. *)
Definition zero_state : state := St 0 0 0 0.

Definition hex_digit (n : Z) : ascii :=
  if n <? 10 then ascii_of_N (Z.to_N (48 + n))
  else ascii_of_N (Z.to_N (87 + n)).

Fixpoint bytes_of_string (s : string) : list Z :=
  match s with
  | EmptyString => []
  | String c s' => Z.of_N (N_of_ascii c) :: bytes_of_string s'
  end.

End MD5.

(** Modelled from the spec: [struct ne_md5_ctx] of [ne_md5.c], the chaining
    value a context started from and the bytes it has absorbed since.
    [ne_md5_init_ctx] starts a context from the constants of RFC 1321:
    [Md5Ctx].  A context that [ne_calloc]
    zeroed and nothing initialised has four zero words as chaining value,
    no byte buffered and a zero length, so that it absorbs and finishes
    like any other, from the zero words: [Md5Zeroed] when it has absorbed
    nothing, [Md5Bare] with the bytes it has absorbed. *)
Inductive ne_md5_ctx : Type :=
| Md5Zeroed
| Md5Ctx (absorbed : string)
| Md5Bare (absorbed : string).

Definition ne_md5_init_ctx : ne_md5_ctx := Md5Ctx "".

(** [ne_md5_process_bytes(buf, strlen(buf), &ctx)]. *)
Definition ne_md5_process_bytes (buf : string) (ctx : ne_md5_ctx)
  : ne_md5_ctx :=
  match ctx with
  | Md5Zeroed => Md5Bare buf
  | Md5Ctx a => Md5Ctx (a ++ buf)
  | Md5Bare a => Md5Bare (a ++ buf)
  end.

(** [ne_md5_to_ascii]: 32 lowercase hexadecimal digits. *)
Fixpoint ne_md5_to_ascii (bytes : list Z) : string :=
  match bytes with
  | [] => ""
  | b :: rest =>
      String (MD5.hex_digit (b / 16))
        (String (MD5.hex_digit (b mod 16)) (ne_md5_to_ascii rest))
  end.

(** [ne_md5_finish_ctx] followed by [ne_md5_to_ascii]. *)
Definition ne_md5_finish_ascii (ctx : ne_md5_ctx) : option string :=
  match ctx with
  | Md5Zeroed => Some (ne_md5_to_ascii (MD5.digest_from MD5.zero_state []))
  | Md5Ctx a => Some (ne_md5_to_ascii (MD5.digest (MD5.bytes_of_string a)))
  | Md5Bare a =>
      Some
        (ne_md5_to_ascii
           (MD5.digest_from MD5.zero_state (MD5.bytes_of_string a)))
  end.

Definition md5_hex (s : string) : string :=
  ne_md5_to_ascii (MD5.digest (MD5.bytes_of_string s)).


(** ** libc and [ne_string] helpers *)

Definition dquote : ascii := "034"%char.
Definition squote : ascii := "039"%char.
Definition CR : ascii := "013"%char.
Definition LF : ascii := "010"%char.
Definition TAB : ascii := "009"%char.

(** A quoted string, as it stands in a header. *)
Definition quoted (s : string) : string :=
  String dquote (s ++ String dquote "").

Definition CRLF : string := String CR (String LF "").

(** The set the tokenizer's key search skips: the C literal of a blank, a
    carriage return, a line feed and a tab. *)
Definition key_blanks : string :=
  String " " (String CR (String LF (String TAB ""))).

Definition tolower (c : ascii) : ascii :=
  let n := N_of_ascii c in
  if (65 <=? n)%N && (n <=? 90)%N then ascii_of_N (n + 32) else c.

Fixpoint strlower (s : string) : string :=
  match s with
  | EmptyString => EmptyString
  | String c s' => String (tolower c) (strlower s')
  end.

(** [strcasecmp(a, b) == 0] in the C locale. *)
Definition strcaseeq (a b : string) : bool :=
  String.eqb (strlower a) (strlower b).

(** [strcmp(a, b) == 0]. *)
Definition streq (a b : string) : bool := String.eqb a b.

(** [strchr(set, c) != NULL] for a character [c] other than NUL. *)
Fixpoint strchr (set : string) (c : ascii) : bool :=
  match set with
  | EmptyString => false
  | String d set' => Ascii.eqb c d || strchr set' c
  end.

Fixpoint shave_leading (whitespace : string) (s : string) : string :=
  match s with
  | EmptyString => EmptyString
  | String c s' =>
      if strchr whitespace c then shave_leading whitespace s' else s
  end.

Fixpoint shave_trailing (whitespace : string) (s : string) : string :=
  match s with
  | EmptyString => EmptyString
  | String c s' =>
      match shave_trailing whitespace s' with
      | EmptyString =>
          if strchr whitespace c then EmptyString else String c EmptyString
      | r => String c r
      end
  end.

(** Modelled from the spec: [ne_shave] of [ne_string.c], which is not among
    the sources: the characters of [whitespace] are dropped from both ends
    ("each trimmed token", "quoted values are unquoted in place"). *)
Definition ne_shave (str : string) (whitespace : string) : string :=
  shave_trailing whitespace (shave_leading whitespace str).

(** Modelled from the spec: [ne_token] of [ne_string.c], which is not among
    the sources ("comma-split value"): the text before the first separator
    and what follows it, or the whole text and [NULL] when there is none. *)
Fixpoint ne_token (str : string) (separator : ascii)
  : string * option string :=
  match str with
  | EmptyString => (EmptyString, None)
  | String c s' =>
      if Ascii.eqb c separator then (EmptyString, Some s')
      else let '(t, r) := ne_token s' separator in (String c t, r)
  end.

(** Modelled from the spec: [ne_concat] and [ne_buffer_concat] of
    [ne_string.c], which are not among the sources.  Their argument list
    ends at the first [NULL], so a [NULL] field cuts the result short. *)
Fixpoint ne_concat (args : list (option string)) : string :=
  match args with
  | Some s :: rest => s ++ ne_concat rest
  | _ => ""
  end.

Definition b64_alphabet : string :=
  "ABCDEFGHIJKLMNOPQRSTUVWXYZabcdefghijklmnopqrstuvwxyz0123456789+/".

Definition b64_char (n : Z) : ascii :=
  match String.get (Z.to_nat n) b64_alphabet with
  | Some c => c
  | None => "="%char
  end.

Fixpoint b64_encode (bs : list Z) : string :=
  match bs with
  | [] => ""
  | [a] =>
      String (b64_char (a / 4)) (String (b64_char ((a mod 4) * 16)) "==")
  | [a; b] =>
      String (b64_char (a / 4))
        (String (b64_char ((a mod 4) * 16 + b / 16))
           (String (b64_char ((b mod 16) * 4)) "="))
  | a :: b :: c :: rest =>
      String (b64_char (a / 4))
        (String (b64_char ((a mod 4) * 16 + b / 16))
           (String (b64_char ((b mod 16) * 4 + c / 64))
              (String (b64_char (c mod 64)) (b64_encode rest))))
  end.

(** Modelled from the spec: [ne_base64] of [ne_string.c], which is not among
    the sources ("standard base64 (no line breaks, +/ alphabet, = pad)"). *)
Definition ne_base64 (text : string) : string :=
  b64_encode (MD5.bytes_of_string text).

Definition hex_value (c : ascii) : option Z :=
  let n := Z.of_N (N_of_ascii c) in
  if (48 <=? n) && (n <=? 57) then Some (n - 48)
  else if (97 <=? n) && (n <=? 102) then Some (n - 87)
  else if (65 <=? n) && (n <=? 70) then Some (n - 55)
  else None.

Definition isspace (c : ascii) : bool :=
  let n := Z.of_N (N_of_ascii c) in
  (n =? 32) || ((9 <=? n) && (n <=? 13)).

Fixpoint skip_spaces (s : string) : string :=
  match s with
  | String c s' => if isspace c then skip_spaces s' else s
  | EmptyString => EmptyString
  end.

Fixpoint scan_hex_digits (s : string) (acc : option Z) : option Z :=
  match s with
  | EmptyString => acc
  | String c s' =>
      match hex_value c with
      | Some d =>
          scan_hex_digits s'
            (Some (16 * match acc with Some a => a | None => 0 end + d))
      | None => acc
      end
  end.

(** The largest [unsigned long] of the platform: 64 bits. *)
Definition ULONG_MAX : Z := 18446744073709551615.

(** [sscanf(val, "%x", &n) == 1] and the value stored, as the GNU C
    library converts where [unsigned long] has 64 bits: white space, an
    optional sign, then a [0] with [x] or [X] after it, which counts as a
    digit read even when no hexadecimal digit follows, or hexadecimal
    digits, of which one at least.  The digits are converted as [strtoul]
    does, a value over [ULONG_MAX] becoming [ULONG_MAX] and any other one
    being negated under a minus sign, and the result is cut to the 32 bits
    of the [unsigned int] it is stored in.  [None] is any other return
    value, with which [n] is left as it was. *)
Definition sscanf_hex (val : string) : option Z :=
  let s := skip_spaces val in
  let '(neg, s1) :=
    match s with
    | String "-"%char r => (true, r)
    | String "+"%char r => (false, r)
    | _ => (false, s)
    end in
  let digits :=
    match s1 with
    | String "0"%char (String x r) =>
        if Ascii.eqb x "x"%char || Ascii.eqb x "X"%char
        then scan_hex_digits r (Some 0)
        else scan_hex_digits s1 None
    | _ => scan_hex_digits s1 None
    end in
  match digits with
  | Some v =>
      let ul :=
        if ULONG_MAX <? v then ULONG_MAX
        else (if neg then - v else v) mod (ULONG_MAX + 1) in
      Some (ul mod 4294967296)
  | None => None
  end.

(** [snprintf(nc_value, 9, "%08x", n)] for an [unsigned int]. *)
Definition nc_hex (n : Z) : string :=
  ne_md5_to_ascii (rev (MD5.le_bytes 4 n)).

(** ** The tokenizer *)

(** What a call leaves in [*value]: untouched, [NULL], or a string. *)
Inductive value_out : Type :=
| ValKeep
| ValNull
| ValSet (v : string).

(** The result of [tokenize]: 1 at the end of the text, -1 on a pair that
    starts with [=], and 0 with [*key], [*value] and the advanced [*hdr]. *)
Inductive tok_result : Type :=
| TokEnd
| TokErr
| Tok (key : option string) (value : value_out) (hdr : string).

Inductive tok_state : Type :=
| BEFORE_EQ (key : option string)
| AFTER_EQ (key : string) (value : string)
| AFTER_EQ_QUOTED (key : string) (value : string).

Definition snoc (s : string) (c : ascii) : string := s ++ String c "".

(** The [do ... while] loop of [tokenize], from [pnt] on.  The strings in the
    state are the characters that [*key] and [*value] have spanned so far;
    the NUL that the code writes over a separator ends them. *)
Fixpoint tokenize_loop (ischall : bool) (state : tok_state) (pnt : string)
  : tok_result :=
  match pnt with
  | EmptyString =>
      match state with
      | BEFORE_EQ key =>
          Tok key
            (match key with
             | Some _ => if ischall then ValNull else ValKeep
             | None => ValKeep
             end) ""
      | AFTER_EQ key value | AFTER_EQ_QUOTED key value =>
          Tok (Some key) (ValSet value) ""
      end
  | String c rest =>
      match state with
      | BEFORE_EQ key =>
          if Ascii.eqb c "="%char then
            match key with
            | None => TokErr
            | Some k => tokenize_loop ischall (AFTER_EQ k "") rest
            end
          else
            match key with
            | Some k =>
                if Ascii.eqb c " "%char && ischall then Tok key ValNull rest
                else tokenize_loop ischall (BEFORE_EQ (Some (snoc k c))) rest
            | None =>
                if strchr key_blanks c
                then tokenize_loop ischall (BEFORE_EQ None) rest
                else tokenize_loop ischall
                       (BEFORE_EQ (Some (String c ""))) rest
            end
      | AFTER_EQ key value =>
          if Ascii.eqb c ","%char then Tok (Some key) (ValSet value) rest
          else if Ascii.eqb c dquote
          then tokenize_loop ischall (AFTER_EQ_QUOTED key (snoc value c)) rest
          else tokenize_loop ischall (AFTER_EQ key (snoc value c)) rest
      | AFTER_EQ_QUOTED key value =>
          if Ascii.eqb c dquote
          then tokenize_loop ischall (AFTER_EQ key (snoc value c)) rest
          else tokenize_loop ischall
                 (AFTER_EQ_QUOTED key (snoc value c)) rest
      end
  end.

Definition tokenize (hdr : string) (ischall : bool) : tok_result :=
  match hdr with
  | EmptyString => TokEnd
  | _ => tokenize_loop ischall (BEFORE_EQ None) hdr
  end.

(** The caller's [char *val]: not yet written, [NULL], or a string. *)
Inductive val_var : Type :=
| VUninit
| VNull
| VStr (s : string).

Definition store_value (old : val_var) (v : value_out) : val_var :=
  match v with
  | ValKeep => old
  | ValNull => VNull
  | ValSet s => VStr s
  end.

(** ** Data model *)

Inductive auth_scheme : Type :=
| auth_scheme_basic
| auth_scheme_digest
| auth_scheme_gssapi.

Inductive auth_algorithm : Type :=
| auth_alg_md5
| auth_alg_md5_sess
| auth_alg_unknown.

Inductive auth_qop : Type :=
| auth_qop_none
| auth_qop_auth
| auth_qop_auth_int.

Definition auth_scheme_eqb (a b : auth_scheme) : bool :=
  match a, b with
  | auth_scheme_basic, auth_scheme_basic
  | auth_scheme_digest, auth_scheme_digest
  | auth_scheme_gssapi, auth_scheme_gssapi => true
  | _, _ => false
  end.

Definition is_none {A : Type} (p : option A) : bool :=
  match p with
  | None => true
  | Some _ => false
  end.

(** [struct auth_challenge]; the [next] link is the tail of the list the
    challenge stands in. *)
Module Chall.

Record t : Type := mk {
  scheme : auth_scheme;
  realm : option string;
  nonce : option string;
  opaque : option string;
  stale : bool;
  got_qop : bool;
  qop_auth : bool;
  qop_auth_int : bool;
  alg : auth_algorithm
}.

(** What [ne_calloc] and the scheme assignment leave in a new challenge. *)
Definition fresh (sch : auth_scheme) : t :=
  mk sch None None None false false false false auth_alg_md5.

End Chall.

(** The codes of [ne_session.h] that the post-send hook returns; the header
    is not among the sources, so only their being distinct is kept. *)
Inductive ne_code : Type :=
| NE_OK
| NE_ERROR
| NE_AUTH
| NE_PROXYAUTH
| NE_RETRY.

Record auth_class : Type := mk_auth_class {
  id : string;
  req_hdr : string;
  resp_hdr : string;
  resp_info_hdr : string;
  fail_msg : string;
  status_code : Z;
  fail_code : ne_code
}.

Definition HOOK_SERVER_ID : string :=
  "http://webdav.org/neon/hooks/server-auth".
Definition HOOK_PROXY_ID : string :=
  "http://webdav.org/neon/hooks/proxy-auth".

Definition ah_server_class : auth_class :=
  mk_auth_class HOOK_SERVER_ID
    "Authorization" "WWW-Authenticate" "Authentication-Info"
    "Server was not authenticated correctly." 401 NE_AUTH.

Definition ah_proxy_class : auth_class :=
  mk_auth_class HOOK_PROXY_ID
    "Proxy-Authorization" "Proxy-Authenticate" "Proxy-Authentication-Info"
    "Proxy server was not authenticated correctly." 407 NE_PROXYAUTH.

Inductive auth_context : Type :=
| AUTH_ANY
| AUTH_CONNECT
| AUTH_NOTCONNECT.

(** The part of [struct ne_session_s] the hooks touch: the scheme that
    [ne_get_scheme] returns, the server's host name, and the error string
    that [ne_set_error] writes. *)
Record ne_session : Type := mk_ne_session {
  ne_get_scheme : string;
  server_hostname : string;
  ne_get_error : string
}.

Definition ne_set_error (s : ne_session) (msg : string) : ne_session :=
  mk_ne_session (ne_get_scheme s) (server_hostname s) msg.

(** The request as the hooks use it: the body that [ne_pull_request_body]
    hands over block by block. *)
Record ne_request : Type := mk_ne_request {
  request_body : string
}.

(** The credentials callback with its [userdata]: from the realm, the
    attempt number and the caller's user name buffer to the return value,
    the user name buffer and the password buffer it leaves. *)
Definition ne_auth_creds : Type :=
  option string -> Z -> string -> Z * string * string.

Record auth_session : Type := mk_auth_session {
  sess : ne_session;
  context : auth_context;
  spec : auth_class;
  scheme : auth_scheme;
  creds : ne_auth_creds;
  username : string;
  can_handle : bool;
  basic : option string;
  gssapi_token : option string;
  realm : option string;
  nonce : option string;
  cnonce : option string;
  opaque : option string;
  qop : auth_qop;
  alg : auth_algorithm;
  nonce_count : Z;
  h_a1 : string;
  stored_rdig : ne_md5_ctx;
  attempt : Z
}.

Definition set_sess (v : ne_session) (s : auth_session) : auth_session :=
  mk_auth_session v (context s) (spec s) (scheme s) (creds s) (username s)
    (can_handle s) (basic s) (gssapi_token s) (realm s) (nonce s) (cnonce s)
    (opaque s) (qop s) (alg s) (nonce_count s) (h_a1 s) (stored_rdig s)
    (attempt s).

Definition set_context (v : auth_context) (s : auth_session) : auth_session :=
  mk_auth_session (sess s) v (spec s) (scheme s) (creds s) (username s)
    (can_handle s) (basic s) (gssapi_token s) (realm s) (nonce s) (cnonce s)
    (opaque s) (qop s) (alg s) (nonce_count s) (h_a1 s) (stored_rdig s)
    (attempt s).

Definition set_scheme (v : auth_scheme) (s : auth_session) : auth_session :=
  mk_auth_session (sess s) (context s) (spec s) v (creds s) (username s)
    (can_handle s) (basic s) (gssapi_token s) (realm s) (nonce s) (cnonce s)
    (opaque s) (qop s) (alg s) (nonce_count s) (h_a1 s) (stored_rdig s)
    (attempt s).

Definition set_username (v : string) (s : auth_session) : auth_session :=
  mk_auth_session (sess s) (context s) (spec s) (scheme s) (creds s) v
    (can_handle s) (basic s) (gssapi_token s) (realm s) (nonce s) (cnonce s)
    (opaque s) (qop s) (alg s) (nonce_count s) (h_a1 s) (stored_rdig s)
    (attempt s).

Definition set_can_handle (v : bool) (s : auth_session) : auth_session :=
  mk_auth_session (sess s) (context s) (spec s) (scheme s) (creds s)
    (username s) v (basic s) (gssapi_token s) (realm s) (nonce s) (cnonce s)
    (opaque s) (qop s) (alg s) (nonce_count s) (h_a1 s) (stored_rdig s)
    (attempt s).

Definition set_basic (v : option string) (s : auth_session) : auth_session :=
  mk_auth_session (sess s) (context s) (spec s) (scheme s) (creds s)
    (username s) (can_handle s) v (gssapi_token s) (realm s) (nonce s) (cnonce
    s) (opaque s) (qop s) (alg s) (nonce_count s) (h_a1 s) (stored_rdig s)
    (attempt s).

Definition set_gssapi_token (v : option string) (s : auth_session) : auth_session :=
  mk_auth_session (sess s) (context s) (spec s) (scheme s) (creds s)
    (username s) (can_handle s) (basic s) v (realm s) (nonce s) (cnonce s)
    (opaque s) (qop s) (alg s) (nonce_count s) (h_a1 s) (stored_rdig s)
    (attempt s).

Definition set_realm (v : option string) (s : auth_session) : auth_session :=
  mk_auth_session (sess s) (context s) (spec s) (scheme s) (creds s)
    (username s) (can_handle s) (basic s) (gssapi_token s) v (nonce s) (cnonce
    s) (opaque s) (qop s) (alg s) (nonce_count s) (h_a1 s) (stored_rdig s)
    (attempt s).

Definition set_nonce (v : option string) (s : auth_session) : auth_session :=
  mk_auth_session (sess s) (context s) (spec s) (scheme s) (creds s)
    (username s) (can_handle s) (basic s) (gssapi_token s) (realm s) v (cnonce
    s) (opaque s) (qop s) (alg s) (nonce_count s) (h_a1 s) (stored_rdig s)
    (attempt s).

Definition set_cnonce (v : option string) (s : auth_session) : auth_session :=
  mk_auth_session (sess s) (context s) (spec s) (scheme s) (creds s)
    (username s) (can_handle s) (basic s) (gssapi_token s) (realm s) (nonce s)
    v (opaque s) (qop s) (alg s) (nonce_count s) (h_a1 s) (stored_rdig s)
    (attempt s).

Definition set_opaque (v : option string) (s : auth_session) : auth_session :=
  mk_auth_session (sess s) (context s) (spec s) (scheme s) (creds s)
    (username s) (can_handle s) (basic s) (gssapi_token s) (realm s) (nonce s)
    (cnonce s) v (qop s) (alg s) (nonce_count s) (h_a1 s) (stored_rdig s)
    (attempt s).

Definition set_qop (v : auth_qop) (s : auth_session) : auth_session :=
  mk_auth_session (sess s) (context s) (spec s) (scheme s) (creds s)
    (username s) (can_handle s) (basic s) (gssapi_token s) (realm s) (nonce s)
    (cnonce s) (opaque s) v (alg s) (nonce_count s) (h_a1 s) (stored_rdig s)
    (attempt s).

Definition set_alg (v : auth_algorithm) (s : auth_session) : auth_session :=
  mk_auth_session (sess s) (context s) (spec s) (scheme s) (creds s)
    (username s) (can_handle s) (basic s) (gssapi_token s) (realm s) (nonce s)
    (cnonce s) (opaque s) (qop s) v (nonce_count s) (h_a1 s) (stored_rdig s)
    (attempt s).

Definition set_nonce_count (v : Z) (s : auth_session) : auth_session :=
  mk_auth_session (sess s) (context s) (spec s) (scheme s) (creds s)
    (username s) (can_handle s) (basic s) (gssapi_token s) (realm s) (nonce s)
    (cnonce s) (opaque s) (qop s) (alg s) v (h_a1 s) (stored_rdig s) (attempt
    s).

Definition set_h_a1 (v : string) (s : auth_session) : auth_session :=
  mk_auth_session (sess s) (context s) (spec s) (scheme s) (creds s)
    (username s) (can_handle s) (basic s) (gssapi_token s) (realm s) (nonce s)
    (cnonce s) (opaque s) (qop s) (alg s) (nonce_count s) v (stored_rdig s)
    (attempt s).

Definition set_stored_rdig (v : ne_md5_ctx) (s : auth_session) : auth_session :=
  mk_auth_session (sess s) (context s) (spec s) (scheme s) (creds s)
    (username s) (can_handle s) (basic s) (gssapi_token s) (realm s) (nonce s)
    (cnonce s) (opaque s) (qop s) (alg s) (nonce_count s) (h_a1 s) v (attempt
    s).

Definition set_attempt (v : Z) (s : auth_session) : auth_session :=
  mk_auth_session (sess s) (context s) (spec s) (scheme s) (creds s)
    (username s) (can_handle s) (basic s) (gssapi_token s) (realm s) (nonce s)
    (cnonce s) (opaque s) (qop s) (alg s) (nonce_count s) (h_a1 s)
    (stored_rdig s) v.
Record auth_request : Type := mk_auth_request {
  request : ne_request;
  uri : string;
  method : string;
  will_handle : bool;
  response_body : ne_md5_ctx;
  auth_hdr : option string;
  auth_info_hdr : option string
}.

Definition set_will_handle (v : bool) (r : auth_request) : auth_request :=
  mk_auth_request (request r) (uri r) (method r) v (response_body r)
    (auth_hdr r) (auth_info_hdr r).

Definition set_response_body (v : ne_md5_ctx) (r : auth_request) : auth_request :=
  mk_auth_request (request r) (uri r) (method r) (will_handle r) v (auth_hdr
    r) (auth_info_hdr r).

Definition set_auth_hdr (v : option string) (r : auth_request) : auth_request :=
  mk_auth_request (request r) (uri r) (method r) (will_handle r)
    (response_body r) v (auth_info_hdr r).

Definition set_auth_info_hdr (v : option string) (r : auth_request) : auth_request :=
  mk_auth_request (request r) (uri r) (method r) (will_handle r)
    (response_body r) (auth_hdr r) v.

(** What lies outside the session: whether GSSAPI support is compiled in,
    the security provider ([None] when [gss_import_name] or
    [gss_init_sec_context] report an error, else the output token), and the
    client nonces that successive calls of [get_cnonce] draw from the
    clock, the process id and the random bytes. *)
Record auth_env : Type := mk_auth_env {
  HAVE_GSSAPI : bool;
  gss_init_sec_context : string -> option string;
  cnonce_source : nat -> string
}.

(** A trace of the calls that leave the engine. *)
Inductive event : Type :=
| EvCreds (realm : option string) (attempt : Z)
| EvExamine (chall : Chall.t).

(** The session together with the number of client nonces drawn so far and
    the trace. *)
Record world : Type := mk_world {
  w_sess : auth_session;
  w_rand : nat;
  w_log : list event
}.

Definition with_sess (f : auth_session -> auth_session) (w : world) : world :=
  mk_world (f (w_sess w)) (w_rand w) (w_log w).

Definition record_event (e : event) (w : world) : world :=
  mk_world (w_sess w) (w_rand w) (w_log w ++ [e])%list.

(** ** The scheme drivers *)

Definition clean_session (s : auth_session) : auth_session :=
  set_can_handle false
    (set_basic None
       (set_nonce None
          (set_cnonce None
             (set_opaque None (set_realm None (set_gssapi_token None s)))))).

(** [get_cnonce]: the next client nonce. *)
Definition get_cnonce (env : auth_env) (w : world) : string * world :=
  (cnonce_source env (w_rand w),
   mk_world (w_sess w) (S (w_rand w)) (w_log w)).

(** [get_credentials]: the callback's return value and password buffer; the
    user name it leaves and the attempt count go into the session. *)
Definition get_credentials (w : world) : Z * string * world :=
  let s := w_sess w in
  let '(ret, user, pwbuf) := creds s (realm s) (attempt s) (username s) in
  (ret, pwbuf,
   record_event (EvCreds (realm s) (attempt s))
     (with_sess (fun s => set_attempt (attempt s + 1) (set_username user s))
        w)).

Definition basic_challenge (w : world) (parms : Chall.t) : Z * world :=
  match Chall.realm parms with
  | None => (-1, w)
  | Some r =>
      let w1 := with_sess (fun s => set_realm (Some r) (clean_session s)) w in
      let '(ret, password, w2) := get_credentials w1 in
      if negb (ret =? 0) then (-1, w2)
      else
        (0,
         with_sess
           (fun s =>
              set_basic
                (Some
                   (ne_base64
                      (ne_concat
                         [Some (username s); Some ":"; Some password])))
                (set_scheme auth_scheme_basic s))
           w2)
  end.

Definition request_basic (s : auth_session) : string :=
  ne_concat [Some "Basic "; basic s; Some CRLF].

Definition request_gssapi (s : auth_session) : string :=
  ne_concat [Some "GSS-Negotiate "; gssapi_token s; Some CRLF].

(** [gssapi_challenge] with [get_gss_name]: the provider is asked for a
    context for the principal [khttp@hostname]. *)
Definition gssapi_challenge (env : auth_env) (w : world) (parms : Chall.t)
  : Z * world :=
  let w1 := with_sess clean_session w in
  match
    gss_init_sec_context env
      (ne_concat [Some "khttp@"; Some (server_hostname (sess (w_sess w1)))])
  with
  | None => (-1, w1)
  | Some output_token =>
      if (String.length output_token =? 0)%nat then (-1, w1)
      else
        (0,
         with_sess
           (fun s =>
              set_scheme auth_scheme_gssapi
                (set_gssapi_token (Some (ne_base64 output_token)) s))
           w1)
  end.

(** The string behind a pointer that is not [NULL] where the code reads
    it. *)
Definition str_or_empty (p : option string) : string :=
  match p with
  | Some s => s
  | None => ""
  end.

(** The computation of H(A1) at the end of [digest_challenge]. *)
Definition calc_h_a1 (s : auth_session) (password : string) : string :=
  let tmp :=
    md5_hex
      (username s ++ ":" ++ str_or_empty (realm s) ++ ":" ++ password) in
  match alg s with
  | auth_alg_md5_sess =>
      md5_hex
        (tmp ++ ":" ++ str_or_empty (nonce s) ++ ":"
           ++ str_or_empty (cnonce s))
  | _ => tmp
  end.

(** The test that opens [digest_challenge]: true on an invalid challenge. *)
Definition digest_invalid (parms : Chall.t) : bool :=
  match Chall.alg parms with
  | auth_alg_unknown => true
  | auth_alg_md5_sess =>
      negb (Chall.qop_auth parms || Chall.qop_auth_int parms)
  | auth_alg_md5 => false
  end
  || is_none (Chall.realm parms) || is_none (Chall.nonce parms).

(** The session fields that [digest_challenge] takes from an accepted
    challenge: algorithm, scheme, nonce, a new client nonce, the opaque
    value when there is one, and the qop. *)
Definition install_opaque (parms : Chall.t) (s : auth_session)
  : auth_session :=
  match Chall.opaque parms with
  | Some o => set_opaque (Some o) s
  | None => s
  end.

Definition install_qop (parms : Chall.t) (s : auth_session) : auth_session :=
  if Chall.got_qop parms then
    set_qop
      (if Chall.qop_auth_int parms then auth_qop_auth_int else auth_qop_auth)
      (set_nonce_count 0 s)
  else set_qop auth_qop_none s.

Definition install_challenge (parms : Chall.t) (cn : string)
  (s : auth_session) : auth_session :=
  install_qop parms
    (install_opaque parms
       (set_cnonce (Some cn)
          (set_nonce (Chall.nonce parms)
             (set_scheme auth_scheme_digest (set_alg (Chall.alg parms) s))))).

(** H(A1) is computed anew unless the challenge is stale. *)
Definition install_h_a1 (parms : Chall.t) (password : string)
  (s : auth_session) : auth_session :=
  if negb (Chall.stale parms) then set_h_a1 (calc_h_a1 s password) s else s.

Definition digest_challenge (env : auth_env) (w : world) (parms : Chall.t)
  : Z * world :=
  if digest_invalid parms then (-1, w)
  else
    let '(ret, password, w1) :=
      if Chall.stale parms then (0, "", w)
      else
        get_credentials
          (with_sess
             (fun s => set_realm (Chall.realm parms) (clean_session s)) w) in
    if negb (ret =? 0) then (-1, w1)
    else
      let '(cn, w2) := get_cnonce env w1 in
      (0,
       with_sess
         (fun s => install_h_a1 parms password (install_challenge parms cn s))
         w2).

Definition qop_is_none (q : auth_qop) : bool :=
  match q with
  | auth_qop_none => true
  | _ => false
  end.

Definition qop_is_auth_int (q : auth_qop) : bool :=
  match q with
  | auth_qop_auth_int => true
  | _ => false
  end.

(** [request_digest]: the header value and the session it leaves.  [strlen]
    of a [NULL] nonce, or of a [NULL] client nonce under a qop, is
    undefined. *)
Definition request_digest (s : auth_session) (req : auth_request)
  : option (string * auth_session) :=
  let s1 :=
    if negb (qop_is_none (qop s))
    then set_nonce_count ((nonce_count s + 1) mod 4294967296) s
    else s in
  let nc_value := if negb (qop_is_none (qop s)) then nc_hex (nonce_count s1)
                  else "" in
  let qop_value := if qop_is_auth_int (qop s) then "auth-int" else "auth" in
  let a2 :=
    ne_md5_process_bytes (uri req)
      (ne_md5_process_bytes ":"
         (ne_md5_process_bytes (method req) ne_md5_init_ctx)) in
  let a2 :=
    if qop_is_auth_int (qop s) then
      let tmp_md5_ascii := md5_hex (request_body (request req)) in
      ne_md5_process_bytes tmp_md5_ascii (ne_md5_process_bytes ":" a2)
    else a2 in
  match ne_md5_finish_ascii a2, nonce s with
  | Some a2_md5_ascii, Some n =>
      let rdig :=
        ne_md5_process_bytes ":"
          (ne_md5_process_bytes n
             (ne_md5_process_bytes ":"
                (ne_md5_process_bytes (h_a1 s) ne_md5_init_ctx))) in
      let stored_and_rdig :=
        if negb (qop_is_none (qop s)) then
          match cnonce s with
          | None => None
          | Some cn =>
              let stored :=
                ne_md5_process_bytes ":"
                  (ne_md5_process_bytes cn
                     (ne_md5_process_bytes ":"
                        (ne_md5_process_bytes nc_value rdig))) in
              Some
                (stored,
                 ne_md5_process_bytes ":"
                   (ne_md5_process_bytes qop_value stored))
          end
        else Some (rdig, rdig) in
      match stored_and_rdig with
      | None => None
      | Some (stored, rdig) =>
          match ne_md5_finish_ascii (ne_md5_process_bytes a2_md5_ascii rdig)
          with
          | None => None
          | Some rdig_md5_ascii =>
              let ret :=
                ne_concat
                  [Some ("Digest username=" ++ String dquote "");
                   Some (username s);
                   Some (String dquote ", realm=" ++ String dquote "");
                   realm s;
                   Some (String dquote ", nonce=" ++ String dquote "");
                   nonce s;
                   Some (String dquote ", uri=" ++ String dquote "");
                   Some (uri req);
                   Some (String dquote ", response=" ++ String dquote "");
                   Some rdig_md5_ascii;
                   Some (String dquote ", algorithm=" ++ String dquote "");
                   Some
                     match alg s with
                     | auth_alg_md5 => "MD5"
                     | _ => "MD5-sess"
                     end;
                   Some (String dquote "")] in
              let ret :=
                match opaque s with
                | Some o =>
                    ret
                      ++ ne_concat
                           [Some (", opaque=" ++ String dquote ""); Some o;
                            Some (String dquote "")]
                | None => ret
                end in
              let ret :=
                if negb (qop_is_none (qop s)) then
                  ret
                    ++ ne_concat
                         [Some (", cnonce=" ++ String dquote ""); cnonce s;
                          Some (String dquote ", nc="); Some nc_value;
                          Some (", qop=" ++ String dquote "");
                          Some qop_value; Some (String dquote "")]
                else ret in
              Some (ret ++ CRLF, set_stored_rdig stored s1)
          end
      end
  | _, _ => None
  end.

(** ** Response verification *)

(** The locals of [verify_response] that the pairs of the header fill. *)
Record auth_info : Type := mk_auth_info {
  ai_qop : auth_qop;
  ai_qop_value : option string;
  ai_nextnonce : option string;
  ai_rspauth : option string;
  ai_cnonce : option string;
  ai_nc : option string;
  ai_nonce_count : option Z
}.

(** The locals before the loop; [nonce_count] is not initialised. *)
Definition auth_info_init : auth_info :=
  mk_auth_info auth_qop_none None None None None None None.

(** One pair of the [Authentication-Info] header. *)
Definition info_pair (key val : string) (i : auth_info) : auth_info :=
  let '(mk_auth_info q qv nn ra cn nc ncount) := i in
  if strcaseeq key "qop" then
    mk_auth_info
      (if strcaseeq val "auth-int" then auth_qop_auth_int
       else if strcaseeq val "auth" then auth_qop_auth
       else auth_qop_none)
      (Some val) nn ra cn nc ncount
  else if strcaseeq key "nextnonce" then
    mk_auth_info q qv (Some val) ra cn nc ncount
  else if strcaseeq key "rspauth" then
    mk_auth_info q qv nn (Some val) cn nc ncount
  else if strcaseeq key "cnonce" then
    mk_auth_info q qv nn ra (Some val) nc ncount
  else if strcaseeq key "nc" then
    mk_auth_info q qv nn ra cn (Some val)
      (match sscanf_hex val with
       | Some n => Some n
       | None => ncount
       end)
  else i.

(** The [while (tokenize(...) == 0)] loop of [verify_response].  Shaving a
    [val] that no call has set, and comparing a [NULL] key, are undefined.
    [fuel] bounds the number of pairs; the text left gets shorter with every
    pair, so its length plus one is enough. *)
Fixpoint parse_auth_info (fuel : nat) (pnt : string) (val : val_var)
  (i : auth_info) : option auth_info :=
  match fuel with
  | O => None
  | S fuel' =>
      match tokenize pnt false with
      | TokEnd | TokErr => Some i
      | Tok key v rest =>
          match store_value val v, key with
          | VStr s, Some k =>
              let val' := ne_shave s (String dquote "") in
              parse_auth_info fuel' rest (VStr val') (info_pair k val' i)
          | _, _ => None
          end
      end
  end.

(** The digest that [verify_response] compares with [rspauth], from the
    context that [request_digest] stored. *)
Definition response_digest (req : auth_request) (s : auth_session)
  (i : auth_info) : option (string * ne_md5_ctx) :=
  let a2 :=
    ne_md5_process_bytes (uri req)
      (ne_md5_process_bytes ":" ne_md5_init_ctx) in
  let a2 :=
    if qop_is_auth_int (ai_qop i) then
      match ne_md5_finish_ascii (response_body req) with
      | Some heb_md5_ascii =>
          Some
            (ne_md5_process_bytes heb_md5_ascii
               (ne_md5_process_bytes ":" a2))
      | None => None
      end
    else Some a2 in
  match a2 with
  | None => None
  | Some a2 =>
      match ne_md5_finish_ascii a2 with
      | None => None
      | Some a2_md5_ascii =>
          let stored :=
            if negb (qop_is_none (ai_qop i)) then
              ne_md5_process_bytes ":"
                (ne_md5_process_bytes (str_or_empty (ai_qop_value i))
                   (stored_rdig s))
            else stored_rdig s in
          let stored := ne_md5_process_bytes a2_md5_ascii stored in
          match ne_md5_finish_ascii stored with
          | None => None
          | Some rdig_md5_ascii => Some (rdig_md5_ascii, stored)
          end
      end
  end.

(** The decision of [verify_response] once the header is parsed: [okay] and
    the session, whose stored context the digest has consumed. *)
Definition check_auth_info (req : auth_request) (s : auth_session)
  (i : auth_info) : option (Z * auth_session) :=
  if negb (qop_is_none (ai_qop i)) && negb (is_none (ai_qop_value i)) then
    match ai_rspauth i, ai_cnonce i, ai_nc i with
    | Some rspauth, Some cn, Some _ =>
        match cnonce s with
        | None => None
        | Some sess_cnonce =>
            if negb (streq cn sess_cnonce) then Some (-1, s)
            else
              match ai_nonce_count i with
              | None => None
              | Some n =>
                  if negb (n =? nonce_count s) then Some (-1, s)
                  else
                    match response_digest req s i with
                    | None => None
                    | Some (rdig_md5_ascii, stored) =>
                        Some
                          (if strcaseeq rdig_md5_ascii rspauth then 0
                           else -1,
                           set_stored_rdig stored s)
                    end
              end
        end
    | _, _, _ => Some (-1, s)
    end
  else Some (0, s).

Definition verify_response (req : auth_request) (s : auth_session)
  (value : string) : option (Z * auth_session) :=
  if negb (will_handle req) then Some (0, s)
  else if negb (auth_scheme_eqb (scheme s) auth_scheme_digest)
  then Some (-1, s)
  else
    match
      parse_auth_info (S (String.length value)) value VUninit auth_info_init
    with
    | None => None
    | Some i =>
        match check_auth_info req s i with
        | None => None
        | Some (okay, s1) =>
            Some
              (okay,
               match ai_nextnonce i with
               | Some nextnonce => set_nonce (Some nextnonce) s1
               | None => s1
               end)
        end
    end.

(** ** Challenge parsing and scheme selection *)

(** The tokens of a [qop] value, as the [do ... while (val)] loop over
    [ne_token] meets them. *)
Fixpoint qop_tokens (val : string) : list string :=
  match val with
  | EmptyString => [EmptyString]
  | String c s' =>
      if Ascii.eqb c ","%char then EmptyString :: qop_tokens s'
      else
        match qop_tokens s' with
        | t :: ts => String c t :: ts
        | [] => [String c EmptyString]
        end
  end.

Definition set_qop_token (chall : Chall.t) (raw : string) : Chall.t :=
  let tok := ne_shave raw (String " " (String TAB "")) in
  let '(Chall.mk sch r n o st gq qa qai a) := chall in
  if strcaseeq tok "auth" then Chall.mk sch r n o st gq true qai a
  else if strcaseeq tok "auth-int" then Chall.mk sch r n o st gq qa true a
  else chall.

(** One key and value of a challenge, stored into the open challenge. *)
Definition challenge_pair (key val : string) (chall : Chall.t) : Chall.t :=
  let '(Chall.mk sch r n o st gq qa qai a) := chall in
  if strcaseeq key "realm" then Chall.mk sch (Some val) n o st gq qa qai a
  else if strcaseeq key "nonce" then Chall.mk sch r (Some val) o st gq qa qai a
  else if strcaseeq key "opaque" then
    Chall.mk sch r n (Some val) st gq qa qai a
  else if strcaseeq key "stale" then
    Chall.mk sch r n o (strcaseeq val "true") gq qa qai a
  else if strcaseeq key "algorithm" then
    Chall.mk sch r n o st gq qa qai
      (if strcaseeq val "md5" then auth_alg_md5
       else if strcaseeq val "md5-sess" then auth_alg_md5_sess
       else auth_alg_unknown)
  else if strcaseeq key "qop" then
    fold_left set_qop_token (qop_tokens val) chall
  else chall.

(** The scheme a bare token names, if any. *)
Definition scheme_of_token (env : auth_env) (key : string)
  : option auth_scheme :=
  if strcaseeq key "basic" then Some auth_scheme_basic
  else if strcaseeq key "digest" then Some auth_scheme_digest
  else if HAVE_GSSAPI env && strcaseeq key "gss-negotiate"
  then Some auth_scheme_gssapi
  else None.

(** The [while (!tokenize(...))] loop of [auth_challenge].  [challenges] is
    the list the loop builds, every new challenge linked in front of it;
    inside the loop [chall] is its head.  Testing a [val] that no call has
    set, and comparing a [NULL] key, are undefined.  [fuel] as above. *)
Fixpoint parse_challenges (env : auth_env) (fuel : nat) (pnt : string)
  (val : val_var) (challenges : list Chall.t) : option (list Chall.t) :=
  match fuel with
  | O => None
  | S fuel' =>
      match tokenize pnt true with
      | TokEnd | TokErr => Some challenges
      | Tok key v rest =>
          match store_value val v with
          | VUninit => None
          | VNull =>
              match key with
              | None => None
              | Some k =>
                  match scheme_of_token env k with
                  | Some sch =>
                      parse_challenges env fuel' rest VNull
                        (Chall.fresh sch :: challenges)
                  | None => Some []
                  end
              end
          | VStr s =>
              match challenges with
              | [] => parse_challenges env fuel' rest (VStr s) []
              | chall :: next =>
                  let val' := ne_shave s (String dquote (String squote "")) in
                  match key with
                  | None => None
                  | Some k =>
                      parse_challenges env fuel' rest (VStr val')
                        (challenge_pair k val' chall :: next)
                  end
              end
          end
      end
  end.

(** One of the [for (chall = challenges; ...; chall = chall->next)] loops:
    the challenges of scheme [sch] are handed to [examine] until one is
    accepted. *)
Fixpoint try_challenges (examine : world -> Chall.t -> Z * world)
  (sch : auth_scheme) (challenges : list Chall.t) (w : world)
  : bool * world :=
  match challenges with
  | [] => (false, w)
  | chall :: next =>
      if auth_scheme_eqb (Chall.scheme chall) sch then
        let '(r, w') := examine (record_event (EvExamine chall) w) chall in
        if r =? 0 then (true, w')
        else try_challenges examine sch next w'
      else try_challenges examine sch next w
  end.

(** The second half of [auth_challenge], on a list that is not empty. *)
Definition select_challenge (env : auth_env) (w : world)
  (challenges : list Chall.t) : Z * world :=
  let '(success, w1) :=
    if HAVE_GSSAPI env
    then try_challenges (gssapi_challenge env) auth_scheme_gssapi challenges w
    else (false, w) in
  let '(success, w2) :=
    if negb success
    then try_challenges (digest_challenge env) auth_scheme_digest
           challenges w1
    else (success, w1) in
  let '(success, w3) :=
    if negb success
    then try_challenges basic_challenge auth_scheme_basic challenges w2
    else (success, w2) in
  (if success then 0 else 1, with_sess (set_can_handle success) w3).

Definition auth_challenge (env : auth_env) (w : world) (value : string)
  : option (Z * world) :=
  match parse_challenges env (S (String.length value)) value VUninit [] with
  | None => None
  | Some [] => Some (-1, w)
  | Some challenges => Some (select_challenge env w challenges)
  end.

(** ** The request hooks *)

Definition auth_body_reader (block : string) (ctx : ne_md5_ctx)
  : ne_md5_ctx :=
  ne_md5_process_bytes block ctx.

(** [ah_create]: the private record attached to the request, if any, and
    the session. *)
Definition ah_create (req : ne_request) (s : auth_session)
  (method uri : string) : option auth_request * auth_session :=
  let is_connect := streq method "CONNECT" in
  match context s, is_connect with
  | AUTH_ANY, _ | AUTH_CONNECT, true | AUTH_NOTCONNECT, false =>
      (Some (mk_auth_request req uri method false Md5Zeroed None None),
       set_attempt 0 s)
  | _, _ => (None, s)
  end.

(** The response headers that [ne_duplicate_header] captures for the
    request: the class's challenge header and its info header. *)
Definition capture_headers (auth info : option string) (r : auth_request)
  : auth_request :=
  set_auth_info_hdr info (set_auth_hdr auth r).

(** [ah_pre_send]: the private record, the request buffer and the
    session. *)
Definition ah_pre_send (env : auth_env) (s : auth_session)
  (areq : option auth_request) (request : string)
  : option (option auth_request * string * auth_session) :=
  match areq with
  | None => Some (areq, request, s)
  | Some req =>
      if negb (can_handle s) then Some (areq, request, s)
      else
        let req := set_will_handle true req in
        let req :=
          if qop_is_auth_int (qop s)
          then set_response_body ne_md5_init_ctx req
          else req in
        let emit (value : string) (s' : auth_session) :=
          Some
            (Some req,
             request ++ ne_concat [Some (req_hdr (spec s)); Some ": ";
                                   Some value],
             s') in
        match scheme s with
        | auth_scheme_basic => emit (request_basic s) s
        | auth_scheme_digest =>
            match request_digest s req with
            | None => None
            | Some (value, s') => emit value s'
            end
        | auth_scheme_gssapi =>
            if HAVE_GSSAPI env then emit (request_gssapi s) s
            else Some (Some req, request, s)
        end
  end.

(** The part of [ah_post_send] after the info header: a challenge under the
    class's status code is processed, anything else is accepted. *)
Definition post_send_challenge (env : auth_env) (w : world)
  (areq : auth_request) (code : Z) : option (ne_code * world) :=
  match auth_hdr areq with
  | Some hdr =>
      if code =? status_code (spec (w_sess w)) then
        match auth_challenge env w hdr with
        | None => None
        | Some (r, w') =>
            if r =? 0 then Some (NE_RETRY, w')
            else
              Some (fail_code (spec (w_sess w')), with_sess clean_session w')
        end
      else Some (NE_OK, w)
  | None => Some (NE_OK, w)
  end.

Definition ah_post_send (env : auth_env) (w : world)
  (areq : option auth_request) (code : Z)
  : option (ne_code * option auth_request * world) :=
  match areq with
  | None => Some (NE_OK, None, w)
  | Some req =>
      let done (r : option (ne_code * world)) :=
        match r with
        | None => None
        | Some (ret, w') =>
            Some (ret, Some (capture_headers None None req), w')
        end in
      match auth_info_hdr req with
      | Some info =>
          match verify_response req (w_sess w) info with
          | None => None
          | Some (okay, s') =>
              if negb (okay =? 0) then
                done
                  (Some
                     (NE_ERROR,
                      with_sess
                        (fun _ =>
                           set_sess
                             (ne_set_error (sess s') (fail_msg (spec s')))
                             s')
                        w))
              else
                done (post_send_challenge env (with_sess (fun _ => s') w)
                        req code)
          end
      | None => done (post_send_challenge env w req code)
      end
  end.

(** [auth_register]: the session that [ne_calloc] zeroed, with the
    callback, the class and the context filled in. *)
Definition auth_register (sess : ne_session) (isproxy : bool)
  (ahc : auth_class) (creds : ne_auth_creds) : auth_session :=
  mk_auth_session sess
    (if streq (ne_get_scheme sess) "https"
     then if isproxy then AUTH_CONNECT else AUTH_NOTCONNECT
     else AUTH_ANY)
    ahc auth_scheme_basic creds "" false None None None None None None
    auth_qop_none auth_alg_md5 0
    (string_of_list_ascii (repeat zero 32)) Md5Zeroed 0.

Definition ne_set_server_auth (sess : ne_session) (creds : ne_auth_creds)
  : auth_session :=
  auth_register sess false ah_server_class creds.

Definition ne_set_proxy_auth (sess : ne_session) (creds : ne_auth_creds)
  : auth_session :=
  auth_register sess true ah_proxy_class creds.

(** ** The specification's wording of selection and parsing *)

(** The validator of a scheme. *)
Definition examine_scheme (env : auth_env) (sch : auth_scheme)
  : world -> Chall.t -> Z * world :=
  match sch with
  | auth_scheme_gssapi => gssapi_challenge env
  | auth_scheme_digest => digest_challenge env
  | auth_scheme_basic => basic_challenge
  end.

Definition of_scheme (sch : auth_scheme) (challenges : list Chall.t)
  : list Chall.t :=
  filter (fun c => auth_scheme_eqb (Chall.scheme c) sch) challenges.

(** Scheme selection as the specification words it, first half: the
    candidates in preference order, Negotiate, then Digest, then Basic,
    each scheme's candidates in the order of the list. *)
Definition preference_order (env : auth_env) (challenges : list Chall.t)
  : list Chall.t :=
  ((if HAVE_GSSAPI env then of_scheme auth_scheme_gssapi challenges else [])
   ++ of_scheme auth_scheme_digest challenges
   ++ of_scheme auth_scheme_basic challenges)%list.

(** Scheme selection as the specification words it, second half: each
    candidate in turn is handed to its scheme's validator, and the first
    one accepted ends the search. *)
Fixpoint first_accepted (env : auth_env) (candidates : list Chall.t)
  (w : world) : bool * world :=
  match candidates with
  | [] => (false, w)
  | c :: rest =>
      let '(r, w') :=
        examine_scheme env (Chall.scheme c)
          (record_event (EvExamine c) w) c in
      if r =? 0 then (true, w') else first_accepted env rest w'
  end.

(** The challenges that a trace shows as examined, in order. *)
Fixpoint examined (log : list event) : list Chall.t :=
  match log with
  | [] => []
  | EvExamine c :: rest => c :: examined rest
  | EvCreds _ _ :: rest => examined rest
  end.

(** The credential requests that a trace shows, in order. *)
Fixpoint asked (log : list event) : list (option string * Z) :=
  match log with
  | [] => []
  | EvCreds r a :: rest => (r, a) :: asked rest
  | EvExamine _ :: rest => asked rest
  end.

Fixpoint update_last (f : Chall.t -> Chall.t) (l : list Chall.t)
  : list Chall.t :=
  match l with
  | [] => []
  | [c] => [f c]
  | c :: rest => c :: update_last f rest
  end.

(** The challenge parser as the specification words it: a bare token opens
    a new challenge, the pairs that follow fill the challenge that is open,
    an unknown scheme empties the list, and the list is in insertion
    order: a new challenge goes to its end. *)
Fixpoint parse_in_order (env : auth_env) (fuel : nat) (pnt : string)
  (val : val_var) (order : list Chall.t) : option (list Chall.t) :=
  match fuel with
  | O => None
  | S fuel' =>
      match tokenize pnt true with
      | TokEnd | TokErr => Some order
      | Tok key v rest =>
          match store_value val v with
          | VUninit => None
          | VNull =>
              match key with
              | None => None
              | Some k =>
                  match scheme_of_token env k with
                  | Some sch =>
                      parse_in_order env fuel' rest VNull
                        (order ++ [Chall.fresh sch])%list
                  | None => Some []
                  end
              end
          | VStr s =>
              match order with
              | [] => parse_in_order env fuel' rest (VStr s) []
              | _ =>
                  let val' := ne_shave s (String dquote (String squote "")) in
                  match key with
                  | None => None
                  | Some k =>
                      parse_in_order env fuel' rest (VStr val')
                        (update_last (challenge_pair k val') order)
                  end
              end
          end
      end
  end.

(** ** The rest of the hooks *)

(** [ah_destroy]: the private record of the request is freed. *)
Definition ah_destroy (areq : option auth_request) : option auth_request :=
  None.

(** [ne_forget_auth]: the server and proxy sessions registered with the
    HTTP session, when there are any, are cleaned. *)
Definition ne_forget_auth (server proxy : option auth_session)
  : option auth_session * option auth_session :=
  (option_map clean_session server, option_map clean_session proxy).

(** ** Predicates on header text *)

(** Every character of [s] is in [set]. *)
Fixpoint all_in (set s : string) : bool :=
  match s with
  | EmptyString => true
  | String c s' => strchr set c && all_in set s'
  end.

(** [s] begins, or ends, with a character of [set]. *)
Definition begins_in (set s : string) : bool :=
  match s with
  | EmptyString => false
  | String c _ => strchr set c
  end.

Fixpoint ends_in (set s : string) : bool :=
  match s with
  | EmptyString => false
  | String c EmptyString => strchr set c
  | String _ s' => ends_in set s'
  end.

(** A key as the tokenizer can return it whole: not empty, no [=], a first
    character that is no blank, and in a challenge no blank at all. *)
Definition clean_key (ischall : bool) (key : string) : bool :=
  negb (begins_in key_blanks key)
  && negb (strchr key "="%char)
  && negb (ischall && strchr key " "%char)
  && match key with
     | EmptyString => false
     | _ => true
     end.

Definition is_hex_digit (c : ascii) : bool :=
  match hex_value c with
  | Some _ => true
  | None => false
  end.

Definition hex_digits : string := "0123456789abcdef".

(** The characters that [auth_challenge] shaves off a value. *)
Definition quote_marks : string := String dquote (String squote "").

(** A text that comes back whole from between quotes: no quote inside, no
    apostrophe at either end. *)
Definition plain_value (v : string) : bool :=
  negb (strchr v dquote)
  && negb (begins_in quote_marks v)
  && negb (ends_in quote_marks v).

(** What [request_digest] does to the nonce count. *)
Definition bump_nonce_count (s : auth_session) : auth_session :=
  if negb (qop_is_none (qop s))
  then set_nonce_count ((nonce_count s + 1) mod 4294967296) s
  else s.

(** [k] requests in a row on one session: [request_digest] is run for each
    of them. *)
Fixpoint send_requests (k : nat) (s : auth_session) (req : auth_request)
  : option auth_session :=
  match k with
  | O => Some s
  | S k' =>
      match request_digest s req with
      | Some (_, s') => send_requests k' s' req
      | None => None
      end
  end.

(** The qop value that goes into the digest and onto the wire. *)
Definition qop_text (q : auth_qop) : string :=
  if qop_is_auth_int q then "auth-int" else "auth".

(** H(A2) of a request, as RFC 2617 defines it. *)
Definition h_a2 (q : auth_qop) (method uri body : string) : string :=
  if qop_is_auth_int q
  then md5_hex (method ++ ":" ++ uri ++ ":" ++ md5_hex body)
  else md5_hex (method ++ ":" ++ uri).

(** The request digest of RFC 2617, section 3.2.2.1. *)
Definition rfc_request_digest (q : auth_qop) (ha1 n nc cn ha2 : string)
  : string :=
  if qop_is_none q then md5_hex (ha1 ++ ":" ++ n ++ ":" ++ ha2)
  else
    md5_hex
      (ha1 ++ ":" ++ n ++ ":" ++ nc ++ ":" ++ cn ++ ":" ++ qop_text q ++ ":"
         ++ ha2).

(** The credentials as the specification lays them out: [Digest
    username="U", realm="R", nonce="N", uri="U", response="D",
    algorithm="A"], then the opaque value when there is one, then cnonce,
    nc and qop when a qop is in use. *)
Definition digest_credentials (user r n uri response algorithm : string)
  (opaque : option string) (qop_part : option (string * string * string))
  : string :=
  "Digest username=" ++ quoted user ++ ", realm=" ++ quoted r
    ++ ", nonce=" ++ quoted n ++ ", uri=" ++ quoted uri
    ++ ", response=" ++ quoted response
    ++ ", algorithm=" ++ quoted algorithm
    ++ match opaque with
       | Some o => ", opaque=" ++ quoted o
       | None => ""
       end
    ++ match qop_part with
       | Some (cn, nc, q) =>
           ", cnonce=" ++ quoted cn ++ ", nc=" ++ nc ++ ", qop=" ++ quoted q
       | None => ""
       end
    ++ CRLF.

Definition alg_text (a : auth_algorithm) : string :=
  match a with
  | auth_alg_md5 => "MD5"
  | _ => "MD5-sess"
  end.

(** The digest context that [request_digest] stores for the verification
    of the response. *)
Definition stored_prefix (s : auth_session) (n : string) : string :=
  if qop_is_none (qop s) then h_a1 s ++ ":" ++ n ++ ":"
  else h_a1 s ++ ":" ++ n ++ ":" ++ nc_hex (nonce_count (bump_nonce_count s))
       ++ ":" ++ str_or_empty (cnonce s) ++ ":".

(** ** Conditions on a session *)

(** A session that says it can handle a request under Digest has a nonce
    and a client nonce. *)
Definition session_sound (s : auth_session) : bool :=
  negb (can_handle s)
  || negb (auth_scheme_eqb (scheme s) auth_scheme_digest)
  || (negb (is_none (nonce s)) && negb (is_none (cnonce s))).

(** The credentials that [clean_session] frees are all gone. *)
Definition session_wiped (s : auth_session) : bool :=
  negb (can_handle s) && is_none (basic s) && is_none (nonce s)
  && is_none (cnonce s) && is_none (opaque s) && is_none (realm s)
  && is_none (gssapi_token s).

(** The attempt numbers of credential requests go up by one from [a]. *)
Fixpoint attempts_from (a : Z) (l : list (option string * Z)) : bool :=
  match l with
  | [] => true
  | (_, x) :: rest => (x =? a) && attempts_from (a + 1) rest
  end.

(** The two classes of the code. *)
Definition known_class (c : auth_class) : Prop :=
  c = ah_server_class \/ c = ah_proxy_class.

(** ** Concrete sessions, challenges and headers *)

Definition no_creds : ne_auth_creds := fun _ _ user => (1, user, "").

Definition https_session : ne_session :=
  mk_ne_session "https" "www.example.com" "".

Definition http_session : ne_session :=
  mk_ne_session "http" "www.example.com" "".

Definition mufasa_creds : ne_auth_creds :=
  fun _ _ _ => (0, "Mufasa", "Circle Of Life").

(** No GSSAPI, and a client nonce source that always draws the client nonce
    of the example in RFC 2617, section 3.5. *)
Definition rfc_env : auth_env :=
  mk_auth_env false (fun _ => None) (fun _ => "0a4f113b").

Definition fresh_world (s : auth_session) : world := mk_world s O [].

Definition rfc_world : world :=
  fresh_world (ne_set_server_auth http_session mufasa_creds).

Definition rfc_realm : string := "testrealm@host.com".
Definition rfc_nonce : string := "dcd98b7102dd2f0e8b11d0f600bfb0c093".
Definition rfc_opaque : string := "5ccc069c403ebaf9f0171e9517f40e41".

(** The challenge of RFC 2617, section 3.5, as a header value. *)
Definition rfc_header : string :=
  "Digest realm=" ++ quoted rfc_realm ++ ", qop=" ++ quoted "auth"
    ++ ", nonce=" ++ quoted rfc_nonce ++ ", opaque=" ++ quoted rfc_opaque.

(** The same challenge offering [auth-int] as well. *)
Definition rfc_header_auth_int : string :=
  "Digest realm=" ++ quoted rfc_realm ++ ", qop=" ++ quoted "auth,auth-int"
    ++ ", nonce=" ++ quoted rfc_nonce ++ ", opaque=" ++ quoted rfc_opaque.

(** What the parser makes of [rfc_header]. *)
Definition rfc_challenge_parsed : Chall.t :=
  Chall.mk auth_scheme_digest (Some rfc_realm) (Some rfc_nonce)
    (Some rfc_opaque) false false true false auth_alg_md5.

(** The same challenge with [got_qop] set, which no header yields. *)
Definition rfc_challenge_got_qop : Chall.t :=
  Chall.mk auth_scheme_digest (Some rfc_realm) (Some rfc_nonce)
    (Some rfc_opaque) false true true false auth_alg_md5.

Definition rfc_request : auth_request :=
  mk_auth_request (mk_ne_request "") "/dir/index.html" "GET" false Md5Zeroed
    None None.

(** The Digest driver end to end: the challenge header is processed and,
    when a challenge is accepted, the credentials for [req] are built. *)
Definition digest_driver (env : auth_env) (w : world) (value : string)
  (req : auth_request) : option string :=
  match auth_challenge env w value with
  | Some (0, w') =>
      match request_digest (w_sess w') req with
      | Some (hdr, _) => Some hdr
      | None => None
      end
  | _ => None
  end.

(** The credentials of the RFC's example for every directive but the ones
    tied to qop: what the driver emits for [rfc_header]. *)
Definition rfc_credentials_no_qop : string :=
  "Digest username=" ++ quoted "Mufasa" ++ ", realm=" ++ quoted rfc_realm
    ++ ", nonce=" ++ quoted rfc_nonce ++ ", uri=" ++ quoted "/dir/index.html"
    ++ ", response=" ++ quoted "670fd8c2df070c60b045671b8b24ff02"
    ++ ", algorithm=" ++ quoted "MD5" ++ ", opaque=" ++ quoted rfc_opaque
    ++ CRLF.

(** The credentials of the RFC's example. *)
Definition rfc_credentials : string :=
  "Digest username=" ++ quoted "Mufasa" ++ ", realm=" ++ quoted rfc_realm
    ++ ", nonce=" ++ quoted rfc_nonce ++ ", uri=" ++ quoted "/dir/index.html"
    ++ ", response=" ++ quoted "6629fae49393a05397450978507c4ef1"
    ++ ", algorithm=" ++ quoted "MD5" ++ ", opaque=" ++ quoted rfc_opaque
    ++ ", cnonce=" ++ quoted "0a4f113b" ++ ", nc=00000001, qop="
       ++ quoted "auth"
    ++ CRLF.

(** [sub] occurs in [s]. *)
Definition occurs (sub s : string) : bool :=
  match String.index 0 sub s with
  | Some _ => true
  | None => false
  end.

(** The world after [pre_send] has emitted credentials for [req], with the
    request record and the header line. *)
Definition emit (env : auth_env) (w : world) (req : auth_request)
  : option (auth_request * string * world) :=
  match ah_pre_send env (w_sess w) (Some req) "" with
  | Some (Some r, line, s') => Some (r, line, with_sess (fun _ => s') w)
  | _ => None
  end.

(** A session that negotiated [qop=auth]: the world after selection among
    [rfc_challenge_got_qop] alone. *)
Definition qop_auth_world : world :=
  snd (select_challenge rfc_env rfc_world [rfc_challenge_got_qop]).

(** A session made ready by [rfc_header] through the post-send hook. *)
Definition ready_world : world :=
  match
    ah_post_send rfc_env rfc_world
      (Some (capture_headers (Some rfc_header) None rfc_request)) 401
  with
  | Some (_, _, w) => w
  | None => rfc_world
  end.

Definition stale_header : string :=
  "Digest realm=" ++ quoted rfc_realm ++ ", qop=" ++ quoted "auth"
    ++ ", nonce=" ++ quoted "4ef1c0ffee" ++ ", stale=true".

Definition two_digest_header : string :=
  "Digest realm=" ++ quoted "first" ++ ", nonce=" ++ quoted "n1"
    ++ ", Digest realm=" ++ quoted "second" ++ ", nonce=" ++ quoted "n2".

Definition first_challenge : Chall.t :=
  Chall.mk auth_scheme_digest (Some "first") (Some "n1") None false false
    false false auth_alg_md5.

Definition second_challenge : Chall.t :=
  Chall.mk auth_scheme_digest (Some "second") (Some "n2") None false false
    false false auth_alg_md5.

(** The request record, the header line and the world once credentials
    have been emitted for [rfc_request] in [ready_world]. *)
Definition ready_emitted : auth_request * string * world :=
  match emit rfc_env ready_world rfc_request with
  | Some x => x
  | None => (rfc_request, "", ready_world)
  end.

Definition nextnonce_header : string := "nextnonce=" ++ quoted "f00dface".

Definition rspauth_only_header : string :=
  "rspauth=" ++ quoted "deadbeefdeadbeefdeadbeefdeadbeef".

Definition qop_rspauth_header : string :=
  "qop=auth, rspauth=" ++ quoted "deadbeefdeadbeefdeadbeefdeadbeef".

(** The request of [ready_emitted] with a captured info header that names
    a qop but neither cnonce nor nc, its session, and what the header
    parses to. *)
Definition checked_request : auth_request :=
  capture_headers None (Some qop_rspauth_header) (fst (fst ready_emitted)).

Definition checked_world : world := snd ready_emitted.


(** A request on which Basic credentials were emitted, with a captured
    info header. *)
Definition basic_request : auth_request :=
  set_will_handle true
    (capture_headers None (Some rspauth_only_header) rfc_request).

(** A request that brought back the challenge of the RFC. *)
Definition challenged_request : auth_request :=
  capture_headers (Some rfc_header) None rfc_request.

Definition refusing_world : world :=
  fresh_world (ne_set_server_auth http_session no_creds).

(** ** More concrete sessions, requests and headers *)

(** GSSAPI compiled in, with a provider that gives the same token for
    every principal. *)
Definition gss_env : auth_env :=
  mk_auth_env true (fun _ => Some "token") (fun _ => "0a4f113b").

Definition basic_header : string := "Basic realm=" ++ quoted "WallyWorld".

Definition plain_digest_header : string :=
  "Digest realm=" ++ quoted rfc_realm ++ ", nonce=" ++ quoted rfc_nonce.

Definition mixed_header : string :=
  "Basic realm=" ++ quoted "WallyWorld" ++ ", NTLM".

(** Requests that brought back these challenges. *)
Definition basic_challenged : auth_request :=
  capture_headers (Some basic_header) None rfc_request.

Definition digest_challenged : auth_request :=
  capture_headers (Some plain_digest_header) None rfc_request.

Definition mixed_challenged : auth_request :=
  capture_headers (Some mixed_header) None rfc_request.

Definition negotiate_challenged : auth_request :=
  capture_headers (Some "GSS-Negotiate") None rfc_request.

(** The world that the post-send hook leaves when the callback refuses
    the challenge of the RFC. *)
Definition refused_world : world :=
  match ah_post_send rfc_env refusing_world (Some challenged_request) 401 with
  | Some (_, _, w) => w
  | None => refusing_world
  end.

(** A session under [qop=auth], a request that will carry its credentials,
    and what [request_digest] makes of them. *)
Definition signed_session : auth_session := w_sess qop_auth_world.

Definition signed_request : auth_request := set_will_handle true rfc_request.

Definition signed_sent : string * auth_session :=
  match request_digest signed_session signed_request with
  | Some x => x
  | None => ("", signed_session)
  end.

(** What [verify_response] makes of [checked_request]. *)
Definition checked_outcome : Z * auth_session :=
  match
    verify_response checked_request (w_sess checked_world) qop_rspauth_header
  with
  | Some x => x
  | None => (0, w_sess checked_world)
  end.

(** A request that carried Digest credentials and brought back a 401
    with a scheme that is not known, the world that the post-send hook
    leaves, and an info header that names a qop with all its fields. *)
Definition spoiled_request : auth_request :=
  capture_headers (Some "NTLM") None (fst (fst ready_emitted)).

Definition spoiled_world : world :=
  match ah_post_send rfc_env (snd ready_emitted) (Some spoiled_request) 401
  with
  | Some (_, _, w) => w
  | None => snd ready_emitted
  end.

Definition full_info_header : string :=
  "qop=auth, rspauth=" ++ quoted "deadbeefdeadbeefdeadbeefdeadbeef"
    ++ ", cnonce=" ++ quoted "0a4f113b" ++ ", nc=00000000".

Definition full_info : auth_info :=
  mk_auth_info auth_qop_auth (Some "auth") None
    (Some "deadbeefdeadbeefdeadbeefdeadbeef") (Some "0a4f113b")
    (Some "00000000") (Some 0).
(** * Properties *)

(** ** Known answers of the digest *)

Example md5_empty : md5_hex "" = "d41d8cd98f00b204e9800998ecf8427e".
Proof. vm_compute. reflexivity. Qed.

Example md5_abc : md5_hex "abc" = "900150983cd24fb0d6963f7d28e17f72".
Proof. vm_compute. reflexivity. Qed.

Example md5_two_blocks :
  md5_hex
    "12345678901234567890123456789012345678901234567890123456789012345678901234567890"
  = "57edf4a22be3c955ac49da2e2107b67a".
Proof. vm_compute. reflexivity. Qed.

Example base64_aladdin :
  ne_base64 "Aladdin:open sesame" = "QWxhZGRpbjpvcGVuIHNlc2FtZQ==".
Proof. vm_compute. reflexivity. Qed.

Example nc_hex_1 : nc_hex 1 = "00000001".
Proof. vm_compute. reflexivity. Qed.

Example nc_hex_big : nc_hex 0xdeadbeef = "deadbeef".
Proof. vm_compute. reflexivity. Qed.

(** ** The tokenizer and the string helpers on small inputs *)

Example tokenize_scheme_token :
  tokenize ("Digest realm=" ++ quoted "a") true
  = Tok (Some "Digest") ValNull ("realm=" ++ quoted "a").
Proof. reflexivity. Qed.

Example tokenize_quoted_comma :
  tokenize ("qop=" ++ quoted "auth,auth-int" ++ ", nonce=x") true
  = Tok (Some "qop") (ValSet (quoted "auth,auth-int")) " nonce=x".
Proof. reflexivity. Qed.

Example tokenize_leading_equals : tokenize "=x" false = TokErr.
Proof. reflexivity. Qed.

Example tokenize_bare_word : tokenize "rspauth" false
                             = Tok (Some "rspauth") ValKeep "".
Proof. reflexivity. Qed.

Example tokenize_blank_tail : tokenize " " true = Tok None ValKeep "".
Proof. reflexivity. Qed.

Example ne_shave_quotes : ne_shave (quoted "abc") (String dquote "") = "abc".
Proof. reflexivity. Qed.

Example qop_tokens_two : qop_tokens "auth, auth-int" = ["auth"; " auth-int"].
Proof. reflexivity. Qed.

Example sscanf_hex_count : sscanf_hex "0000000a" = Some 10.
Proof. reflexivity. Qed.

Example sscanf_hex_no_digit : sscanf_hex "zz" = None.
Proof. reflexivity. Qed.

(** ** The tokenizer consumes its input *)

Lemma tokenize_loop_le ischall pnt :
  forall state key value rest,
    tokenize_loop ischall state pnt = Tok key value rest ->
    (String.length rest <= String.length pnt)%nat.
Proof.
  induction pnt as [|c pnt IH]; intros state key value rest H.
  - destruct state; simpl in H; inversion H; subst; simpl; lia.
  - cbn [tokenize_loop] in H.
    destruct state as [k|k v|k v].
    + destruct (Ascii.eqb c "=").
      * destruct k; [apply IH in H; simpl; lia | discriminate].
      * destruct k.
        -- destruct (Ascii.eqb c " " && ischall).
           ++ inversion H; subst; simpl; lia.
           ++ apply IH in H; simpl; lia.
        -- destruct (strchr key_blanks c); apply IH in H; simpl; lia.
    + destruct (Ascii.eqb c ",").
      * inversion H; subst; simpl; lia.
      * destruct (Ascii.eqb c dquote); apply IH in H; simpl; lia.
    + destruct (Ascii.eqb c dquote); apply IH in H; simpl; lia.
Qed.

Lemma tokenize_shorter hdr ischall key value rest :
  tokenize hdr ischall = Tok key value rest ->
  (String.length rest < String.length hdr)%nat.
Proof.
  destruct hdr as [|c pnt]; [discriminate|].
  unfold tokenize. cbn [tokenize_loop].
  destruct (Ascii.eqb c "="); [discriminate|].
  destruct (strchr key_blanks c); intros H;
    apply tokenize_loop_le in H; simpl; lia.
Qed.

Lemma parse_challenges_S env fuel pnt val challenges :
  parse_challenges env (S fuel) pnt val challenges =
  match tokenize pnt true with
  | TokEnd | TokErr => Some challenges
  | Tok key v rest =>
      match store_value val v with
      | VUninit => None
      | VNull =>
          match key with
          | None => None
          | Some k =>
              match scheme_of_token env k with
              | Some sch =>
                  parse_challenges env fuel rest VNull
                    (Chall.fresh sch :: challenges)
              | None => Some []
              end
          end
      | VStr s =>
          match challenges with
          | [] => parse_challenges env fuel rest (VStr s) []
          | chall :: next =>
              let val' := ne_shave s (String dquote (String squote "")) in
              match key with
              | None => None
              | Some k =>
                  parse_challenges env fuel rest (VStr val')
                    (challenge_pair k val' chall :: next)
              end
          end
      end
  end.
Proof. reflexivity. Qed.

Lemma parse_auth_info_S fuel pnt val i :
  parse_auth_info (S fuel) pnt val i =
  match tokenize pnt false with
  | TokEnd | TokErr => Some i
  | Tok key v rest =>
      match store_value val v, key with
      | VStr s, Some k =>
          let val' := ne_shave s (String dquote "") in
          parse_auth_info fuel rest (VStr val') (info_pair k val' i)
      | _, _ => None
      end
  end.
Proof. reflexivity. Qed.

(** Fuel beyond the length of the text changes nothing: a [None] of the two
    loops is an undefined run, never a lack of fuel. *)
Lemma parse_challenges_fuel env :
  forall fuel pnt val challenges,
    (String.length pnt < fuel)%nat ->
    parse_challenges env (S fuel) pnt val challenges
    = parse_challenges env fuel pnt val challenges.
Proof.
  induction fuel as [|fuel IH]; intros pnt val challenges Hlen; [lia|].
  rewrite (parse_challenges_S env (S fuel) pnt val challenges),
    (parse_challenges_S env fuel pnt val challenges).
  destruct (tokenize pnt true) as [| |key v rest] eqn:Htok; try reflexivity.
  apply tokenize_shorter in Htok.
  assert (Hrest : (String.length rest < fuel)%nat) by lia.
  destruct (store_value val v); try reflexivity.
  - destruct key as [k|]; [|reflexivity].
    destruct (scheme_of_token env k); [|reflexivity].
    apply (IH rest _ _ Hrest).
  - destruct challenges as [|chall next]; [apply (IH rest _ _ Hrest)|].
    destruct key as [k|]; [|reflexivity].
    apply (IH rest _ _ Hrest).
Qed.

Lemma parse_auth_info_fuel :
  forall fuel pnt val i,
    (String.length pnt < fuel)%nat ->
    parse_auth_info (S fuel) pnt val i = parse_auth_info fuel pnt val i.
Proof.
  induction fuel as [|fuel IH]; intros pnt val i Hlen; [lia|].
  rewrite (parse_auth_info_S (S fuel) pnt val i),
    (parse_auth_info_S fuel pnt val i).
  destruct (tokenize pnt false) as [| |key v rest] eqn:Htok; try reflexivity.
  apply tokenize_shorter in Htok.
  destruct (store_value val v); try reflexivity.
  destruct key as [k|]; [|reflexivity].
  apply IH. lia.
Qed.

(** The tokens of a [qop] value are those that repeated [ne_token] yields. *)
Lemma qop_tokens_ne_token val :
  qop_tokens val =
  match ne_token val "," with
  | (tok, None) => [tok]
  | (tok, Some rest) => tok :: qop_tokens rest
  end.
Proof.
  induction val as [|c val IH]; [reflexivity|].
  simpl. destruct (Ascii.eqb c ","); [reflexivity|].
  rewrite IH. destruct (ne_token val ",") as [t [r|]]; reflexivity.
Qed.

(** ** What an accepted Digest challenge installs *)

Lemma install_challenge_spec parms cn s :
  spec (install_challenge parms cn s) = spec s.
Proof.
  unfold install_challenge, install_qop, install_opaque.
  destruct (Chall.got_qop parms), (Chall.opaque parms); reflexivity.
Qed.

Lemma install_challenge_scheme parms cn s :
  scheme (install_challenge parms cn s) = auth_scheme_digest.
Proof.
  unfold install_challenge, install_qop, install_opaque.
  destruct (Chall.got_qop parms), (Chall.opaque parms); reflexivity.
Qed.

Lemma install_challenge_qop parms cn s :
  qop (install_challenge parms cn s)
  = if Chall.got_qop parms
    then if Chall.qop_auth_int parms then auth_qop_auth_int
         else auth_qop_auth
    else auth_qop_none.
Proof.
  unfold install_challenge, install_qop, install_opaque.
  destruct (Chall.got_qop parms), (Chall.opaque parms); reflexivity.
Qed.

Lemma install_challenge_nonce parms cn s :
  nonce (install_challenge parms cn s) = Chall.nonce parms.
Proof.
  unfold install_challenge, install_qop, install_opaque.
  destruct (Chall.got_qop parms), (Chall.opaque parms); reflexivity.
Qed.

Lemma install_challenge_h_a1 parms cn s :
  h_a1 (install_challenge parms cn s) = h_a1 s.
Proof.
  unfold install_challenge, install_qop, install_opaque.
  destruct (Chall.got_qop parms), (Chall.opaque parms); reflexivity.
Qed.

Lemma install_challenge_username parms cn s :
  username (install_challenge parms cn s) = username s.
Proof.
  unfold install_challenge, install_qop, install_opaque.
  destruct (Chall.got_qop parms), (Chall.opaque parms); reflexivity.
Qed.

Lemma install_challenge_nonce_count parms cn s :
  nonce_count (install_challenge parms cn s)
  = if Chall.got_qop parms then 0 else nonce_count s.
Proof.
  unfold install_challenge, install_qop, install_opaque.
  destruct (Chall.got_qop parms), (Chall.opaque parms); reflexivity.
Qed.

Lemma install_h_a1_spec parms password s :
  spec (install_h_a1 parms password s) = spec s.
Proof. unfold install_h_a1. destruct (Chall.stale parms); reflexivity. Qed.

Lemma install_h_a1_scheme parms password s :
  scheme (install_h_a1 parms password s) = scheme s.
Proof. unfold install_h_a1. destruct (Chall.stale parms); reflexivity. Qed.

Lemma install_h_a1_qop parms password s :
  qop (install_h_a1 parms password s) = qop s.
Proof. unfold install_h_a1. destruct (Chall.stale parms); reflexivity. Qed.

Lemma install_h_a1_nonce parms password s :
  nonce (install_h_a1 parms password s) = nonce s.
Proof. unfold install_h_a1. destruct (Chall.stale parms); reflexivity. Qed.

Lemma install_h_a1_nonce_count parms password s :
  nonce_count (install_h_a1 parms password s) = nonce_count s.
Proof. unfold install_h_a1. destruct (Chall.stale parms); reflexivity. Qed.

Lemma install_h_a1_stale parms password s :
  Chall.stale parms = true -> install_h_a1 parms password s = s.
Proof. unfold install_h_a1. intros ->. reflexivity. Qed.

(** ** The context filter *)

Lemma streq_eq a b : streq a b = true <-> a = b.
Proof. apply String.eqb_eq. Qed.

Lemma streq_neq a b : streq a b = false <-> a <> b.
Proof. apply String.eqb_neq. Qed.

(** C9: on an https session, registering server auth sets the context
    filter to [AUTH_NOTCONNECT] and registering proxy auth sets it to
    [AUTH_CONNECT]; for any other scheme both filters are [AUTH_ANY].  So on
    an https session with proxy auth registered, the create hook attaches a
    request record to a CONNECT request and none to a GET request (nor to
    any other method). *)
Theorem C9_context_filter (s : ne_session) (creds : ne_auth_creds) :
  (ne_get_scheme s = "https" ->
   context (ne_set_server_auth s creds) = AUTH_NOTCONNECT
   /\ context (ne_set_proxy_auth s creds) = AUTH_CONNECT
   /\ (forall req uri,
         fst (ah_create req (ne_set_proxy_auth s creds) "CONNECT" uri)
         = Some (mk_auth_request req uri "CONNECT" false Md5Zeroed None None))
   /\ (forall req uri,
         fst (ah_create req (ne_set_proxy_auth s creds) "GET" uri) = None)
   /\ (forall req method uri,
         method <> "CONNECT" ->
         fst (ah_create req (ne_set_proxy_auth s creds) method uri) = None))
  /\ (ne_get_scheme s <> "https" ->
      context (ne_set_server_auth s creds) = AUTH_ANY
      /\ context (ne_set_proxy_auth s creds) = AUTH_ANY).
Proof.
  split.
  - intros Hs.
    assert (Hp : context (ne_set_proxy_auth s creds) = AUTH_CONNECT).
    { unfold ne_set_proxy_auth, auth_register; cbn [context].
      apply streq_eq in Hs. rewrite Hs. reflexivity. }
    repeat split.
    + unfold ne_set_server_auth, auth_register; cbn [context].
      apply streq_eq in Hs. rewrite Hs. reflexivity.
    + exact Hp.
    + intros req uri. unfold ah_create. rewrite Hp. reflexivity.
    + intros req uri. unfold ah_create. rewrite Hp. reflexivity.
    + intros req method uri Hm. unfold ah_create. rewrite Hp.
      apply streq_neq in Hm. rewrite Hm. reflexivity.
  - intros Hs. apply streq_neq in Hs.
    unfold ne_set_server_auth, ne_set_proxy_auth, auth_register;
      cbn [context]. rewrite Hs. split; reflexivity.
Qed.

Lemma C9_context_filter_witness :
  context (ne_set_server_auth https_session no_creds) = AUTH_NOTCONNECT
  /\ context (ne_set_proxy_auth http_session no_creds) = AUTH_ANY.
Proof.
  split.
  - apply (proj1 (C9_context_filter https_session no_creds)). reflexivity.
  - apply (proj2 (C9_context_filter http_session no_creds)).
    discriminate.
Defined.

(** ** An info header needs Digest credentials *)

(** C10: when an info header was captured for a request on which
    credentials were emitted ([will_handle]) while the session's scheme is
    not Digest, verification fails and the post-send hook returns
    [NE_ERROR], with the class's message as the session error; when
    [will_handle] is false the header is ignored and verification reports
    success, leaving the session as it was. *)
Theorem C10_info_header_scheme (env : auth_env) (w : world)
  (req : auth_request) (value : string) (code : Z) :
  auth_info_hdr req = Some value ->
  (will_handle req = true ->
   scheme (w_sess w) <> auth_scheme_digest ->
   verify_response req (w_sess w) value = Some (-1, w_sess w)
   /\ exists w',
       ah_post_send env w (Some req) code
       = Some (NE_ERROR, Some (capture_headers None None req), w')
       /\ ne_get_error (sess (w_sess w')) = fail_msg (spec (w_sess w)))
  /\ (will_handle req = false ->
      verify_response req (w_sess w) value = Some (0, w_sess w)).
Proof.
  intros Hinfo. split.
  - intros Hwill Hscheme.
    assert (Hv : verify_response req (w_sess w) value = Some (-1, w_sess w)).
    { unfold verify_response. rewrite Hwill. cbn [negb].
      destruct (scheme (w_sess w)); try reflexivity.
      contradiction Hscheme; reflexivity. }
    split; [exact Hv|].
    unfold ah_post_send. rewrite Hinfo, Hv. cbn.
    eexists. split; reflexivity.
  - intros Hwill. unfold verify_response. rewrite Hwill. reflexivity.
Qed.

(** ** The validation gate of the Digest driver *)

(** C6: [digest_challenge] rejects, leaving the session untouched, every
    challenge without a realm, without a nonce, with an unknown algorithm,
    or with MD5-sess and neither [auth] nor [auth-int] offered.  Every other
    challenge passes the validation: it is accepted when it is stale, and
    otherwise exactly when the credentials callback returns zero. *)
Theorem C6_digest_validation (env : auth_env) (w : world) (parms : Chall.t) :
  let invalid :=
    Chall.realm parms = None \/ Chall.nonce parms = None
    \/ Chall.alg parms = auth_alg_unknown
    \/ (Chall.alg parms = auth_alg_md5_sess
        /\ Chall.qop_auth parms = false
        /\ Chall.qop_auth_int parms = false) in
  let callback_ok :=
    fst (fst (creds (w_sess w) (Chall.realm parms) (attempt (w_sess w))
                (username (w_sess w)))) = 0 in
  (invalid -> digest_challenge env w parms = (-1, w))
  /\ (~ invalid ->
      (Chall.stale parms = true \/ callback_ok ->
       fst (digest_challenge env w parms) = 0)
      /\ (Chall.stale parms = false -> ~ callback_ok ->
          fst (digest_challenge env w parms) = -1)).
Proof.
  intros invalid callback_ok. subst invalid callback_ok. split.
  - intros Hinv. unfold digest_challenge.
    replace (digest_invalid parms) with true; [reflexivity|].
    symmetry. unfold digest_invalid.
    destruct Hinv as [H | [H | [H | (Ha & Hq & Hi)]]].
    + rewrite H.
      destruct (Chall.alg parms), (Chall.qop_auth parms),
        (Chall.qop_auth_int parms), (Chall.nonce parms); reflexivity.
    + rewrite H.
      destruct (Chall.alg parms), (Chall.qop_auth parms),
        (Chall.qop_auth_int parms), (Chall.realm parms); reflexivity.
    + rewrite H. reflexivity.
    + rewrite Ha, Hq, Hi. reflexivity.
  - intros Hvalid.
    assert (Hgate : digest_invalid parms = false).
    { unfold digest_invalid.
      destruct (Chall.realm parms) eqn:Hr;
        [|exfalso; apply Hvalid; left; reflexivity].
      destruct (Chall.nonce parms) eqn:Hn;
        [|exfalso; apply Hvalid; right; left; reflexivity].
      destruct (Chall.alg parms) eqn:Ha; cbn.
      - reflexivity.
      - destruct (Chall.qop_auth parms) eqn:Hq; [reflexivity|].
        destruct (Chall.qop_auth_int parms) eqn:Hi; [reflexivity|].
        exfalso; apply Hvalid. right; right; right. repeat split.
      - exfalso; apply Hvalid. right; right; left. reflexivity. }
    unfold digest_challenge, get_credentials, get_cnonce. rewrite Hgate.
    cbn [w_sess with_sess clean_session attempt username creds realm
         set_realm set_can_handle set_basic set_nonce set_cnonce set_opaque
         set_gssapi_token].
    destruct (Chall.stale parms) eqn:Hstale.
    + split; [reflexivity | discriminate].
    + destruct (creds (w_sess w) (Chall.realm parms) (attempt (w_sess w))
                  (username (w_sess w))) as [[ret user] pwbuf].
      cbn [fst]. split.
      * intros [H | H]; [discriminate|]. rewrite H. reflexivity.
      * intros _ Hret. apply Z.eqb_neq in Hret. rewrite Hret. reflexivity.
Qed.

(** ** Scheme selection *)

Lemma auth_scheme_eqb_eq a b : auth_scheme_eqb a b = true <-> a = b.
Proof. destruct a, b; cbn; split; congruence. Qed.

(** Each loop of [auth_challenge] is the search for the first accepted
    candidate among the challenges of its scheme. *)
Lemma try_challenges_first_accepted env sch :
  forall challenges w,
    try_challenges (examine_scheme env sch) sch challenges w
    = first_accepted env (of_scheme sch challenges) w.
Proof.
  induction challenges as [|c next IH]; intros w; [reflexivity|].
  cbn [try_challenges of_scheme filter].
  destruct (auth_scheme_eqb (Chall.scheme c) sch) eqn:Hsch.
  - apply auth_scheme_eqb_eq in Hsch. cbn [first_accepted]. rewrite Hsch.
    destruct (examine_scheme env sch (record_event (EvExamine c) w) c)
      as [r w'].
    destruct (r =? 0); [reflexivity|]. apply IH.
  - apply IH.
Qed.

Lemma first_accepted_app env :
  forall a b w,
    first_accepted env (a ++ b)%list w
    = (let '(ok, w') := first_accepted env a w in
       if ok then (true, w') else first_accepted env b w').
Proof.
  induction a as [|c a IH]; intros b w; [reflexivity|].
  cbn [first_accepted app].
  destruct (examine_scheme env (Chall.scheme c)
              (record_event (EvExamine c) w) c) as [r w'].
  destruct (r =? 0); [reflexivity|]. apply IH.
Qed.

Lemma select_challenge_first_accepted env w challenges :
  select_challenge env w challenges
  = (let '(ok, w') :=
       first_accepted env (preference_order env challenges) w in
     (if ok then 0 else 1, with_sess (set_can_handle ok) w')).
Proof.
  unfold select_challenge, preference_order.
  change (gssapi_challenge env) with (examine_scheme env auth_scheme_gssapi).
  change (digest_challenge env) with (examine_scheme env auth_scheme_digest).
  change basic_challenge with (examine_scheme env auth_scheme_basic).
  destruct (HAVE_GSSAPI env).
  - rewrite try_challenges_first_accepted, first_accepted_app.
    destruct (first_accepted env (of_scheme auth_scheme_gssapi challenges) w)
      as [[|] w1]; [reflexivity|].
    cbn [negb].
    rewrite try_challenges_first_accepted, first_accepted_app.
    destruct (first_accepted env (of_scheme auth_scheme_digest challenges)
                w1) as [[|] w2]; [reflexivity|].
    cbn [negb]. rewrite try_challenges_first_accepted.
    destruct (first_accepted env (of_scheme auth_scheme_basic challenges)
                w2) as [ok w3]; reflexivity.
  - cbn [negb app].
    rewrite try_challenges_first_accepted, first_accepted_app.
    destruct (first_accepted env (of_scheme auth_scheme_digest challenges)
                w) as [[|] w2]; [reflexivity|].
    cbn [negb]. rewrite try_challenges_first_accepted.
    destruct (first_accepted env (of_scheme auth_scheme_basic challenges)
                w2) as [ok w3]; reflexivity.
Qed.

(** The validators leave the class of the session alone. *)
Lemma basic_challenge_spec w c :
  spec (w_sess (snd (basic_challenge w c))) = spec (w_sess w).
Proof.
  unfold basic_challenge, get_credentials.
  destruct (Chall.realm c); [|reflexivity].
  cbn [w_sess with_sess].
  match goal with |- context [creds ?s ?r ?a ?u] =>
    destruct (creds s r a u) as [[ret user] pw] end.
  destruct (negb (ret =? 0)); reflexivity.
Qed.

Lemma gssapi_challenge_spec env w c :
  spec (w_sess (snd (gssapi_challenge env w c))) = spec (w_sess w).
Proof.
  unfold gssapi_challenge.
  destruct (gss_init_sec_context env _) as [tok|]; [|reflexivity].
  destruct (String.length tok =? 0)%nat; reflexivity.
Qed.

Lemma digest_challenge_spec env w c :
  spec (w_sess (snd (digest_challenge env w c))) = spec (w_sess w).
Proof.
  unfold digest_challenge, get_credentials, get_cnonce.
  destruct (digest_invalid c); [reflexivity|].
  destruct (Chall.stale c).
  - cbn [negb Z.eqb snd w_sess with_sess].
    rewrite install_h_a1_spec, install_challenge_spec. reflexivity.
  - cbn [w_sess with_sess].
    match goal with |- context [creds ?s ?r ?a ?u] =>
      destruct (creds s r a u) as [[ret user] pw] end.
    destruct (negb (ret =? 0)); [reflexivity|].
    cbn [snd w_sess with_sess record_event].
    rewrite install_h_a1_spec, install_challenge_spec. reflexivity.
Qed.

Lemma examine_scheme_spec env sch w c :
  spec (w_sess (snd (examine_scheme env sch w c))) = spec (w_sess w).
Proof.
  destruct sch; cbn [examine_scheme].
  - apply basic_challenge_spec.
  - apply digest_challenge_spec.
  - apply gssapi_challenge_spec.
Qed.

Lemma first_accepted_spec env :
  forall candidates w,
    spec (w_sess (snd (first_accepted env candidates w))) = spec (w_sess w).
Proof.
  induction candidates as [|c rest IH]; intros w; [reflexivity|].
  cbn [first_accepted].
  pose proof (examine_scheme_spec env (Chall.scheme c)
                (record_event (EvExamine c) w) c) as Hs.
  destruct (examine_scheme env (Chall.scheme c)
              (record_event (EvExamine c) w) c) as [r w'].
  cbn [snd] in Hs.
  destruct (r =? 0); [exact Hs|]. rewrite IH. exact Hs.
Qed.

Lemma examined_app a b :
  examined (a ++ b)%list = (examined a ++ examined b)%list.
Proof.
  induction a as [|[r n|c] a IH]; cbn; [reflexivity|exact IH|].
  rewrite IH. reflexivity.
Qed.

Lemma asked_app a b : asked (a ++ b)%list = (asked a ++ asked b)%list.
Proof.
  induction a as [|[r n|c] a IH]; cbn; [reflexivity| |exact IH].
  rewrite IH. reflexivity.
Qed.

(** A validator adds credential requests to the trace, nothing else. *)
Lemma basic_challenge_log w c :
  exists more,
    w_log (snd (basic_challenge w c)) = (w_log w ++ more)%list
    /\ examined more = [].
Proof.
  unfold basic_challenge, get_credentials.
  destruct (Chall.realm c);
    [|exists []; rewrite app_nil_r; split; reflexivity].
  cbn [w_sess with_sess].
  match goal with |- context [creds ?s ?r ?a ?u] =>
    destruct (creds s r a u) as [[ret user] pw] end.
  destruct (negb (ret =? 0));
    cbn [snd w_log record_event with_sess]; eexists; split; reflexivity.
Qed.

Lemma gssapi_challenge_log env w c :
  exists more,
    w_log (snd (gssapi_challenge env w c)) = (w_log w ++ more)%list
    /\ examined more = [].
Proof.
  unfold gssapi_challenge.
  destruct (gss_init_sec_context env _) as [tok|];
    [|exists []; rewrite app_nil_r; split; reflexivity].
  destruct (String.length tok =? 0)%nat;
    exists []; rewrite app_nil_r; split; reflexivity.
Qed.

Lemma digest_challenge_log env w c :
  exists more,
    w_log (snd (digest_challenge env w c)) = (w_log w ++ more)%list
    /\ examined more = [].
Proof.
  unfold digest_challenge, get_credentials, get_cnonce.
  destruct (digest_invalid c);
    [exists []; rewrite app_nil_r; split; reflexivity|].
  destruct (Chall.stale c).
  - cbn [negb Z.eqb snd w_log with_sess].
    exists []. rewrite app_nil_r. split; reflexivity.
  - cbn [w_sess with_sess].
    match goal with |- context [creds ?s ?r ?a ?u] =>
      destruct (creds s r a u) as [[ret user] pw] end.
    destruct (negb (ret =? 0));
      cbn [snd w_log record_event with_sess]; eexists; split; reflexivity.
Qed.

Lemma examine_scheme_log env sch w c :
  exists more,
    w_log (snd (examine_scheme env sch w c)) = (w_log w ++ more)%list
    /\ examined more = [].
Proof.
  destruct sch; cbn [examine_scheme].
  - apply basic_challenge_log.
  - apply digest_challenge_log.
  - apply gssapi_challenge_log.
Qed.

(** The search examines the candidates in order and stops: what it
    examined is an initial part of the candidates, all of them when none is
    accepted. *)
Lemma first_accepted_examined env :
  forall candidates w,
    exists tried rest,
      candidates = (tried ++ rest)%list
      /\ examined (w_log (snd (first_accepted env candidates w)))
         = (examined (w_log w) ++ tried)%list
      /\ (fst (first_accepted env candidates w) = false -> rest = [])
      /\ (fst (first_accepted env candidates w) = true -> tried <> []).
Proof.
  induction candidates as [|c rest IH]; intros w.
  - exists [], []. cbn. rewrite app_nil_r. repeat split; discriminate.
  - cbn [first_accepted].
    destruct (examine_scheme_log env (Chall.scheme c)
                (record_event (EvExamine c) w) c) as (more & Hlog & Hmore).
    destruct (examine_scheme env (Chall.scheme c)
                (record_event (EvExamine c) w) c) as [r w'].
    cbn [snd record_event w_log] in Hlog.
    assert (Hex : examined (w_log w') = (examined (w_log w) ++ [c])%list).
    { rewrite Hlog, !examined_app, Hmore, app_nil_r. reflexivity. }
    destruct (r =? 0).
    + exists [c], rest. cbn [fst snd]. repeat split; try discriminate.
      exact Hex.
    + destruct (IH w') as (tried & rest' & Hc & Ht & Hf & Hs).
      exists (c :: tried), rest'. repeat split.
      * rewrite Hc. reflexivity.
      * rewrite Ht, Hex, <- app_assoc. reflexivity.
      * exact Hf.
      * discriminate.
Qed.

(** C7: scheme selection is the search for the first accepted candidate in
    preference order: every Negotiate candidate before any Digest one, every
    Digest candidate before any Basic one.  The challenges examined are an
    initial part of that order, all of it when none is accepted;
    [can_handle] ends up true exactly when one was accepted; and the
    post-send hook that runs the selection returns [NE_RETRY] when one was
    accepted and the class's failure code, with [can_handle] false, when
    none was. *)
Theorem C7_scheme_selection (env : auth_env) (w : world)
  (challenges : list Chall.t) :
  let candidates := preference_order env challenges in
  let ok := fst (first_accepted env candidates w) in
  let w' := snd (first_accepted env candidates w) in
  select_challenge env w challenges
  = (if ok then 0 else 1, with_sess (set_can_handle ok) w')
  /\ can_handle (w_sess (snd (select_challenge env w challenges))) = ok
  /\ (exists tried rest,
         candidates = (tried ++ rest)%list
         /\ examined (w_log w') = (examined (w_log w) ++ tried)%list
         /\ (ok = false -> rest = [])
         /\ (ok = true -> tried <> []))
  /\ (forall req hdr code,
         auth_hdr req = Some hdr ->
         auth_info_hdr req = None ->
         code = status_code (spec (w_sess w)) ->
         parse_challenges env (S (String.length hdr)) hdr VUninit []
         = Some challenges ->
         exists w'',
           ah_post_send env w (Some req) code
           = Some (if ok then NE_RETRY else fail_code (spec (w_sess w)),
                   Some (capture_headers None None req), w'')
           /\ can_handle (w_sess w'') = ok).
Proof.
  intros candidates ok w'.
  assert (Hsel : select_challenge env w challenges
                 = (if ok then 0 else 1, with_sess (set_can_handle ok) w')).
  { rewrite select_challenge_first_accepted. subst ok w' candidates.
    destruct (first_accepted env (preference_order env challenges) w).
    reflexivity. }
  split; [exact Hsel|]. split; [rewrite Hsel; reflexivity|].
  split; [apply first_accepted_examined|].
  intros req hdr code Hhdr Hinfo Hcode Hparse.
  unfold ah_post_send, post_send_challenge, auth_challenge.
  rewrite Hinfo, Hhdr, Hcode, Z.eqb_refl, Hparse.
  destruct challenges as [|c next].
  - subst ok w' candidates.
    replace (preference_order env []) with (@nil Chall.t)
      by (unfold preference_order; destruct (HAVE_GSSAPI env); reflexivity).
    cbn. eexists. split; reflexivity.
  - rewrite Hsel.
    pose proof (first_accepted_spec env candidates w) as Hspec.
    fold w' in Hspec.
    destruct ok.
    + cbn. eexists. split; reflexivity.
    + cbn. rewrite Hspec. eexists. split; reflexivity.
Qed.

(** ** The order of the parsed challenges *)

Lemma update_last_snoc f l c :
  update_last f (l ++ [c])%list = (l ++ [f c])%list.
Proof.
  induction l as [|a l IH]; [reflexivity|].
  cbn [app update_last]. rewrite IH.
  destruct (l ++ [c])%list eqn:E; [|reflexivity].
  destruct l; discriminate.
Qed.

Lemma rev_update_last f l :
  rev (update_last f l)
  = match rev l with
    | [] => []
    | c :: next => f c :: next
    end.
Proof.
  destruct (rev l) as [|c next] eqn:E.
  - apply (f_equal (@rev _)) in E. rewrite rev_involutive in E.
    subst l. reflexivity.
  - apply (f_equal (@rev _)) in E. rewrite rev_involutive in E.
    subst l. cbn [rev]. rewrite update_last_snoc, rev_app_distr.
    cbn. rewrite rev_involutive. reflexivity.
Qed.

Lemma parse_in_order_S env fuel pnt val order :
  parse_in_order env (S fuel) pnt val order =
  match tokenize pnt true with
  | TokEnd | TokErr => Some order
  | Tok key v rest =>
      match store_value val v with
      | VUninit => None
      | VNull =>
          match key with
          | None => None
          | Some k =>
              match scheme_of_token env k with
              | Some sch =>
                  parse_in_order env fuel rest VNull
                    (order ++ [Chall.fresh sch])%list
              | None => Some []
              end
          end
      | VStr s =>
          match order with
          | [] => parse_in_order env fuel rest (VStr s) []
          | _ =>
              let val' := ne_shave s (String dquote (String squote "")) in
              match key with
              | None => None
              | Some k =>
                  parse_in_order env fuel rest (VStr val')
                    (update_last (challenge_pair k val') order)
              end
          end
      end
  end.
Proof. reflexivity. Qed.

(** The list that [auth_challenge] builds is the list in insertion order,
    reversed. *)
Lemma parse_challenges_rev env :
  forall fuel pnt val order,
    parse_challenges env fuel pnt val (rev order)
    = option_map (@rev Chall.t) (parse_in_order env fuel pnt val order).
Proof.
  induction fuel as [|fuel IH]; intros pnt val order; [reflexivity|].
  rewrite parse_challenges_S, parse_in_order_S.
  destruct (tokenize pnt true) as [| |key v rest]; try reflexivity.
  destruct (store_value val v) as [| |s]; try reflexivity.
  - destruct key as [k|]; [|reflexivity].
    destruct (scheme_of_token env k) as [sch|]; [|reflexivity].
    rewrite <- IH, rev_app_distr. reflexivity.
  - destruct order as [|c0 order0] eqn:Eo.
    + cbn [rev]. apply (IH rest (VStr s) []).
    + rewrite <- Eo.
      assert (Hne : exists chall next, rev order = chall :: next).
      { destruct (rev order) as [|chall next] eqn:E.
        - apply (f_equal (@rev _)) in E. rewrite rev_involutive in E.
          subst order. discriminate.
        - eauto. }
      destruct Hne as (chall & next & Hrev). rewrite Hrev.
      destruct key as [k|]; [|subst order; reflexivity].
      cbn zeta.
      replace
        (challenge_pair k (ne_shave s (String dquote (String squote "")))
           chall :: next)
        with (rev (update_last
                     (challenge_pair k
                        (ne_shave s (String dquote (String squote ""))))
                     order))
        by (rewrite rev_update_last, Hrev; reflexivity).
      rewrite IH. subst order. reflexivity.
Qed.

Lemma first_accepted_log env :
  forall candidates w,
    exists more,
      w_log (snd (first_accepted env candidates w)) = (w_log w ++ more)%list.
Proof.
  induction candidates as [|c rest IH]; intros w.
  - exists []. cbn. rewrite app_nil_r. reflexivity.
  - cbn [first_accepted].
    destruct (examine_scheme_log env (Chall.scheme c)
                (record_event (EvExamine c) w) c) as (more & Hlog & _).
    destruct (examine_scheme env (Chall.scheme c)
                (record_event (EvExamine c) w) c) as [r w'].
    cbn [snd record_event w_log] in Hlog.
    destruct (r =? 0).
    + exists (EvExamine c :: more). cbn [snd]. rewrite Hlog, <- app_assoc.
      reflexivity.
    + destruct (IH w') as (more' & Hm).
      exists (EvExamine c :: more ++ more')%list.
      rewrite Hm, Hlog, <- !app_assoc. reflexivity.
Qed.

Lemma first_accepted_head_log env c rest w :
  exists more,
    w_log (snd (first_accepted env (c :: rest) w))
    = (w_log w ++ EvExamine c :: more)%list.
Proof.
  cbn [first_accepted].
  destruct (examine_scheme_log env (Chall.scheme c)
              (record_event (EvExamine c) w) c) as (more & Hlog & _).
  destruct (examine_scheme env (Chall.scheme c)
              (record_event (EvExamine c) w) c) as [r w'].
  cbn [snd record_event w_log] in Hlog.
  destruct (r =? 0).
  - exists more. cbn [snd]. rewrite Hlog, <- app_assoc. reflexivity.
  - destruct (first_accepted_log env rest w') as (more' & Hm).
    exists (more ++ more')%list.
    rewrite Hm, Hlog, <- !app_assoc. reflexivity.
Qed.

Lemma of_scheme_app sch a b :
  of_scheme sch (a ++ b)%list = (of_scheme sch a ++ of_scheme sch b)%list.
Proof. apply filter_app. Qed.

Lemma of_scheme_rev sch l : of_scheme sch (rev l) = rev (of_scheme sch l).
Proof.
  induction l as [|c l IH]; [reflexivity|].
  cbn [rev]. rewrite of_scheme_app, IH. unfold of_scheme at 2 3.
  cbn [filter].
  destruct (auth_scheme_eqb (Chall.scheme c) sch); cbn [rev];
    [reflexivity | apply app_nil_r].
Qed.

(** C8, as the code has it: the candidate list that the challenge parser
    builds is in reverse insertion order, every new challenge being linked
    in front of the list; so among the challenges of one scheme the
    validator is first invoked on the one that appears last in the header
    value. *)
Theorem C8_reverse_insertion_order (env : auth_env) (value : string)
  (order : list Chall.t) :
  parse_in_order env (S (String.length value)) value VUninit [] = Some order ->
  parse_challenges env (S (String.length value)) value VUninit []
  = Some (rev order)
  /\ (forall sch pre c post w,
         order = (pre ++ c :: post)%list ->
         Chall.scheme c = sch ->
         of_scheme sch post = [] ->
         exists more,
           w_log
             (snd (try_challenges (examine_scheme env sch) sch (rev order) w))
           = (w_log w ++ EvExamine c :: more)%list).
Proof.
  intros Hin. split.
  - change (@nil Chall.t) with (rev (@nil Chall.t)) at 1.
    rewrite parse_challenges_rev, Hin. reflexivity.
  - intros sch pre c post w Ho Hc Hpost.
    rewrite try_challenges_first_accepted, of_scheme_rev, Ho, of_scheme_app.
    unfold of_scheme at 2. cbn [filter]. fold (of_scheme sch post).
    rewrite Hpost, Hc.
    replace (auth_scheme_eqb sch sch) with true by (destruct sch; reflexivity).
    rewrite rev_app_distr. cbn [rev app].
    apply first_accepted_head_log.
Qed.

(** ** The example of RFC 2617, section 3.5 *)

(** With [got_qop] set in the challenge, the driver computes the response
    digest of the RFC. *)
Lemma rfc2617_example_given_got_qop :
  option_map fst
    (request_digest
       (w_sess (snd (digest_challenge rfc_env rfc_world rfc_challenge_got_qop)))
       rfc_request)
  = Some rfc_credentials.
Proof. vm_compute. reflexivity. Qed.

Lemma rfc_header_parsed :
  parse_challenges rfc_env (S (String.length rfc_header)) rfc_header VUninit []
  = Some [rfc_challenge_parsed].
Proof. vm_compute. reflexivity. Qed.

(** C1: for the challenge of RFC 2617, section 3.5, the Digest driver, from
    the challenge header to [request_digest], does not emit the response
    digest 6629fae49393a05397450978507c4ef1: the parser never sets
    [got_qop], the session's qop stays [auth_qop_none], and the credentials
    carry the digest without qop, 670fd8c2df070c60b045671b8b24ff02, and no
    cnonce, nc or qop. *)
Theorem C1_rfc2617_example_without_qop :
  digest_driver rfc_env rfc_world rfc_header rfc_request
  = Some rfc_credentials_no_qop
  /\ occurs "6629fae49393a05397450978507c4ef1" rfc_credentials_no_qop = false
  /\ occurs "6629fae49393a05397450978507c4ef1" rfc_credentials = true.
Proof. vm_compute. repeat split. Qed.

(** ** The qop directive *)

Lemma set_qop_token_got_qop c raw :
  Chall.got_qop (set_qop_token c raw) = Chall.got_qop c.
Proof.
  destruct c. unfold set_qop_token.
  destruct (strcaseeq _ "auth"); [reflexivity|].
  destruct (strcaseeq _ "auth-int"); reflexivity.
Qed.

Lemma fold_set_qop_token_got_qop toks :
  forall c,
    Chall.got_qop (fold_left set_qop_token toks c) = Chall.got_qop c.
Proof.
  induction toks as [|t toks IH]; intros c; [reflexivity|].
  cbn [fold_left]. rewrite IH. apply set_qop_token_got_qop.
Qed.

Lemma challenge_pair_got_qop key val c :
  Chall.got_qop (challenge_pair key val c) = Chall.got_qop c.
Proof.
  unfold challenge_pair. destruct c as [sch r n o st gq qa qai a].
  destruct (strcaseeq key "realm"); [reflexivity|].
  destruct (strcaseeq key "nonce"); [reflexivity|].
  destruct (strcaseeq key "opaque"); [reflexivity|].
  destruct (strcaseeq key "stale"); [reflexivity|].
  destruct (strcaseeq key "algorithm"); [reflexivity|].
  destruct (strcaseeq key "qop"); [|reflexivity].
  apply fold_set_qop_token_got_qop.
Qed.

(** No header sets [got_qop]: the parser stores the tokens of a [qop]
    directive in [qop_auth] and [qop_auth_int] only. *)
Lemma parse_challenges_got_qop env :
  forall fuel pnt val challenges parsed,
    Forall (fun c => Chall.got_qop c = false) challenges ->
    parse_challenges env fuel pnt val challenges = Some parsed ->
    Forall (fun c => Chall.got_qop c = false) parsed.
Proof.
  induction fuel as [|fuel IH]; intros pnt val challenges parsed Hall Hp;
    [discriminate|].
  rewrite parse_challenges_S in Hp.
  destruct (tokenize pnt true) as [| |key v rest];
    try (injection Hp as <-; exact Hall).
  destruct (store_value val v) as [| |s]; [discriminate| |].
  - destruct key as [k|]; [|discriminate].
    destruct (scheme_of_token env k) as [sch|].
    + refine (IH _ _ _ _ _ Hp). constructor; [reflexivity|exact Hall].
    + injection Hp as <-. constructor.
  - destruct challenges as [|chall next]; [apply (IH _ _ _ _ Hall Hp)|].
    destruct key as [k|]; [|discriminate].
    cbn zeta in Hp. refine (IH _ _ _ _ _ Hp).
    inversion Hall as [|? ? Hc Hn]; subst. constructor; [|exact Hn].
    rewrite challenge_pair_got_qop. exact Hc.
Qed.

(** An accepted challenge leaves its scheme in the session, and a Digest
    challenge without [got_qop] leaves [auth_qop_none]. *)
Lemma basic_challenge_accepts w c w' :
  basic_challenge w c = (0, w') -> scheme (w_sess w') = auth_scheme_basic.
Proof.
  unfold basic_challenge, get_credentials.
  destruct (Chall.realm c); [|discriminate].
  cbn [w_sess with_sess].
  match goal with |- context [creds ?s ?r ?a ?u] =>
    destruct (creds s r a u) as [[ret user] pw] end.
  destruct (negb (ret =? 0)); [discriminate|].
  intros H. injection H as <-. reflexivity.
Qed.

Lemma gssapi_challenge_accepts env w c w' :
  gssapi_challenge env w c = (0, w') ->
  scheme (w_sess w') = auth_scheme_gssapi.
Proof.
  unfold gssapi_challenge.
  destruct (gss_init_sec_context env _) as [tok|]; [|discriminate].
  destruct (String.length tok =? 0)%nat; [discriminate|].
  intros H. injection H as <-. reflexivity.
Qed.

Lemma digest_challenge_accepts env w c w' :
  digest_challenge env w c = (0, w') ->
  scheme (w_sess w') = auth_scheme_digest
  /\ (Chall.got_qop c = false -> qop (w_sess w') = auth_qop_none).
Proof.
  unfold digest_challenge, get_credentials, get_cnonce.
  destruct (digest_invalid c); [discriminate|].
  destruct (Chall.stale c).
  - cbn [negb Z.eqb]. intros H. apply (f_equal snd) in H.
    cbn [snd] in H. subst w'. cbn [w_sess with_sess].
    rewrite install_h_a1_scheme, install_h_a1_qop, install_challenge_scheme,
      install_challenge_qop.
    split; [reflexivity|]. intros ->. reflexivity.
  - cbn [w_sess with_sess].
    match goal with |- context [creds ?s ?r ?a ?u] =>
      destruct (creds s r a u) as [[ret user] pw] end.
    destruct (negb (ret =? 0)); [discriminate|].
    intros H. apply (f_equal snd) in H.
    cbn [snd] in H. subst w'. cbn [w_sess with_sess].
    rewrite install_h_a1_scheme, install_h_a1_qop, install_challenge_scheme,
      install_challenge_qop.
    split; [reflexivity|]. intros ->. reflexivity.
Qed.

Lemma examine_scheme_accepts env w c w' :
  examine_scheme env (Chall.scheme c) w c = (0, w') ->
  scheme (w_sess w') = Chall.scheme c
  /\ (Chall.scheme c = auth_scheme_digest ->
      Chall.got_qop c = false ->
      qop (w_sess w') = auth_qop_none).
Proof.
  destruct (Chall.scheme c) eqn:Hsch; cbn [examine_scheme]; intros H.
  - apply basic_challenge_accepts in H. split; [exact H|discriminate].
  - apply digest_challenge_accepts in H. destruct H as [Hs Hq].
    split; [exact Hs|]. intros _. exact Hq.
  - apply gssapi_challenge_accepts in H. split; [exact H|discriminate].
Qed.

Lemma first_accepted_qop env :
  forall candidates w w',
    Forall (fun c => Chall.got_qop c = false) candidates ->
    first_accepted env candidates w = (true, w') ->
    scheme (w_sess w') = auth_scheme_digest ->
    qop (w_sess w') = auth_qop_none.
Proof.
  induction candidates as [|c rest IH]; intros w w' Hall Hacc Hsch;
    [discriminate|].
  cbn [first_accepted] in Hacc.
  inversion Hall as [|? ? Hc Hrest]; subst.
  destruct (examine_scheme env (Chall.scheme c)
              (record_event (EvExamine c) w) c) as [r w1] eqn:Hex.
  destruct (r =? 0) eqn:Hr.
  - injection Hacc as <-. apply Z.eqb_eq in Hr. subst r.
    apply examine_scheme_accepts in Hex. destruct Hex as [Hs Hq].
    apply Hq; [congruence | exact Hc].
  - apply (IH w1 w' Hrest Hacc Hsch).
Qed.

Lemma Forall_of_scheme (P : Chall.t -> Prop) sch l :
  Forall P l -> Forall P (of_scheme sch l).
Proof.
  intros H. unfold of_scheme. rewrite Forall_forall in *.
  intros x Hx. apply filter_In in Hx. apply H, Hx.
Qed.

(** Whatever the header offers, a session that ends up on Digest after
    [auth_challenge] has qop [auth_qop_none]. *)
Lemma auth_challenge_qop_none env w value w' :
  auth_challenge env w value = Some (0, w') ->
  scheme (w_sess w') = auth_scheme_digest ->
  qop (w_sess w') = auth_qop_none.
Proof.
  unfold auth_challenge.
  destruct (parse_challenges env (S (String.length value)) value VUninit [])
    as [parsed|] eqn:Hp; [|discriminate].
  apply parse_challenges_got_qop in Hp; [|constructor].
  destruct parsed as [|c next]; [discriminate|].
  rewrite select_challenge_first_accepted.
  destruct (first_accepted env (preference_order env (c :: next)) w)
    as [ok w1] eqn:Hacc.
  destruct ok; [|discriminate].
  intros H. injection H as <-.
  cbn [w_sess with_sess]. intros Hsch.
  change (scheme (w_sess w1) = auth_scheme_digest) in Hsch.
  change (qop (w_sess w1) = auth_qop_none).
  apply (first_accepted_qop env (preference_order env (c :: next)) w w1);
    [|exact Hacc|exact Hsch].
  unfold preference_order.
  apply Forall_app; split.
  - destruct (HAVE_GSSAPI env); [apply Forall_of_scheme; exact Hp|].
    constructor.
  - apply Forall_app; split; apply Forall_of_scheme; exact Hp.
Qed.

(** C2: the qop of the session after an accepted Digest challenge does not
    follow the challenge's qop directive.  For the challenge of the RFC,
    which offers [auth], and for the same challenge offering [auth] and
    [auth-int], challenge processing accepts the challenge and leaves
    [auth_qop_none], as it does for a challenge without a qop directive:
    the parser records the tokens offered but never sets [got_qop]. *)
Theorem C2_qop_directive_ignored :
  option_map
    (fun '(r, w) => (r, scheme (w_sess w), qop (w_sess w)))
    (auth_challenge rfc_env rfc_world rfc_header)
  = Some (0, auth_scheme_digest, auth_qop_none)
  /\ option_map
       (fun '(r, w) => (r, scheme (w_sess w), qop (w_sess w)))
       (auth_challenge rfc_env rfc_world rfc_header_auth_int)
     = Some (0, auth_scheme_digest, auth_qop_none)
  /\ option_map (map Chall.qop_auth)
       (parse_challenges rfc_env (S (String.length rfc_header)) rfc_header
          VUninit [])
     = Some [true]
  /\ option_map (map Chall.qop_auth_int)
       (parse_challenges rfc_env (S (String.length rfc_header_auth_int))
          rfc_header_auth_int VUninit [])
     = Some [true].
Proof. vm_compute. repeat split. Qed.

(** ** The nonce count and a next nonce *)

Lemma verify_response_parsed req s value i :
  will_handle req = true ->
  scheme s = auth_scheme_digest ->
  parse_auth_info (S (String.length value)) value VUninit auth_info_init
  = Some i ->
  verify_response req s value
  = match check_auth_info req s i with
    | None => None
    | Some (okay, s1) =>
        Some (okay,
              match ai_nextnonce i with
              | Some nextnonce => set_nonce (Some nextnonce) s1
              | None => s1
              end)
    end.
Proof.
  intros Hw Hs Hp. unfold verify_response. rewrite Hw, Hs, Hp. reflexivity.
Qed.

Lemma check_auth_info_session req s i okay s1 :
  check_auth_info req s i = Some (okay, s1) ->
  s1 = s \/ exists stored, s1 = set_stored_rdig stored s.
Proof.
  unfold check_auth_info.
  destruct (negb (qop_is_none (ai_qop i)) && negb (is_none (ai_qop_value i)));
    [|intros H; injection H as _ <-; left; reflexivity].
  destruct (ai_rspauth i), (ai_cnonce i), (ai_nc i);
    try (intros H; injection H as _ <-; left; reflexivity).
  destruct (cnonce s); [|discriminate].
  destruct (negb (streq _ _));
    [intros H; injection H as _ <-; left; reflexivity|].
  destruct (ai_nonce_count i); [|discriminate].
  destruct (negb (_ =? _));
    [intros H; injection H as _ <-; left; reflexivity|].
  destruct (response_digest req s i) as [[d stored]|]; [|discriminate].
  intros H; injection H as _ <-. right. eexists. reflexivity.
Qed.

(** Whatever the info header holds, verification leaves the nonce count of
    the session as it was; a [nextnonce] replaces the nonce only. *)
Lemma verify_response_nonce_count req s value okay s' :
  verify_response req s value = Some (okay, s') ->
  nonce_count s' = nonce_count s.
Proof.
  unfold verify_response.
  destruct (negb (will_handle req)); [intros H; injection H as _ <-; easy|].
  destruct (negb (auth_scheme_eqb _ _));
    [intros H; injection H as _ <-; easy|].
  destruct (parse_auth_info _ _ _ _) as [i|]; [|discriminate].
  destruct (check_auth_info req s i) as [[ok s1]|] eqn:Hc; [|discriminate].
  intros H; injection H as _ <-.
  apply check_auth_info_session in Hc.
  destruct Hc as [-> | [stored ->]]; destruct (ai_nextnonce i); reflexivity.
Qed.

(** C4: a [nextnonce] in the info header replaces the session's nonce, and
    no run of [verify_response] writes the nonce count.  On the session
    that the challenge of the RFC has made ready, which offers [qop=auth],
    after one request the header is accepted, the next nonce is installed
    and the count is 0 as before; but the session has no qop, so the
    request that follows carries no nc at all, where nc=00000001 is
    due. *)
Theorem C4_nextnonce_without_nc :
  (forall req s value okay s',
      verify_response req s value = Some (okay, s') ->
      nonce_count s' = nonce_count s)
  /\ let '(req, line, w) := ready_emitted in
     occurs ("qop=" ++ quoted "auth") rfc_header = true
     /\ will_handle req = true
     /\ occurs "nc=" line = false
     /\ match
          ah_post_send rfc_env w
            (Some (capture_headers None (Some nextnonce_header) req)) 200
        with
        | Some (code, _, w') =>
            code = NE_OK
            /\ nonce (w_sess w') = Some "f00dface"
            /\ nonce_count (w_sess w') = 0
            /\ qop (w_sess w') = auth_qop_none
            /\ match request_digest (w_sess w') rfc_request with
               | Some (hdr, _) =>
                   occurs ("nonce=" ++ quoted "f00dface") hdr = true
                   /\ occurs "nc=" hdr = false
               | None => False
               end
        | None => False
        end.
Proof.
  split; [exact verify_response_nonce_count|].
  vm_compute. repeat split.
Qed.

(** ** A stale challenge *)

(** A stale challenge that passes the validation is accepted without a call of
    the credentials callback: user name, H(A1) and attempt count stay, the
    nonce is the new one. *)
Lemma digest_challenge_stale env w parms :
  digest_invalid parms = false ->
  Chall.stale parms = true ->
  let w' := snd (digest_challenge env w parms) in
  fst (digest_challenge env w parms) = 0
  /\ w_log w' = w_log w
  /\ h_a1 (w_sess w') = h_a1 (w_sess w)
  /\ username (w_sess w') = username (w_sess w)
  /\ nonce (w_sess w') = Chall.nonce parms.
Proof.
  intros Hvalid Hstale. unfold digest_challenge, get_cnonce.
  rewrite Hvalid, Hstale. cbn [negb Z.eqb fst snd w_sess w_log with_sess].
  rewrite (install_h_a1_stale parms "" _ Hstale).
  rewrite install_challenge_h_a1, install_challenge_username,
    install_challenge_nonce.
  repeat split.
Qed.

(** A challenge that is not stale and passes the validation asks for
    credentials, once, and when the callback returns zero H(A1) is derived
    from what it gave. *)
Lemma digest_challenge_fresh env w parms :
  digest_invalid parms = false ->
  Chall.stale parms = false ->
  let s := w_sess w in
  let w' := snd (digest_challenge env w parms) in
  w_log w' = (w_log w ++ [EvCreds (Chall.realm parms) (attempt s)])%list
  /\ (forall user password,
         creds s (Chall.realm parms) (attempt s) (username s)
         = (0, user, password) ->
         fst (digest_challenge env w parms) = 0
         /\ username (w_sess w') = user
         /\ exists s1,
             h_a1 (w_sess w') = calc_h_a1 s1 password
             /\ username s1 = user
             /\ realm s1 = Chall.realm parms
             /\ nonce s1 = Chall.nonce parms
             /\ alg s1 = Chall.alg parms).
Proof.
  intros Hvalid Hstale s w'. subst s w'.
  unfold digest_challenge, get_credentials, get_cnonce.
  rewrite Hvalid, Hstale.
  cbn [w_sess with_sess clean_session attempt username creds realm
       set_realm set_can_handle set_basic set_nonce set_cnonce set_opaque
       set_gssapi_token].
  destruct (creds (w_sess w) (Chall.realm parms) (attempt (w_sess w))
              (username (w_sess w))) as [[ret user] pw].
  split.
  - destruct (negb (ret =? 0)); reflexivity.
  - intros user0 password0 H. injection H as -> -> ->.
    cbn [negb Z.eqb fst snd w_sess w_log with_sess record_event].
    unfold install_h_a1. rewrite Hstale. cbn [negb].
    split; [reflexivity|]. split.
    + cbn [username set_h_a1]. rewrite install_challenge_username.
      reflexivity.
    + eexists. split; [reflexivity|].
      unfold install_challenge, install_qop, install_opaque.
      destruct (Chall.got_qop parms), (Chall.opaque parms);
        repeat split.
Qed.

(** C5: after a stale challenge under the class's status code the hook
    returns [NE_RETRY] without a call of the credentials callback, H(A1)
    stays and the new nonce is installed; but the challenge's qop directive
    is lost, so the request that follows carries no nc at all, where
    nc=00000001 is due. *)
Theorem C5_stale_replay_without_nc :
  let '(req, line, w) := ready_emitted in
  can_handle (w_sess w) = true
  /\ asked (w_log w) = [(Some rfc_realm, 0)]
  /\ match
       ah_post_send rfc_env w
         (Some (capture_headers (Some stale_header) None req)) 401
     with
     | Some (code, _, w') =>
         code = NE_RETRY
         /\ asked (w_log w') = [(Some rfc_realm, 0)]
         /\ h_a1 (w_sess w') = h_a1 (w_sess w)
         /\ nonce (w_sess w') = Some "4ef1c0ffee"
         /\ qop (w_sess w') = auth_qop_none
         /\ match request_digest (w_sess w') rfc_request with
            | Some (hdr, _) =>
                occurs ("nonce=" ++ quoted "4ef1c0ffee") hdr = true
                /\ occurs "nc=" hdr = false
            | None => False
            end
     | None => False
     end.
Proof. vm_compute. repeat split. Qed.

(** ** Verification of the info header *)


(** A header that names a qop came with a qop value. *)
Lemma parse_auth_info_qop_value value i :
  parse_auth_info (S (String.length value)) value VUninit auth_info_init
  = Some i ->
  ai_qop i <> auth_qop_none ->
  negb (qop_is_none (ai_qop i)) && negb (is_none (ai_qop_value i)) = true.
Proof.
  intros Hparse Hqop.
  assert (Hinv : forall fuel pnt val j k,
             (qop_is_none (ai_qop j) = false ->
              is_none (ai_qop_value j) = false) ->
             parse_auth_info fuel pnt val j = Some k ->
             qop_is_none (ai_qop k) = false ->
             is_none (ai_qop_value k) = false).
  { induction fuel as [|fuel IH]; intros pnt val j k Hj Hp;
      [discriminate|].
    rewrite parse_auth_info_S in Hp.
    destruct (tokenize pnt false) as [| |key v rest];
      try (injection Hp as <-; exact Hj).
    destruct (store_value val v) as [| |sv]; try discriminate.
    destruct key as [ky|]; [|discriminate].
    cbn zeta in Hp. refine (IH _ _ _ _ _ Hp).
    unfold info_pair. destruct j as [q qv nn ra cn nc ncount].
    destruct (strcaseeq ky "qop"); [reflexivity|].
    destruct (strcaseeq ky "nextnonce"); [exact Hj|].
    destruct (strcaseeq ky "rspauth"); [exact Hj|].
    destruct (strcaseeq ky "cnonce"); [exact Hj|].
    destruct (strcaseeq ky "nc"); exact Hj. }
  assert (Hq : qop_is_none (ai_qop i) = false)
    by (destruct (ai_qop i); [contradiction Hqop|..]; reflexivity).
  assert (Hinit : qop_is_none (ai_qop auth_info_init) = false ->
                  is_none (ai_qop_value auth_info_init) = false)
    by discriminate.
  rewrite Hq, (Hinv _ _ _ _ _ Hinit Hparse Hq).
  reflexivity.
Qed.







(** ** The statements at concrete inputs *)


Lemma C6_digest_validation_witness :
  digest_challenge rfc_env rfc_world (Chall.fresh auth_scheme_digest)
  = (-1, rfc_world)
  /\ fst (digest_challenge rfc_env rfc_world rfc_challenge_parsed) = 0.
Proof.
  split.
  - apply (proj1 (C6_digest_validation rfc_env rfc_world
                    (Chall.fresh auth_scheme_digest))).
    left. reflexivity.
  - apply (proj2 (C6_digest_validation rfc_env rfc_world
                    rfc_challenge_parsed)).
    + intros [H | [H | [H | [H _]]]]; discriminate H.
    + right. reflexivity.
Defined.

Lemma C7_scheme_selection_witness :
  exists w'',
    ah_post_send rfc_env rfc_world (Some challenged_request) 401
    = Some (NE_RETRY, Some (capture_headers None None challenged_request),
            w'')
    /\ can_handle (w_sess w'') = true.
Proof.
  exact
    (proj2
       (proj2
          (proj2
             (C7_scheme_selection rfc_env rfc_world [rfc_challenge_parsed])))
       challenged_request rfc_header 401 eq_refl eq_refl eq_refl
       rfc_header_parsed).
Defined.

Lemma C8_reverse_insertion_order_witness :
  parse_challenges rfc_env (S (String.length two_digest_header))
    two_digest_header VUninit []
  = Some [second_challenge; first_challenge].
Proof.
  apply (proj1 (C8_reverse_insertion_order rfc_env two_digest_header
                  [first_challenge; second_challenge]
                  ltac:(vm_compute; reflexivity))).
Defined.

(** The header names the challenge of realm [first] before that of realm
    [second]; the list built has [second] in front, and [second] is the
    challenge examined first. *)
Lemma C8_insertion_order_counterexample :
  parse_challenges rfc_env (S (String.length two_digest_header))
    two_digest_header VUninit []
  = Some [second_challenge; first_challenge]
  /\ parse_challenges rfc_env (S (String.length two_digest_header))
       two_digest_header VUninit []
     <> Some [first_challenge; second_challenge]
  /\ option_map (fun r => examined (w_log (snd r)))
       (auth_challenge rfc_env refusing_world two_digest_header)
     = Some [second_challenge; first_challenge].
Proof.
  split; [vm_compute; reflexivity|].
  split; [vm_compute; discriminate|].
  vm_compute. reflexivity.
Qed.

Lemma C10_info_header_scheme_witness :
  verify_response basic_request (w_sess rfc_world) rspauth_only_header
  = Some (-1, w_sess rfc_world).
Proof.
  apply (proj1 (C10_info_header_scheme rfc_env rfc_world basic_request
                  rspauth_only_header 200 eq_refl)).
  - reflexivity.
  - discriminate.
Defined.

(** * Further properties of the code *)

(** ** Strings *)

Lemma append_nil_r (s : string) : s ++ "" = s.
Proof. induction s as [|c s IH]; cbn; [reflexivity|]. rewrite IH. reflexivity. Qed.

Lemma append_assoc (a b c : string) : (a ++ b) ++ c = a ++ (b ++ c).
Proof. induction a as [|x a IH]; cbn; [reflexivity|]. rewrite IH. reflexivity. Qed.

Lemma length_append (a b : string) :
  String.length (a ++ b) = (String.length a + String.length b)%nat.
Proof. induction a as [|x a IH]; cbn; [reflexivity|]. rewrite IH. reflexivity. Qed.

Lemma strchr_append set1 set2 c :
  strchr (set1 ++ set2) c = strchr set1 c || strchr set2 c.
Proof.
  induction set1 as [|d s IH]; cbn; [reflexivity|].
  rewrite IH. apply orb_assoc.
Qed.

(** ** One call of the tokenizer *)

(** Leading blanks are skipped. *)
Lemma tokenize_loop_blanks ischall lead :
  forall tail,
    all_in key_blanks lead = true ->
    tokenize_loop ischall (BEFORE_EQ None) (lead ++ tail)
    = tokenize_loop ischall (BEFORE_EQ None) tail.
Proof.
  induction lead as [|c lead IH]; intros tail H; [reflexivity|].
  cbn [all_in] in H. apply andb_prop in H. destruct H as [Hc Hl].
  cbn [append tokenize_loop].
  assert (Hne : Ascii.eqb c "=" = false).
  { destruct (Ascii.eqb_spec c "="%char) as [->|]; [discriminate Hc|easy]. }
  rewrite Hne, Hc. apply IH, Hl.
Qed.

(** The characters of a key are gathered up to the [=]. *)
Lemma tokenize_loop_key ischall key :
  forall acc tail,
    strchr key "="%char = false ->
    (ischall && strchr key " "%char) = false ->
    tokenize_loop ischall (BEFORE_EQ (Some acc)) (key ++ String "=" tail)
    = tokenize_loop ischall (AFTER_EQ (acc ++ key) "") tail.
Proof.
  induction key as [|c key IH]; intros acc tail Heq Hsp.
  - cbn. rewrite append_nil_r. reflexivity.
  - cbn [strchr] in Heq, Hsp.
    apply orb_false_elim in Heq. destruct Heq as [Hc Hk].
    assert (Hc' : Ascii.eqb c "=" = false)
      by (rewrite Ascii.eqb_sym; exact Hc).
    assert (Hsp1 : (Ascii.eqb c " " && ischall) = false).
    { destruct ischall; [|apply andb_false_r].
      cbn [andb] in Hsp. apply orb_false_elim in Hsp.
      destruct Hsp as [Hs _].
      rewrite Ascii.eqb_sym, Hs. reflexivity. }
    assert (Hsp2 : (ischall && strchr key " "%char) = false).
    { destruct ischall; [|reflexivity]. cbn [andb] in Hsp |- *.
      apply orb_false_elim in Hsp. apply Hsp. }
    cbn [append tokenize_loop]. rewrite Hc', Hsp1.
    rewrite (IH _ _ Hk Hsp2). unfold snoc. rewrite append_assoc. reflexivity.
Qed.

(** A value runs on over anything but a comma or a quote, and over a quoted
    stretch whatever it holds but a quote. *)
Lemma tokenize_loop_plain ischall key v :
  forall acc tail,
    strchr v ","%char = false ->
    strchr v dquote = false ->
    tokenize_loop ischall (AFTER_EQ key acc) (v ++ tail)
    = tokenize_loop ischall (AFTER_EQ key (acc ++ v)) tail.
Proof.
  induction v as [|c v IH]; intros acc tail Hcomma Hquote.
  - cbn. rewrite append_nil_r. reflexivity.
  - cbn [strchr] in Hcomma, Hquote.
    apply orb_false_elim in Hcomma. destruct Hcomma as [Hc1 Hv1].
    apply orb_false_elim in Hquote. destruct Hquote as [Hc2 Hv2].
    cbn [append tokenize_loop].
    rewrite (Ascii.eqb_sym c ","%char), Hc1, (Ascii.eqb_sym c dquote), Hc2.
    rewrite (IH _ _ Hv1 Hv2). unfold snoc. rewrite append_assoc. reflexivity.
Qed.

Lemma tokenize_loop_in_quotes ischall key v :
  forall acc tail,
    strchr v dquote = false ->
    tokenize_loop ischall (AFTER_EQ_QUOTED key acc) (v ++ String dquote tail)
    = tokenize_loop ischall (AFTER_EQ key (acc ++ v ++ String dquote "")) tail.
Proof.
  induction v as [|c v IH]; intros acc tail Hquote.
  - cbn [append tokenize_loop]. rewrite Ascii.eqb_refl. reflexivity.
  - cbn [strchr] in Hquote.
    apply orb_false_elim in Hquote. destruct Hquote as [Hc Hv].
    cbn [append tokenize_loop]. rewrite (Ascii.eqb_sym c dquote), Hc.
    rewrite (IH _ _ Hv). unfold snoc. rewrite append_assoc. reflexivity.
Qed.

Lemma tokenize_loop_quoted ischall key v acc tail :
  strchr v dquote = false ->
  tokenize_loop ischall (AFTER_EQ key acc) (quoted v ++ tail)
  = tokenize_loop ischall (AFTER_EQ key (acc ++ quoted v)) tail.
Proof.
  intros Hquote. unfold quoted. cbn [append tokenize_loop].
  change (Ascii.eqb dquote ","%char) with false.
  rewrite Ascii.eqb_refl. rewrite append_assoc. cbn [append].
  rewrite (tokenize_loop_in_quotes ischall key v _ tail Hquote).
  unfold snoc. rewrite append_assoc. reflexivity.
Qed.

(** From the start of a pair to its [=]. *)
Lemma tokenize_loop_to_value ischall lead key tail :
  all_in key_blanks lead = true ->
  clean_key ischall key = true ->
  tokenize_loop ischall (BEFORE_EQ None) (lead ++ key ++ String "=" tail)
  = tokenize_loop ischall (AFTER_EQ key "") tail.
Proof.
  intros Hlead Hkey. rewrite (tokenize_loop_blanks _ _ _ Hlead).
  unfold clean_key in Hkey.
  destruct key as [|c key]; [rewrite andb_false_r in Hkey; discriminate|].
  rewrite andb_true_r in Hkey.
  apply andb_prop in Hkey. destruct Hkey as [Hkey Hsp].
  apply andb_prop in Hkey. destruct Hkey as [Hb Heq].
  apply negb_true_iff in Hb, Heq, Hsp.
  cbn [begins_in] in Hb. cbn [strchr] in Heq.
  apply orb_false_elim in Heq. destruct Heq as [Hc Hk].
  cbn [append tokenize_loop].
  rewrite (Ascii.eqb_sym c "="%char), Hc, Hb.
  apply (tokenize_loop_key ischall key (String c "") tail Hk).
  destruct ischall; [|reflexivity]. cbn [andb strchr] in Hsp |- *.
  apply orb_false_elim in Hsp. apply Hsp.
Qed.

Lemma tokenize_nonempty ischall lead key tail :
  clean_key ischall key = true ->
  tokenize (lead ++ key ++ tail) ischall
  = tokenize_loop ischall (BEFORE_EQ None) (lead ++ key ++ tail).
Proof.
  intros Hkey. destruct key as [|c key].
  - unfold clean_key in Hkey. rewrite andb_false_r in Hkey. discriminate.
  - destruct lead; reflexivity.
Qed.

Lemma shave_leading_fixed set s :
  begins_in set s = false -> shave_leading set s = s.
Proof. destruct s as [|c s]; cbn; [reflexivity|]. intros ->. reflexivity. Qed.

Lemma shave_trailing_fixed set s :
  ends_in set s = false -> shave_trailing set s = s.
Proof.
  induction s as [|c s IH]; [reflexivity|]. cbn [ends_in shave_trailing].
  destruct s as [|d s].
  - cbn. intros ->. reflexivity.
  - intros H. rewrite (IH H). reflexivity.
Qed.

Lemma shave_trailing_last set s c :
  strchr set c = true ->
  shave_trailing set (s ++ String c "") = shave_trailing set s.
Proof.
  intros Hc. induction s as [|d s IH]; cbn [append shave_trailing].
  - cbn. rewrite Hc. reflexivity.
  - rewrite IH. reflexivity.
Qed.

(** Shaving takes the quotes off a quoted text that neither begins nor ends
    with a character of the set shaved. *)
Lemma ne_shave_quoted set v :
  strchr set dquote = true ->
  begins_in set v = false ->
  ends_in set v = false ->
  ne_shave (quoted v) set = v.
Proof.
  intros Hq Hb He. unfold ne_shave, quoted. cbn [shave_leading]. rewrite Hq.
  destruct v as [|c v].
  - cbn. rewrite Hq. reflexivity.
  - cbn [begins_in] in Hb. cbn [append shave_leading]. rewrite Hb.
    change (String c (v ++ String dquote ""))
      with (String c v ++ String dquote "").
    rewrite (shave_trailing_last set _ _ Hq).
    apply shave_trailing_fixed, He.
Qed.

Lemma no_char_begins v c :
  strchr v c = false -> begins_in (String c "") v = false.
Proof.
  destruct v as [|d v]; [reflexivity|]. cbn [strchr begins_in].
  intros H. apply orb_false_elim in H. destruct H as [H _].
  rewrite Ascii.eqb_sym in H. rewrite H. reflexivity.
Qed.

Lemma no_char_ends v c :
  strchr v c = false -> ends_in (String c "") v = false.
Proof.
  induction v as [|d v IH]; [reflexivity|]. cbn [strchr ends_in].
  intros H. apply orb_false_elim in H. destruct H as [H1 H2].
  destruct v as [|e v].
  - cbn. rewrite Ascii.eqb_sym in H1. rewrite H1. reflexivity.
  - apply IH, H2.
Qed.

Lemma tokenize_quoted_more ischall lead key v rest :
  all_in key_blanks lead = true ->
  clean_key ischall key = true ->
  strchr v dquote = false ->
  tokenize (lead ++ key ++ "=" ++ quoted v ++ "," ++ rest) ischall
  = Tok (Some key) (ValSet (quoted v)) rest.
Proof.
  intros Hlead Hkey Hv.
  rewrite (tokenize_nonempty _ _ _ _ Hkey).
  change ("=" ++ quoted v ++ "," ++ rest)
    with (String "=" (quoted v ++ "," ++ rest)).
  rewrite (tokenize_loop_to_value _ _ _ _ Hlead Hkey).
  rewrite (tokenize_loop_quoted _ _ _ _ _ Hv). reflexivity.
Qed.

Lemma tokenize_quoted_last ischall lead key v :
  all_in key_blanks lead = true ->
  clean_key ischall key = true ->
  strchr v dquote = false ->
  tokenize (lead ++ key ++ "=" ++ quoted v) ischall
  = Tok (Some key) (ValSet (quoted v)) "".
Proof.
  intros Hlead Hkey Hv.
  rewrite (tokenize_nonempty _ _ _ _ Hkey).
  change ("=" ++ quoted v) with (String "=" (quoted v)).
  rewrite (tokenize_loop_to_value _ _ _ _ Hlead Hkey).
  pose proof (tokenize_loop_quoted ischall key v "" "" Hv) as H.
  rewrite append_nil_r in H. rewrite H. reflexivity.
Qed.

Lemma ne_shave_quoted_value v :
  strchr v dquote = false -> ne_shave (quoted v) (String dquote "") = v.
Proof.
  intros Hv. apply ne_shave_quoted; [reflexivity| |].
  - apply no_char_begins, Hv.
  - apply no_char_ends, Hv.
Qed.

(** X2: a pair [key="value"] comes back whole from one call, with what
    follows the comma left for the next call, whatever the quoted value
    holds but a quote, commas included; and shaving the quotes gives the
    value back. *)
Theorem tokenize_quoted_pair (ischall : bool) (lead key v rest : string) :
  all_in key_blanks lead = true ->
  clean_key ischall key = true ->
  strchr v dquote = false ->
  tokenize (lead ++ key ++ "=" ++ quoted v ++ "," ++ rest) ischall
  = Tok (Some key) (ValSet (quoted v)) rest
  /\ tokenize (lead ++ key ++ "=" ++ quoted v) ischall
     = Tok (Some key) (ValSet (quoted v)) ""
  /\ ne_shave (quoted v) (String dquote "") = v.
Proof.
  intros Hlead Hkey Hv. split; [|split].
  - apply tokenize_quoted_more; assumption.
  - apply tokenize_quoted_last; assumption.
  - apply ne_shave_quoted_value, Hv.
Qed.

(** What one call consumes is a part of the text that is not empty: the
    text left is what followed it. *)
Lemma tokenize_loop_suffix ischall pnt :
  forall state key value rest,
    tokenize_loop ischall state pnt = Tok key value rest ->
    exists consumed, pnt = consumed ++ rest.
Proof.
  induction pnt as [|c pnt IH]; intros state key value rest H.
  - exists "". destruct state; cbn in H; inversion H; reflexivity.
  - cbn [tokenize_loop] in H.
    assert (Hrec : forall st, tokenize_loop ischall st pnt = Tok key value rest ->
                              exists consumed, String c pnt = consumed ++ rest).
    { intros st Hst. destruct (IH _ _ _ _ Hst) as [x ->].
      exists (String c x). reflexivity. }
    destruct state as [k|k v|k v].
    + destruct (Ascii.eqb c "=").
      * destruct k; [eapply Hrec, H | discriminate].
      * destruct k.
        -- destruct (Ascii.eqb c " " && ischall).
           ++ inversion H; subst. exists (String c ""). reflexivity.
           ++ eapply Hrec, H.
        -- destruct (strchr key_blanks c); eapply Hrec, H.
    + destruct (Ascii.eqb c ",").
      * inversion H; subst. exists (String c ""). reflexivity.
      * destruct (Ascii.eqb c dquote); eapply Hrec, H.
    + destruct (Ascii.eqb c dquote); eapply Hrec, H.
Qed.

(** X1: a call of [tokenize] that returns 0 has consumed a part of the
    text that is not empty and leaves what followed it: the text left is
    strictly shorter, so the loops over [tokenize] end. *)
Theorem tokenize_consumes (hdr : string) (ischall : bool)
  (key : option string) (value : value_out) (rest : string) :
  tokenize hdr ischall = Tok key value rest ->
  (exists consumed, consumed <> "" /\ hdr = consumed ++ rest)
  /\ (String.length rest < String.length hdr)%nat.
Proof.
  intros H. pose proof (tokenize_shorter _ _ _ _ _ H) as Hlen.
  split; [|exact Hlen].
  destruct hdr as [|c pnt]; [discriminate|].
  unfold tokenize in H. apply tokenize_loop_suffix in H.
  destruct H as [consumed Hc]. exists consumed. split; [|exact Hc].
  intros ->. cbn [append] in Hc. rewrite <- Hc in Hlen. lia.
Qed.

Lemma tokenize_loop_after_eq ischall pnt :
  forall state key value rest,
    match state with BEFORE_EQ _ => False | _ => True end ->
    tokenize_loop ischall state pnt = Tok key value rest ->
    exists v, value = ValSet v.
Proof.
  induction pnt as [|c pnt IH]; intros state key value rest Hst H.
  - destruct state; [contradiction| |]; cbn in H; inversion H; eauto.
  - cbn [tokenize_loop] in H. destruct state as [k|k v|k v]; [contradiction| |].
    + destruct (Ascii.eqb c ","); [inversion H; eauto|].
      destruct (Ascii.eqb c dquote); (refine (IH _ _ _ _ _ H); exact I).
    + destruct (Ascii.eqb c dquote); (refine (IH _ _ _ _ _ H); exact I).
Qed.

Lemma tokenize_loop_pair_mode pnt :
  forall k key value rest,
    tokenize_loop false (BEFORE_EQ k) pnt = Tok key value rest ->
    value <> ValNull
    /\ (value = ValKeep <-> strchr pnt "="%char = false)
    /\ (value = ValKeep -> rest = "").
Proof.
  induction pnt as [|c pnt IH]; intros k key value rest H.
  - cbn in H. destruct k; inversion H; subst;
      (split; [discriminate|]; split; [split; reflexivity|reflexivity]).
  - cbn [tokenize_loop] in H. cbn [strchr].
    rewrite (Ascii.eqb_sym "="%char c).
    destruct (Ascii.eqb c "=") eqn:Heq.
    + destruct k as [k|]; [|discriminate].
      apply tokenize_loop_after_eq in H; [|exact I].
      destruct H as [v ->]. cbn [orb].
      split; [discriminate|]. split; [split; discriminate|discriminate].
    + cbn [orb]. rewrite andb_false_r in H.
      destruct k as [k|]; [apply (IH _ _ _ _ H)|].
      destruct (strchr key_blanks c); apply (IH _ _ _ _ H).
Qed.

Lemma tokenize_loop_challenge_mode pnt :
  forall k key value rest,
    tokenize_loop true (BEFORE_EQ k) pnt = Tok key value rest ->
    (value = ValNull -> key <> None)
    /\ (value = ValKeep ->
        k = None /\ key = None /\ rest = ""
        /\ all_in key_blanks pnt = true).
Proof.
  induction pnt as [|c pnt IH]; intros k key value rest H.
  - cbn in H. destruct k; inversion H; subst.
    + split; [discriminate|discriminate].
    + split; [discriminate|]. intros _. repeat split.
  - cbn [tokenize_loop] in H.
    destruct (Ascii.eqb c "=") eqn:Heq.
    + destruct k as [k|]; [|discriminate].
      apply tokenize_loop_after_eq in H; [|exact I].
      destruct H as [v ->]. split; discriminate.
    + destruct k as [k|].
      * destruct (Ascii.eqb c " " && true).
        -- inversion H; subst. split; [discriminate|discriminate].
        -- destruct (IH _ _ _ _ H) as [H1 H2]. split; [exact H1|].
           intros Hk. destruct (H2 Hk) as [Hn _]. discriminate Hn.
      * destruct (strchr key_blanks c) eqn:Hb.
        -- destruct (IH _ _ _ _ H) as [H1 H2]. split; [exact H1|].
           intros Hk. destruct (H2 Hk) as (_ & Hkey & Hrest & Hall).
           repeat split; try assumption. cbn [all_in]. rewrite Hb. exact Hall.
        -- destruct (IH _ _ _ _ H) as [H1 H2]. split; [exact H1|].
           intros Hk. destruct (H2 Hk) as [Hn _]. discriminate Hn.
Qed.

(** X3: what a call that returns 0 leaves in [*value].  Between pairs
    ([ischall] 0) it is never [NULL], and it is left as it was exactly when
    the text holds no [=], the text being then used up.  In a challenge
    ([ischall] 1) a [NULL] value comes with a key, and the value is left as
    it was only for a text of blanks, with a [NULL] key. *)
Theorem tokenize_value (hdr : string) (ischall : bool)
  (key : option string) (value : value_out) (rest : string) :
  tokenize hdr ischall = Tok key value rest ->
  (ischall = false ->
   value <> ValNull
   /\ (value = ValKeep <-> strchr hdr "="%char = false)
   /\ (value = ValKeep -> rest = ""))
  /\ (ischall = true ->
      (value = ValNull -> key <> None)
      /\ (value = ValKeep ->
          key = None /\ rest = "" /\ all_in key_blanks hdr = true)).
Proof.
  intros H. destruct hdr as [|c pnt]; [discriminate|]. unfold tokenize in H.
  split; intros ->.
  - apply (tokenize_loop_pair_mode _ _ _ _ _ H).
  - destruct (tokenize_loop_challenge_mode _ _ _ _ _ H) as [H1 H2].
    split; [exact H1|]. intros Hk. destruct (H2 Hk) as (_ & ? & ? & ?).
    repeat split; assumption.
Qed.

Lemma tokenize_loop_no_error ischall pnt :
  forall state,
    match state with BEFORE_EQ None => False | _ => True end ->
    tokenize_loop ischall state pnt <> TokErr.
Proof.
  induction pnt as [|c pnt IH]; intros state Hst.
  - destruct state as [[k|]|k v|k v]; try contradiction; cbn; discriminate.
  - cbn [tokenize_loop]. destruct state as [[k|]|k v|k v]; try contradiction.
    + destruct (Ascii.eqb c "="); [apply IH; exact I|].
      destruct (Ascii.eqb c " " && ischall); [discriminate|apply IH; exact I].
    + destruct (Ascii.eqb c ","); [discriminate|].
      destruct (Ascii.eqb c dquote); apply IH; exact I.
    + destruct (Ascii.eqb c dquote); apply IH; exact I.
Qed.

Lemma tokenize_loop_error ischall pnt :
  tokenize_loop ischall (BEFORE_EQ None) pnt = TokErr
  <-> begins_in "=" (shave_leading key_blanks pnt) = true.
Proof.
  induction pnt as [|c pnt IH]; [cbn; split; discriminate|].
  cbn [tokenize_loop shave_leading].
  destruct (Ascii.eqb c "=") eqn:Heq.
  - apply Ascii.eqb_eq in Heq. subst c. cbn. split; reflexivity.
  - destruct (strchr key_blanks c); [exact IH|].
    cbn [begins_in strchr]. rewrite Heq. cbn [orb]. split; [|discriminate].
    intros H. exfalso. revert H. apply tokenize_loop_no_error. exact I.
Qed.

(** X4: [tokenize] returns -1 exactly when the first character after the
    leading blanks is [=]: a pair without a key.  No error comes later in
    a call: neither an open quote nor a missing value is one. *)
Theorem tokenize_error (hdr : string) (ischall : bool) :
  tokenize hdr ischall = TokErr
  <-> begins_in "=" (shave_leading key_blanks hdr) = true.
Proof.
  destruct hdr as [|c pnt]; [cbn; split; discriminate|].
  unfold tokenize. apply tokenize_loop_error.
Qed.

(** ** Keys and scheme names whatever their case *)

Lemma strcaseeq_trans_l a b lit :
  strcaseeq a b = true -> strcaseeq a lit = strcaseeq b lit.
Proof.
  unfold strcaseeq. intros H. apply String.eqb_eq in H. rewrite H.
  reflexivity.
Qed.

(** X5: scheme names and keys are compared without regard to case: keys
    that differ in case only name the same scheme and store a value in the
    same place, in a challenge and in an info header. *)
Theorem keys_case_insensitive (env : auth_env) (k k' val : string)
  (chall : Chall.t) (i : auth_info) :
  strcaseeq k k' = true ->
  scheme_of_token env k = scheme_of_token env k'
  /\ challenge_pair k val chall = challenge_pair k' val chall
  /\ info_pair k val i = info_pair k' val i.
Proof.
  intros H.
  unfold scheme_of_token, challenge_pair, info_pair.
  rewrite !(strcaseeq_trans_l k k' _ H). repeat split.
Qed.

(** ** A challenge header read back *)

Lemma plain_value_shave v :
  plain_value v = true -> ne_shave (quoted v) quote_marks = v.
Proof.
  unfold plain_value. intros H.
  apply andb_prop in H. destruct H as [H He].
  apply andb_prop in H. destruct H as [_ Hb].
  apply negb_true_iff in Hb, He.
  apply ne_shave_quoted; [reflexivity|exact Hb|exact He].
Qed.

Lemma plain_value_no_quote v :
  plain_value v = true -> strchr v dquote = false.
Proof.
  unfold plain_value. intros H.
  apply andb_prop in H. destruct H as [H _].
  apply andb_prop in H. destruct H as [H _].
  apply negb_true_iff in H. exact H.
Qed.

Lemma parse_basic_header env r fuel :
  plain_value r = true ->
  parse_challenges env (3 + fuel) ("Basic realm=" ++ quoted r) VUninit []
  = Some [Chall.mk auth_scheme_basic (Some r) None None false false false
            false auth_alg_md5].
Proof.
  intros Hr.
  change (3 + fuel)%nat with (S (S (S fuel))).
  rewrite parse_challenges_S.
  change (tokenize ("Basic realm=" ++ quoted r) true)
    with (Tok (Some "Basic") ValNull ("realm=" ++ quoted r)).
  cbn [store_value].
  change (scheme_of_token env "Basic") with (Some auth_scheme_basic).
  cbv beta iota.
  rewrite parse_challenges_S.
  pose proof (tokenize_quoted_last true "" "realm" r
                eq_refl eq_refl (plain_value_no_quote r Hr)) as Htok.
  change ("" ++ "realm" ++ "=" ++ quoted r) with ("realm=" ++ quoted r)
    in Htok.
  rewrite Htok. cbn [store_value].
  fold quote_marks. rewrite (plain_value_shave r Hr).
  cbv beta iota zeta. rewrite parse_challenges_S. reflexivity.
Qed.

Lemma parse_digest_header env r n fuel :
  plain_value r = true ->
  plain_value n = true ->
  parse_challenges env (4 + fuel)
    ("Digest realm=" ++ quoted r ++ ", nonce=" ++ quoted n) VUninit []
  = Some [Chall.mk auth_scheme_digest (Some r) (Some n) None false false
            false false auth_alg_md5].
Proof.
  intros Hr Hn.
  change (4 + fuel)%nat with (S (S (S (S fuel)))).
  rewrite parse_challenges_S.
  change (tokenize ("Digest realm=" ++ quoted r ++ ", nonce=" ++ quoted n)
            true)
    with (Tok (Some "Digest") ValNull
            ("realm=" ++ quoted r ++ ", nonce=" ++ quoted n)).
  cbn [store_value].
  change (scheme_of_token env "Digest") with (Some auth_scheme_digest).
  cbv beta iota.
  rewrite parse_challenges_S.
  pose proof (tokenize_quoted_more true "" "realm" r (" nonce=" ++ quoted n)
                eq_refl eq_refl (plain_value_no_quote r Hr)) as Htok.
  change ("" ++ "realm" ++ "=" ++ quoted r ++ "," ++ " nonce=" ++ quoted n)
    with ("realm=" ++ quoted r ++ ", nonce=" ++ quoted n) in Htok.
  rewrite Htok. cbn [store_value].
  fold quote_marks. rewrite (plain_value_shave r Hr).
  cbv beta iota zeta. rewrite parse_challenges_S.
  pose proof (tokenize_quoted_last true " " "nonce" n
                eq_refl eq_refl (plain_value_no_quote n Hn)) as Htok2.
  change (" " ++ "nonce" ++ "=" ++ quoted n) with (" nonce=" ++ quoted n)
    in Htok2.
  rewrite Htok2. cbn [store_value].
  fold quote_marks. rewrite (plain_value_shave n Hn).
  cbv beta iota zeta. rewrite parse_challenges_S. reflexivity.
Qed.

(** X6: a challenge header written the usual way is read back as it was
    written.  For a realm and a nonce that hold no quote and neither begin
    nor end with an apostrophe, the value [Basic realm="r"] parses to one
    Basic challenge of realm [r], and [Digest realm="r", nonce="n"] to one
    Digest challenge of realm [r] and nonce [n], nothing else set. *)
Theorem parse_written_challenge (env : auth_env) (r n : string) :
  plain_value r = true ->
  plain_value n = true ->
  let basic_value := "Basic realm=" ++ quoted r in
  let digest_value := "Digest realm=" ++ quoted r ++ ", nonce=" ++ quoted n in
  parse_challenges env (S (String.length basic_value)) basic_value VUninit []
  = Some [Chall.mk auth_scheme_basic (Some r) None None false false false
            false auth_alg_md5]
  /\ parse_challenges env (S (String.length digest_value)) digest_value
       VUninit []
     = Some [Chall.mk auth_scheme_digest (Some r) (Some n) None false false
               false false auth_alg_md5].
Proof.
  intros Hr Hn basic_value digest_value. split.
  - subst basic_value. cbn [String.length append].
    apply (parse_basic_header env r _ Hr).
  - subst digest_value. cbn [String.length append].
    apply (parse_digest_header env r n _ Hr Hn).
Qed.

(** ** The nonce count on the wire *)

Ltac each_digit d H :=
  let E := fresh "E" in
  assert (E : d = 0 \/ d = 1 \/ d = 2 \/ d = 3 \/ d = 4 \/ d = 5 \/ d = 6
              \/ d = 7 \/ d = 8 \/ d = 9 \/ d = 10 \/ d = 11 \/ d = 12
              \/ d = 13 \/ d = 14 \/ d = 15) by lia;
  clear H;
  repeat (destruct E as [E | E]; [subst d|]); [..|subst d].

Lemma hex_value_digit d :
  0 <= d < 16 -> hex_value (MD5.hex_digit d) = Some d.
Proof. intros H. each_digit d H; reflexivity. Qed.

Lemma hex_digit_lower d :
  0 <= d < 16 -> strchr hex_digits (MD5.hex_digit d) = true.
Proof. intros H. each_digit d H; reflexivity. Qed.

Lemma scan_hex_digit d r acc :
  0 <= d < 16 ->
  scan_hex_digits (String (MD5.hex_digit d) r) (Some acc)
  = scan_hex_digits r (Some (16 * acc + d)).
Proof.
  intros H. cbn [scan_hex_digits]. rewrite (hex_value_digit d H).
  reflexivity.
Qed.

Lemma sscanf_hex_two_digits d1 d2 r :
  0 <= d1 < 16 -> 0 <= d2 < 16 ->
  sscanf_hex (String (MD5.hex_digit d1) (String (MD5.hex_digit d2) r))
  = match scan_hex_digits r (Some (16 * d1 + d2)) with
    | Some v =>
        Some
          ((if ULONG_MAX <? v then ULONG_MAX else v mod (ULONG_MAX + 1))
             mod 4294967296)
    | None => None
    end.
Proof.
  intros H1 H2. each_digit d1 H1; each_digit d2 H2; reflexivity.
Qed.

Lemma nc_hex_digits n :
  let b0 := n mod 256 in
  let b1 := (n / 256) mod 256 in
  let b2 := (n / 65536) mod 256 in
  let b3 := (n / 16777216) mod 256 in
  nc_hex n
  = String (MD5.hex_digit (b3 / 16)) (String (MD5.hex_digit (b3 mod 16))
      (String (MD5.hex_digit (b2 / 16)) (String (MD5.hex_digit (b2 mod 16))
         (String (MD5.hex_digit (b1 / 16)) (String (MD5.hex_digit (b1 mod 16))
            (String (MD5.hex_digit (b0 / 16))
               (String (MD5.hex_digit (b0 mod 16)) ""))))))).
Proof.
  cbv zeta. unfold nc_hex, MD5.le_bytes. cbn [seq map rev app ne_md5_to_ascii].
  change (256 ^ Z.of_nat 0) with 1. change (256 ^ Z.of_nat 1) with 256.
  change (256 ^ Z.of_nat 2) with 65536.
  change (256 ^ Z.of_nat 3) with 16777216.
  rewrite Z.div_1_r. reflexivity.
Qed.

Lemma nibble_hi b : 0 <= b mod 256 / 16 < 16.
Proof.
  pose proof (Z.mod_pos_bound b 256 ltac:(lia)).
  split; [apply Z.div_pos; lia | apply Z.div_lt_upper_bound; lia].
Qed.

Lemma nibble_lo b : 0 <= b mod 16 < 16.
Proof. apply Z.mod_pos_bound. lia. Qed.

Lemma nc_hex_all_hex n : all_in hex_digits (nc_hex n) = true.
Proof.
  rewrite nc_hex_digits. cbv zeta. cbn [all_in].
  rewrite !hex_digit_lower by (apply nibble_hi || apply nibble_lo).
  reflexivity.
Qed.

Lemma sscanf_nc_hex n :
  0 <= n < 4294967296 -> sscanf_hex (nc_hex n) = Some n.
Proof.
  intros Hn. rewrite nc_hex_digits. cbv zeta.
  rewrite sscanf_hex_two_digits by (apply nibble_hi || apply nibble_lo).
  rewrite !scan_hex_digit by (apply nibble_hi || apply nibble_lo).
  cbn [scan_hex_digits]. f_equal.
  set (b0 := n mod 256). set (b1 := (n / 256) mod 256).
  set (b2 := (n / 65536) mod 256). set (b3 := (n / 16777216) mod 256).
  assert (H0 : 16 * (b0 / 16) + b0 mod 16 = b0)
    by (symmetry; apply Z.div_mod; lia).
  assert (H1 : 16 * (b1 / 16) + b1 mod 16 = b1)
    by (symmetry; apply Z.div_mod; lia).
  assert (H2 : 16 * (b2 / 16) + b2 mod 16 = b2)
    by (symmetry; apply Z.div_mod; lia).
  assert (H3 : 16 * (b3 / 16) + b3 mod 16 = b3)
    by (symmetry; apply Z.div_mod; lia).
  assert (Hsum : b0 + 256 * b1 + 65536 * b2 + 16777216 * b3 = n).
  { subst b0 b1 b2 b3. clear H0 H1 H2 H3.
    Z.to_euclidean_division_equations. lia. }
  replace (16 * (16 * (16 * (16 * (16 * (16 * (16 * (b3 / 16) + b3 mod 16)
             + b2 / 16) + b2 mod 16) + b1 / 16) + b1 mod 16) + b0 / 16)
           + b0 mod 16) with n by lia.
  unfold ULONG_MAX.
  destruct (18446744073709551615 <? n) eqn:Hbig;
    [apply Z.ltb_lt in Hbig; lia|].
  rewrite (Z.mod_small n (18446744073709551615 + 1)) by lia.
  rewrite Z.mod_small; [reflexivity|lia].
Qed.

(** X7: the nonce count is written as eight lowercase hexadecimal digits,
    and what [verify_response] reads from such an nc with [%x] is the count
    that was written. *)
Theorem nc_round_trip (n : Z) :
  String.length (nc_hex n) = 8%nat
  /\ all_in hex_digits (nc_hex n) = true
  /\ (0 <= n < 4294967296 -> sscanf_hex (nc_hex n) = Some n).
Proof.
  split; [|split].
  - rewrite nc_hex_digits. reflexivity.
  - apply nc_hex_all_hex.
  - apply sscanf_nc_hex.
Qed.

(** ** The credentials of a Digest request *)

Ltac flatten_appends :=
  unfold quoted, CRLF; cbn [ne_concat];
  repeat rewrite append_assoc; cbn [append];
  repeat rewrite append_assoc; cbn [append];
  repeat rewrite append_nil_r.

(** X8: for a session with a realm, a nonce and, when a qop is in use, a
    client nonce, [request_digest] returns the credentials of RFC 2617:
    the response digest is MD5 of H(A1), nonce, H(A2), with nc, cnonce and
    qop between them under a qop, H(A2) being MD5 of method and URI, with
    the digest of the request body under [auth-int].  The nonce count goes
    up by one, modulo 2^32, under a qop and stays otherwise; the context
    stored is the digest's text up to H(A2) and the qop. *)
Theorem request_digest_rfc2617 (s : auth_session) (req : auth_request)
  (r n : string) :
  realm s = Some r ->
  nonce s = Some n ->
  (qop_is_none (qop s) = false -> cnonce s <> None) ->
  let s' := bump_nonce_count s in
  let nc := nc_hex (nonce_count s') in
  let cn := str_or_empty (cnonce s) in
  request_digest s req
  = Some
      (digest_credentials (username s) r n (uri req)
         (rfc_request_digest (qop s) (h_a1 s) n nc cn
            (h_a2 (qop s) (method req) (uri req)
               (request_body (request req))))
         (alg_text (alg s)) (opaque s)
         (if qop_is_none (qop s) then None
          else Some (cn, nc, qop_text (qop s))),
       set_stored_rdig (Md5Ctx (stored_prefix s n)) s').
Proof.
  intros Hr Hn Hcn. cbv zeta.
  unfold request_digest, stored_prefix, bump_nonce_count, rfc_request_digest,
    h_a2, qop_text, digest_credentials, alg_text, md5_hex.
  cbv zeta. rewrite Hr, Hn.
  destruct (qop s) eqn:Hq; cbn [qop_is_none qop_is_auth_int negb] in Hcn |- *.
  - cbn [ne_md5_process_bytes ne_md5_init_ctx ne_md5_finish_ascii].
    destruct (opaque s), (alg s); flatten_appends; reflexivity.
  - destruct (cnonce s) as [c|] eqn:Hc; [|destruct (Hcn eq_refl eq_refl)].
    cbn [ne_md5_process_bytes ne_md5_init_ctx ne_md5_finish_ascii
         str_or_empty nonce_count set_nonce_count].
    destruct (opaque s), (alg s); flatten_appends; reflexivity.
  - destruct (cnonce s) as [c|] eqn:Hc; [|destruct (Hcn eq_refl eq_refl)].
    cbn [ne_md5_process_bytes ne_md5_init_ctx ne_md5_finish_ascii
         str_or_empty nonce_count set_nonce_count].
    destruct (opaque s), (alg s); flatten_appends; reflexivity.
Qed.

Lemma request_digest_session s req n :
  nonce s = Some n ->
  (qop_is_none (qop s) = false -> cnonce s <> None) ->
  exists hdr,
    request_digest s req
    = Some (hdr, set_stored_rdig (Md5Ctx (stored_prefix s n))
                   (bump_nonce_count s)).
Proof.
  intros Hn Hcn.
  unfold request_digest, stored_prefix, bump_nonce_count. cbv zeta.
  rewrite Hn.
  destruct (qop s) eqn:Hq; cbn [qop_is_none qop_is_auth_int negb] in Hcn |- *.
  - cbn [ne_md5_process_bytes ne_md5_init_ctx ne_md5_finish_ascii].
    eexists. apply f_equal. apply f_equal2; [reflexivity|].
    flatten_appends. reflexivity.
  - destruct (cnonce s) as [c|] eqn:Hc; [|destruct (Hcn eq_refl eq_refl)].
    cbn [ne_md5_process_bytes ne_md5_init_ctx ne_md5_finish_ascii
         str_or_empty nonce_count set_nonce_count].
    eexists. apply f_equal. apply f_equal2; [reflexivity|].
    flatten_appends. reflexivity.
  - destruct (cnonce s) as [c|] eqn:Hc; [|destruct (Hcn eq_refl eq_refl)].
    cbn [ne_md5_process_bytes ne_md5_init_ctx ne_md5_finish_ascii
         str_or_empty nonce_count set_nonce_count].
    eexists. apply f_equal. apply f_equal2; [reflexivity|].
    flatten_appends. reflexivity.
Qed.

(** X9: on a session under a qop, with a nonce and a client nonce, any
    number of requests in a row go through, the nonce and the client nonce
    stay, and the nonce count after [k] of them is the count before plus
    [k], modulo 2^32: the nc values on the wire go up by one from request
    to request. *)
Theorem nonce_count_over_requests (k : nat) :
  forall (s : auth_session) (req : auth_request) (n : string),
    nonce s = Some n ->
    qop_is_none (qop s) = false ->
    cnonce s <> None ->
    0 <= nonce_count s < 4294967296 ->
    exists s',
      send_requests k s req = Some s'
      /\ nonce s' = Some n
      /\ cnonce s' = cnonce s
      /\ qop s' = qop s
      /\ nonce_count s' = (nonce_count s + Z.of_nat k) mod 4294967296.
Proof.
  induction k as [|k IH]; intros s req n Hn Hq Hc Hrange.
  - exists s. cbn [send_requests]. repeat split; try assumption.
    rewrite Z.add_0_r, Z.mod_small; [reflexivity|exact Hrange].
  - destruct (request_digest_session s req n Hn (fun _ => Hc)) as [hdr Hreq].
    cbn [send_requests]. rewrite Hreq.
    set (s1 := set_stored_rdig (Md5Ctx (stored_prefix s n))
                 (bump_nonce_count s)).
    assert (H1 : nonce s1 = Some n /\ cnonce s1 = cnonce s /\ qop s1 = qop s
                 /\ nonce_count s1 = (nonce_count s + 1) mod 4294967296).
    { subst s1. unfold bump_nonce_count. rewrite Hq. cbn [negb].
      repeat split. exact Hn. }
    destruct H1 as (Hn1 & Hc1 & Hq1 & Hcount1).
    destruct (IH s1 req n Hn1) as (s' & Hs & Hn' & Hc' & Hq' & Hcount').
    + rewrite Hq1. exact Hq.
    + rewrite Hc1. exact Hc.
    + rewrite Hcount1. apply Z.mod_pos_bound. lia.
    + exists s'. repeat split; try assumption.
      * rewrite Hc'. exact Hc1.
      * rewrite Hq'. exact Hq1.
      * rewrite Hcount', Hcount1, Zplus_mod_idemp_l. f_equal. lia.
Qed.

(** ** An info header read back *)

Lemma ne_shave_plain v c :
  strchr v c = false -> ne_shave v (String c "") = v.
Proof.
  intros H. unfold ne_shave.
  rewrite (shave_leading_fixed _ _ (no_char_begins v c H)).
  apply shave_trailing_fixed, no_char_ends, H.
Qed.

(** A pair whose value is not quoted, before a comma and at the end of the
    text. *)
Lemma tokenize_plain_pair ischall lead key v rest :
  all_in key_blanks lead = true ->
  clean_key ischall key = true ->
  strchr v ","%char = false ->
  strchr v dquote = false ->
  tokenize (lead ++ key ++ "=" ++ v ++ "," ++ rest) ischall
  = Tok (Some key) (ValSet v) rest
  /\ tokenize (lead ++ key ++ "=" ++ v) ischall = Tok (Some key) (ValSet v) "".
Proof.
  intros Hlead Hkey Hc Hq. split.
  - rewrite (tokenize_nonempty _ _ _ _ Hkey).
    change ("=" ++ v ++ "," ++ rest) with (String "=" (v ++ "," ++ rest)).
    rewrite (tokenize_loop_to_value _ _ _ _ Hlead Hkey).
    rewrite (tokenize_loop_plain _ _ _ _ _ Hc Hq). reflexivity.
  - rewrite (tokenize_nonempty _ _ _ _ Hkey).
    change ("=" ++ v) with (String "=" v).
    rewrite (tokenize_loop_to_value _ _ _ _ Hlead Hkey).
    pose proof (tokenize_loop_plain ischall key v "" "" Hc Hq) as H.
    rewrite append_nil_r in H. rewrite H. reflexivity.
Qed.

Lemma parse_info_header qv d cn nc fuel :
  strchr qv ","%char = false -> strchr qv dquote = false ->
  strchr d dquote = false -> strchr cn dquote = false ->
  strchr nc ","%char = false -> strchr nc dquote = false ->
  parse_auth_info (5 + fuel)
    ("qop=" ++ qv ++ ", rspauth=" ++ quoted d ++ ", cnonce=" ++ quoted cn
       ++ ", nc=" ++ nc)
    VUninit auth_info_init
  = Some
      (info_pair "nc" nc
         (info_pair "cnonce" cn
            (info_pair "rspauth" d (info_pair "qop" qv auth_info_init)))).
Proof.
  intros Hqc Hqq Hd Hcn Hncc Hncq.
  change (5 + fuel)%nat with (S (S (S (S (S fuel))))).
  rewrite parse_auth_info_S.
  destruct (tokenize_plain_pair false "" "qop" qv
              (" rspauth=" ++ quoted d ++ ", cnonce=" ++ quoted cn
                 ++ ", nc=" ++ nc) eq_refl eq_refl Hqc Hqq) as [Ht1 _].
  change ("" ++ "qop" ++ "=" ++ qv ++ "," ++ " rspauth=" ++ quoted d
            ++ ", cnonce=" ++ quoted cn ++ ", nc=" ++ nc)
    with ("qop=" ++ qv ++ ", rspauth=" ++ quoted d ++ ", cnonce=" ++ quoted cn
            ++ ", nc=" ++ nc) in Ht1.
  rewrite Ht1. cbn [store_value]. cbv beta iota zeta.
  rewrite (ne_shave_plain qv dquote Hqq).
  rewrite parse_auth_info_S.
  pose proof (tokenize_quoted_more false " " "rspauth" d
                (" cnonce=" ++ quoted cn ++ ", nc=" ++ nc)
                eq_refl eq_refl Hd) as Ht2.
  pose proof (ne_shave_quoted_value d Hd) as Hs2.
  change (" " ++ "rspauth" ++ "=" ++ quoted d ++ "," ++ " cnonce="
            ++ quoted cn ++ ", nc=" ++ nc)
    with (" rspauth=" ++ quoted d ++ ", cnonce=" ++ quoted cn ++ ", nc=" ++ nc)
    in Ht2.
  rewrite Ht2. cbn [store_value]. cbv beta iota zeta. rewrite Hs2.
  rewrite parse_auth_info_S.
  pose proof (tokenize_quoted_more false " " "cnonce" cn (" nc=" ++ nc)
                eq_refl eq_refl Hcn) as Ht3.
  pose proof (ne_shave_quoted_value cn Hcn) as Hs3.
  change (" " ++ "cnonce" ++ "=" ++ quoted cn ++ "," ++ " nc=" ++ nc)
    with (" cnonce=" ++ quoted cn ++ ", nc=" ++ nc) in Ht3.
  rewrite Ht3. cbn [store_value]. cbv beta iota zeta. rewrite Hs3.
  rewrite parse_auth_info_S.
  destruct (tokenize_plain_pair false " " "nc" nc "" eq_refl eq_refl
              Hncc Hncq) as [_ Ht4].
  change (" " ++ "nc" ++ "=" ++ nc) with (" nc=" ++ nc) in Ht4.
  rewrite Ht4. cbn [store_value]. cbv beta iota zeta.
  rewrite (ne_shave_plain nc dquote Hncq).
  rewrite parse_auth_info_S. reflexivity.
Qed.

Lemma all_in_no_char set s c :
  all_in set s = true -> strchr set c = false -> strchr s c = false.
Proof.
  intros Hall Hc. induction s as [|d s IH]; [reflexivity|].
  cbn [all_in] in Hall. apply andb_prop in Hall. destruct Hall as [Hd Hs].
  cbn [strchr]. rewrite (IH Hs), orb_false_r.
  destruct (Ascii.eqb_spec c d) as [->|]; [congruence|reflexivity].
Qed.

Lemma to_ascii_hex bytes :
  Forall (fun b => 0 <= b < 256) bytes ->
  all_in hex_digits (ne_md5_to_ascii bytes) = true.
Proof.
  induction 1 as [|b bytes Hb _ IH]; [reflexivity|].
  cbn [ne_md5_to_ascii all_in]. rewrite IH.
  rewrite !hex_digit_lower; [reflexivity| |].
  - apply Z.mod_pos_bound. lia.
  - split; [apply Z.div_pos; lia | apply Z.div_lt_upper_bound; lia].
Qed.

Lemma le_bytes_range k x : Forall (fun b => 0 <= b < 256) (MD5.le_bytes k x).
Proof.
  unfold MD5.le_bytes. apply Forall_forall. intros b Hb.
  apply in_map_iff in Hb. destruct Hb as (i & <- & _).
  apply Z.mod_pos_bound. lia.
Qed.

(** A digest in hexadecimal is 32 lowercase hexadecimal digits. *)
Lemma md5_hex_digits x :
  all_in hex_digits (md5_hex x) = true
  /\ String.length (md5_hex x) = 32%nat.
Proof.
  unfold md5_hex, MD5.digest, MD5.digest_from.
  destruct (fold_left MD5.process_block _ MD5.init_state) as [a b c d].
  split.
  - apply to_ascii_hex. repeat (apply Forall_app; split);
      apply le_bytes_range.
  - reflexivity.
Qed.

Lemma md5_hex_no_quote x : strchr (md5_hex x) dquote = false.
Proof.
  apply (all_in_no_char hex_digits); [apply md5_hex_digits|reflexivity].
Qed.

Lemma md5_hex_no_quote_digest q ha1 n nc cn ha2 :
  strchr (rfc_request_digest q ha1 n nc cn ha2) dquote = false.
Proof.
  unfold rfc_request_digest. destruct (qop_is_none q); apply md5_hex_no_quote.
Qed.

(** ** A response that the server signed *)

Lemma info_of_header qv d cn nc :
  info_pair "nc" nc
    (info_pair "cnonce" cn
       (info_pair "rspauth" d (info_pair "qop" qv auth_info_init)))
  = mk_auth_info
      (if strcaseeq qv "auth-int" then auth_qop_auth_int
       else if strcaseeq qv "auth" then auth_qop_auth
       else auth_qop_none)
      (Some qv) None (Some d) (Some cn) (Some nc)
      (match sscanf_hex nc with
       | Some n => Some n
       | None => None
       end).
Proof. reflexivity. Qed.

Lemma strcaseeq_refl a : strcaseeq a a = true.
Proof. apply String.eqb_refl. Qed.

(** X10: a response that the server signed is accepted.  After
    [request_digest] has emitted credentials under a qop, an info header
    that names the qop of the request, the client nonce and nc of the
    request, and as [rspauth] the digest of RFC 2617 (the request digest
    with an empty method in A2, over the response body under [auth-int])
    passes [verify_response], which leaves nonce, nonce count and client
    nonce as they were. *)
Theorem signed_response_accepted (s s1 : auth_session) (req : auth_request)
  (n cn body hdr : string) :
  scheme s = auth_scheme_digest ->
  nonce s = Some n ->
  cnonce s = Some cn ->
  strchr cn dquote = false ->
  qop_is_none (qop s) = false ->
  will_handle req = true ->
  (qop_is_auth_int (qop s) = true -> response_body req = Md5Ctx body) ->
  request_digest s req = Some (hdr, s1) ->
  let nc := nc_hex (nonce_count s1) in
  let rspauth :=
    rfc_request_digest (qop s) (h_a1 s) n nc cn
      (h_a2 (qop s) "" (uri req) body) in
  let info :=
    "qop=" ++ qop_text (qop s) ++ ", rspauth=" ++ quoted rspauth
      ++ ", cnonce=" ++ quoted cn ++ ", nc=" ++ nc in
  exists s2,
    verify_response req s1 info = Some (0, s2)
    /\ nonce s2 = Some n
    /\ cnonce s2 = Some cn
    /\ nonce_count s2 = nonce_count s1.
Proof.
  intros Hsch Hn Hcn Hplain Hq Hwill Hbody Hreq nc rspauth info.
  destruct (request_digest_session s req n Hn
              (fun _ => ltac:(rewrite Hcn; discriminate))) as [hdr' Hreq'].
  rewrite Hreq in Hreq'. injection Hreq' as _ Hs1.
  assert (Hcount : nonce_count s1 = (nonce_count s + 1) mod 4294967296).
  { rewrite Hs1. unfold bump_nonce_count. rewrite Hq. reflexivity. }
  assert (Hfields : scheme s1 = auth_scheme_digest /\ cnonce s1 = Some cn
                    /\ nonce s1 = Some n
                    /\ stored_rdig s1 = Md5Ctx (stored_prefix s n)).
  { rewrite Hs1. unfold bump_nonce_count. rewrite Hq. cbn [negb].
    repeat split; assumption. }
  destruct Hfields as (Hsch1 & Hcn1 & Hn1 & Hstored).
  assert (Hb : nonce_count (bump_nonce_count s) = nonce_count s1)
    by (rewrite Hs1; reflexivity).
  assert (Hnc : sscanf_hex nc = Some (nonce_count s1)).
  { apply sscanf_nc_hex. rewrite Hcount. apply Z.mod_pos_bound. lia. }
  assert (Hnc_plain : strchr nc ","%char = false /\ strchr nc dquote = false).
  { split; apply (all_in_no_char hex_digits);
      try apply nc_hex_all_hex; reflexivity. }
  assert (Hqv : strchr (qop_text (qop s)) ","%char = false
                /\ strchr (qop_text (qop s)) dquote = false).
  { unfold qop_text. destruct (qop_is_auth_int (qop s)); split; reflexivity. }
  assert (Hparse :
            parse_auth_info (S (String.length info)) info VUninit
              auth_info_init
            = Some
                (mk_auth_info (qop s) (Some (qop_text (qop s))) None
                   (Some rspauth) (Some cn) (Some nc)
                   (Some (nonce_count s1)))).
  { replace (S (String.length info))
      with (5 + (String.length info - 4))%nat
      by (subst info; cbn [String.length append]; lia).
    subst info.
    rewrite (parse_info_header (qop_text (qop s)) rspauth cn nc _
               (proj1 Hqv) (proj2 Hqv) (md5_hex_no_quote_digest _ _ _ _ _ _)
               Hplain (proj1 Hnc_plain) (proj2 Hnc_plain)).
    rewrite info_of_header, Hnc. f_equal. f_equal.
    unfold qop_text. destruct (qop s); try discriminate Hq; reflexivity. }
  rewrite (verify_response_parsed req s1 info _ Hwill Hsch1 Hparse).
  unfold check_auth_info, response_digest.
  cbn [ai_qop ai_qop_value ai_rspauth ai_cnonce ai_nc ai_nonce_count
       ai_nextnonce is_none].
  rewrite Hq, Hcn1. cbn [negb andb str_or_empty].
  unfold streq. rewrite String.eqb_refl, Z.eqb_refl. cbn [negb].
  rewrite Hstored.
  destruct (qop_is_auth_int (qop s)) eqn:Hint.
  - rewrite (Hbody eq_refl).
    cbn [ne_md5_finish_ascii ne_md5_process_bytes ne_md5_init_ctx].
    replace (strcaseeq _ rspauth) with true.
    + eexists. split; [reflexivity|]. repeat split; assumption.
    + symmetry. subst rspauth. unfold stored_prefix. rewrite Hb, Hcn. fold nc.
      cbn [str_or_empty].
      unfold rfc_request_digest, h_a2, md5_hex, qop_text. rewrite Hq, Hint.
      flatten_appends. apply strcaseeq_refl.
  - cbn [ne_md5_finish_ascii ne_md5_process_bytes ne_md5_init_ctx].
    replace (strcaseeq _ rspauth) with true.
    + eexists. split; [reflexivity|]. repeat split; assumption.
    + symmetry. subst rspauth. unfold stored_prefix. rewrite Hb, Hcn. fold nc.
      cbn [str_or_empty].
      unfold rfc_request_digest, h_a2, md5_hex, qop_text. rewrite Hq, Hint.
      flatten_appends. apply strcaseeq_refl.
Qed.

(** ** What verification leaves of the session *)

Lemma verify_response_fields req s s' value okay :
  verify_response req s value = Some (okay, s') ->
  can_handle s' = can_handle s /\ scheme s' = scheme s
  /\ username s' = username s /\ realm s' = realm s
  /\ cnonce s' = cnonce s /\ opaque s' = opaque s /\ qop s' = qop s
  /\ alg s' = alg s /\ nonce_count s' = nonce_count s /\ h_a1 s' = h_a1 s
  /\ basic s' = basic s /\ attempt s' = attempt s /\ spec s' = spec s.
Proof.
  intros H. unfold verify_response in H.
  destruct (negb (will_handle req));
    [injection H as _ <-; repeat split|].
  destruct (negb (auth_scheme_eqb _ _));
    [injection H as _ <-; repeat split|].
  destruct (parse_auth_info _ _ _ _) as [i|]; [|discriminate].
  destruct (check_auth_info req s i) as [[ok s1]|] eqn:Hc; [|discriminate].
  injection H as _ <-. apply check_auth_info_session in Hc.
  destruct Hc as [-> | [stored ->]]; destruct (ai_nextnonce i);
    repeat split.
Qed.

Lemma verify_response_not_ours req s s' value okay :
  verify_response req s value = Some (okay, s') ->
  will_handle req = false \/ scheme s <> auth_scheme_digest ->
  s' = s /\ (will_handle req = false -> okay = 0).
Proof.
  intros H Hcase. unfold verify_response in H.
  destruct (will_handle req); cbn [negb] in H;
    [|injection H as <- <-; split; reflexivity].
  destruct Hcase as [Hw | Hs]; [discriminate|].
  destruct (scheme s);
    try (injection H as <- <-; split; [reflexivity|discriminate]).
  contradiction Hs. reflexivity.
Qed.

(** X11: [verify_response] changes nothing of the session but the nonce
    and the stored digest context: the credentials stay, whether the header
    is accepted or not.  On a request with Digest credentials, a
    [nextnonce] in the header becomes the session's nonce even when the
    header is rejected; on any other request the session is left as it
    was, and a request that carried no credentials has the header
    accepted unread. *)
Theorem verify_response_keeps_credentials (req : auth_request)
  (s s' : auth_session) (value : string) (okay : Z) :
  verify_response req s value = Some (okay, s') ->
  (can_handle s' = can_handle s /\ scheme s' = scheme s
   /\ username s' = username s /\ realm s' = realm s
   /\ cnonce s' = cnonce s /\ opaque s' = opaque s /\ qop s' = qop s
   /\ alg s' = alg s /\ nonce_count s' = nonce_count s /\ h_a1 s' = h_a1 s
   /\ basic s' = basic s /\ attempt s' = attempt s /\ spec s' = spec s)
  /\ (will_handle req = true -> scheme s = auth_scheme_digest ->
      forall i,
        parse_auth_info (S (String.length value)) value VUninit
          auth_info_init = Some i ->
        nonce s'
        = match ai_nextnonce i with
          | Some nextnonce => Some nextnonce
          | None => nonce s
          end)
  /\ (will_handle req = false \/ scheme s <> auth_scheme_digest ->
      s' = s /\ (will_handle req = false -> okay = 0)).
Proof.
  intros H. split; [|split].
  - apply (verify_response_fields _ _ _ _ _ H).
  - intros Hw Hs i Hp.
    rewrite (verify_response_parsed req s value i Hw Hs Hp) in H.
    destruct (check_auth_info req s i) as [[ok s1]|] eqn:Hc; [|discriminate].
    injection H as _ <-. apply check_auth_info_session in Hc.
    destruct Hc as [-> | [stored ->]]; destruct (ai_nextnonce i); reflexivity.
  - apply (verify_response_not_ours _ _ _ _ _ H).
Qed.

(** ** The outcomes of the post-send hook *)

Lemma install_challenge_cnonce parms cn s :
  cnonce (install_challenge parms cn s) = Some cn.
Proof.
  unfold install_challenge, install_qop, install_opaque.
  destruct (Chall.got_qop parms), (Chall.opaque parms); reflexivity.
Qed.

Lemma install_h_a1_cnonce parms password s :
  cnonce (install_h_a1 parms password s) = cnonce s.
Proof. unfold install_h_a1. destruct (Chall.stale parms); reflexivity. Qed.

Lemma digest_invalid_nonce c :
  digest_invalid c = false -> Chall.nonce c <> None /\ Chall.realm c <> None.
Proof.
  unfold digest_invalid. intros H.
  apply orb_false_elim in H. destruct H as [H Hn].
  apply orb_false_elim in H. destruct H as [_ Hr].
  destruct (Chall.nonce c), (Chall.realm c); try discriminate.
  split; discriminate.
Qed.

Lemma digest_challenge_accept_fields env w c w' :
  digest_challenge env w c = (0, w') ->
  nonce (w_sess w') = Chall.nonce c
  /\ Chall.nonce c <> None
  /\ cnonce (w_sess w') <> None.
Proof.
  unfold digest_challenge, get_credentials, get_cnonce.
  destruct (digest_invalid c) eqn:Hgate; [discriminate|].
  apply digest_invalid_nonce in Hgate. destruct Hgate as [Hnonce _].
  destruct (Chall.stale c).
  - cbn [negb Z.eqb]. intros H. apply (f_equal snd) in H.
    cbn [snd] in H. subst w'. cbn [w_sess with_sess].
    rewrite install_h_a1_nonce, install_h_a1_cnonce, install_challenge_nonce,
      install_challenge_cnonce.
    repeat split; [exact Hnonce|discriminate].
  - cbn [w_sess with_sess].
    match goal with |- context [creds ?s ?r ?a ?u] =>
      destruct (creds s r a u) as [[ret user] pw] end.
    destruct (negb (ret =? 0)); [discriminate|].
    intros H. apply (f_equal snd) in H.
    cbn [snd] in H. subst w'. cbn [w_sess with_sess].
    rewrite install_h_a1_nonce, install_h_a1_cnonce, install_challenge_nonce,
      install_challenge_cnonce.
    repeat split; [exact Hnonce|discriminate].
Qed.

Lemma first_accepted_digest_fields env :
  forall candidates w w',
    first_accepted env candidates w = (true, w') ->
    scheme (w_sess w') = auth_scheme_digest ->
    nonce (w_sess w') <> None /\ cnonce (w_sess w') <> None.
Proof.
  induction candidates as [|c rest IH]; intros w w' Hacc Hsch;
    [discriminate|].
  cbn [first_accepted] in Hacc.
  destruct (examine_scheme env (Chall.scheme c)
              (record_event (EvExamine c) w) c) as [r w1] eqn:Hex.
  destruct (r =? 0) eqn:Hr; [|apply (IH w1 w' Hacc Hsch)].
  injection Hacc as <-. apply Z.eqb_eq in Hr. subst r.
  pose proof (examine_scheme_accepts _ _ _ _ Hex) as [Hs _].
  rewrite Hsch in Hs. rewrite <- Hs in Hex. cbn [examine_scheme] in Hex.
  apply digest_challenge_accept_fields in Hex.
  destruct Hex as (Hn & Hc & Hcn). rewrite Hn. split; assumption.
Qed.

Lemma session_wiped_clean s : session_wiped (clean_session s) = true.
Proof. reflexivity. Qed.

Lemma session_wiped_sound s : session_wiped s = true -> session_sound s = true.
Proof.
  unfold session_wiped, session_sound.
  destruct (can_handle s); [discriminate|reflexivity].
Qed.

(** What [auth_challenge] leaves: the class, and on success a session that
    can handle requests and, under Digest, has a nonce and a client
    nonce. *)
Lemma auth_challenge_outcome env w value r w' :
  auth_challenge env w value = Some (r, w') ->
  spec (w_sess w') = spec (w_sess w)
  /\ (r = 0 ->
      can_handle (w_sess w') = true /\ session_sound (w_sess w') = true)
  /\ (r <> 0 -> w' = w \/ can_handle (w_sess w') = false).
Proof.
  unfold auth_challenge.
  destruct (parse_challenges env _ value VUninit []) as [parsed|];
    [|discriminate].
  destruct parsed as [|c next].
  - intros H. injection H as <- <-.
    split; [reflexivity|]. split; [discriminate|]. intros _. left. reflexivity.
  - rewrite select_challenge_first_accepted.
    pose proof (first_accepted_spec env (preference_order env (c :: next)) w)
      as Hspec.
    destruct (first_accepted env (preference_order env (c :: next)) w)
      as [ok w1] eqn:Hacc.
    cbn [snd] in Hspec.
    intros H. injection H as <- <-. cbn [w_sess with_sess].
    split; [exact Hspec|].
    destruct ok.
    + split; [|intros Hne; contradiction Hne; reflexivity].
      intros _. split; [reflexivity|].
      unfold session_sound.
      change (can_handle (set_can_handle true (w_sess w1))) with true.
      change (scheme (set_can_handle true (w_sess w1)))
        with (scheme (w_sess w1)).
      change (nonce (set_can_handle true (w_sess w1)))
        with (nonce (w_sess w1)).
      change (cnonce (set_can_handle true (w_sess w1)))
        with (cnonce (w_sess w1)).
      cbn [negb orb].
      destruct (auth_scheme_eqb (scheme (w_sess w1)) auth_scheme_digest)
        eqn:Hs; [|reflexivity].
      apply auth_scheme_eqb_eq in Hs.
      destruct (first_accepted_digest_fields env _ _ _ Hacc Hs) as [Hn Hc].
      destruct (nonce (w_sess w1)), (cnonce (w_sess w1));
        try reflexivity; [contradiction Hc | contradiction Hn
                         | contradiction Hn]; reflexivity.
    + split; [discriminate|]. intros _. right. reflexivity.
Qed.

Lemma known_class_codes c :
  known_class c ->
  (c = ah_server_class /\ fail_code c = NE_AUTH /\ status_code c = 401)
  \/ (c = ah_proxy_class /\ fail_code c = NE_PROXYAUTH
      /\ status_code c = 407).
Proof. intros [-> | ->]; [left|right]; repeat split. Qed.

Lemma post_send_challenge_outcome env w req code ret w' :
  known_class (spec (w_sess w)) ->
  post_send_challenge env w req code = Some (ret, w') ->
  match ret with
  | NE_OK =>
      (auth_hdr req = None \/ code <> status_code (spec (w_sess w)))
      /\ w' = w
  | NE_ERROR => False
  | NE_RETRY =>
      auth_hdr req <> None /\ code = status_code (spec (w_sess w))
      /\ can_handle (w_sess w') = true
      /\ session_sound (w_sess w') = true
  | NE_AUTH =>
      spec (w_sess w) = ah_server_class /\ code = 401
      /\ auth_hdr req <> None /\ session_wiped (w_sess w') = true
  | NE_PROXYAUTH =>
      spec (w_sess w) = ah_proxy_class /\ code = 407
      /\ auth_hdr req <> None /\ session_wiped (w_sess w') = true
  end.
Proof.
  intros Hclass. unfold post_send_challenge.
  destruct (auth_hdr req) as [hdr|];
    [|intros H; injection H as <- <-; split; [left|]; reflexivity].
  destruct (code =? status_code (spec (w_sess w))) eqn:Hcode.
  2:{ intros H; injection H as <- <-. apply Z.eqb_neq in Hcode.
      split; [right; exact Hcode|reflexivity]. }
  apply Z.eqb_eq in Hcode.
  destruct (auth_challenge env w hdr) as [[r w1]|] eqn:Hch; [|discriminate].
  apply auth_challenge_outcome in Hch. destruct Hch as (Hspec & Hok & Hfail).
  destruct (r =? 0) eqn:Hr.
  - apply Z.eqb_eq in Hr. intros H; injection H as <- <-.
    destruct (Hok Hr) as [Hcan Hsound].
    repeat split; try assumption. discriminate.
  - intros H; injection H as <- <-. rewrite Hspec.
    destruct (known_class_codes _ Hclass) as [(Hc & Hf & Hs) | (Hc & Hf & Hs)];
      rewrite Hf; rewrite Hs in Hcode;
      (split; [exact Hc|]; split; [exact Hcode|]; split;
       [discriminate|reflexivity]).
Qed.

(** X12: what each return value of the post-send hook stands for, on a
    session of one of the two classes.  The headers captured are always
    released.  [NE_RETRY] is returned only under the class's status code
    with a challenge header, and leaves a session that can handle the
    request; the class's failure code, [NE_AUTH] for the server class under
    401 and [NE_PROXYAUTH] for the proxy class under 407, leaves every
    credential freed; [NE_ERROR] is returned only for an info header on a
    request that carried credentials, asks for no credentials and keeps
    the session able to handle as it was; [NE_OK] means that no challenge
    was processed. *)
Theorem post_send_outcomes (env : auth_env) (w w' : world)
  (req : auth_request) (code : Z) (ret : ne_code)
  (areq' : option auth_request) :
  known_class (spec (w_sess w)) ->
  ah_post_send env w (Some req) code = Some (ret, areq', w') ->
  areq' = Some (capture_headers None None req)
  /\ match ret with
     | NE_OK =>
         (auth_hdr req = None \/ code <> status_code (spec (w_sess w)))
         /\ w_log w' = w_log w
         /\ can_handle (w_sess w') = can_handle (w_sess w)
     | NE_ERROR =>
         auth_info_hdr req <> None /\ will_handle req = true
         /\ w_log w' = w_log w
         /\ can_handle (w_sess w') = can_handle (w_sess w)
         /\ ne_get_error (sess (w_sess w')) = fail_msg (spec (w_sess w))
     | NE_RETRY =>
         auth_hdr req <> None /\ code = status_code (spec (w_sess w))
         /\ can_handle (w_sess w') = true
     | NE_AUTH =>
         spec (w_sess w) = ah_server_class /\ code = 401
         /\ auth_hdr req <> None /\ session_wiped (w_sess w') = true
     | NE_PROXYAUTH =>
         spec (w_sess w) = ah_proxy_class /\ code = 407
         /\ auth_hdr req <> None /\ session_wiped (w_sess w') = true
     end.
Proof.
  intros Hclass. unfold ah_post_send.
  destruct (auth_info_hdr req) as [info|] eqn:Hinfo.
  - destruct (verify_response req (w_sess w) info) as [[okay s1]|] eqn:Hv;
      [|discriminate].
    pose proof (verify_response_fields _ _ _ _ _ Hv) as Hkeep.
    destruct (negb (okay =? 0)) eqn:Hok.
    + intros H. injection H as <- <- <-. split; [reflexivity|].
      cbn [w_sess with_sess w_log].
      split; [discriminate|]. split.
      * destruct (will_handle req) eqn:Hw; [reflexivity|].
        destruct (verify_response_not_ours _ _ _ _ _ Hv (or_introl Hw))
          as [_ Hzero].
        rewrite (Hzero Hw) in Hok. discriminate Hok.
      * split; [reflexivity|].
        destruct Hkeep as (Hcan & _ & _ & _ & _ & _ & _ & _ & _ & _ & _ & _
                           & Hspec).
        split; [exact Hcan|]. cbn. rewrite Hspec. reflexivity.
    + destruct (post_send_challenge env (with_sess (fun _ => s1) w) req code)
        as [[ret1 w1]|] eqn:Hp; [|discriminate].
      intros H. injection H as <- <- <-. split; [reflexivity|].
      destruct Hkeep as (Hcan & _ & _ & _ & _ & _ & _ & _ & _ & _ & _ & _
                         & Hspec).
      apply post_send_challenge_outcome in Hp;
        [|cbn [w_sess with_sess]; rewrite Hspec; exact Hclass].
      cbn [w_sess with_sess] in Hp. rewrite Hspec in Hp.
      destruct ret1; try contradiction.
      * destruct Hp as [Hwhy ->]. cbn [w_sess with_sess w_log].
        repeat split; assumption.
      * exact Hp.
      * exact Hp.
      * destruct Hp as (? & ? & ? & ?). repeat split; assumption.
  - destruct (post_send_challenge env w req code) as [[ret1 w1]|] eqn:Hp;
      [|discriminate].
    intros H. injection H as <- <- <-. split; [reflexivity|].
    apply post_send_challenge_outcome in Hp; [|exact Hclass].
    destruct ret1; try contradiction.
    + destruct Hp as [Hwhy ->]. repeat split; assumption.
    + exact Hp.
    + exact Hp.
    + destruct Hp as (? & ? & ? & ?). repeat split; assumption.
Qed.

(** ** A session that can always build its credentials *)

Lemma verify_response_sound req s value okay s' :
  verify_response req s value = Some (okay, s') ->
  session_sound s = true -> session_sound s' = true.
Proof.
  intros H Hsound. unfold verify_response in H.
  destruct (negb (will_handle req)); [injection H as _ <-; exact Hsound|].
  destruct (negb (auth_scheme_eqb _ _)); [injection H as _ <-; exact Hsound|].
  destruct (parse_auth_info _ _ _ _) as [i|]; [|discriminate].
  destruct (check_auth_info req s i) as [[ok s1]|] eqn:Hc; [|discriminate].
  injection H as _ <-. apply check_auth_info_session in Hc.
  unfold session_sound in *.
  destruct Hc as [-> | [stored ->]]; destruct (ai_nextnonce i);
    try exact Hsound;
    cbn [can_handle scheme nonce cnonce set_nonce set_stored_rdig is_none
         negb andb] in *;
    destruct (can_handle s), (auth_scheme_eqb (scheme s) auth_scheme_digest),
      (nonce s), (cnonce s); try reflexivity; try discriminate Hsound.
Qed.

Lemma post_send_challenge_sound env w req code ret w' :
  post_send_challenge env w req code = Some (ret, w') ->
  session_sound (w_sess w) = true -> session_sound (w_sess w') = true.
Proof.
  unfold post_send_challenge. intros H Hsound.
  destruct (auth_hdr req) as [hdr|]; [|injection H as _ <-; exact Hsound].
  destruct (code =? _); [|injection H as _ <-; exact Hsound].
  destruct (auth_challenge env w hdr) as [[r w1]|] eqn:Hch; [|discriminate].
  apply auth_challenge_outcome in Hch. destruct Hch as (_ & Hok & _).
  destruct (r =? 0) eqn:Hr.
  - apply Z.eqb_eq in Hr. injection H as _ <-. apply (Hok Hr).
  - injection H as _ <-. apply session_wiped_sound, session_wiped_clean.
Qed.

Lemma bump_sound stored s :
  session_sound s = true ->
  session_sound (set_stored_rdig stored (bump_nonce_count s)) = true.
Proof.
  unfold bump_nonce_count, session_sound.
  destruct (negb (qop_is_none (qop s))); intros H; exact H.
Qed.

(** X13: the pre-send hook never builds Digest credentials from a missing
    nonce or client nonce.  The condition that a session which can handle
    requests under Digest has both holds of a new session and is kept by
    the create and pre-send hooks, by [clean_session] and by every run of
    the post-send hook that returns; and under it the pre-send hook always
    returns.  The condition says nothing of [verify_response], whose
    comparison with the client nonce of the session it does not cover. *)
Theorem session_sound_kept :
  (forall sess isproxy ahc creds,
      session_sound (auth_register sess isproxy ahc creds) = true)
  /\ (forall req s method uri,
         session_sound s = true ->
         session_sound (snd (ah_create req s method uri)) = true)
  /\ (forall env s areq request,
         session_sound s = true ->
         exists areq' request' s',
           ah_pre_send env s areq request = Some (areq', request', s')
           /\ session_sound s' = true)
  /\ (forall env w areq code ret areq' w',
         session_sound (w_sess w) = true ->
         ah_post_send env w areq code = Some (ret, areq', w') ->
         session_sound (w_sess w') = true)
  /\ (forall s, session_sound (clean_session s) = true).
Proof.
  split; [reflexivity|]. split; [|split; [|split]].
  - intros req s method uri Hs. unfold ah_create.
    destruct (context s), (streq method "CONNECT"); exact Hs.
  - intros env s areq request Hs. unfold ah_pre_send.
    destruct areq as [req|]; [|eauto].
    destruct (can_handle s) eqn:Hcan; cbn [negb]; [|eauto].
    destruct (scheme s) eqn:Hsch.
    + eauto.
    + unfold session_sound in Hs. rewrite Hcan, Hsch in Hs.
      cbn [negb orb auth_scheme_eqb] in Hs.
      destruct (nonce s) as [n|] eqn:Hn; [|discriminate].
      destruct (cnonce s) as [c|] eqn:Hc; [|discriminate].
      match goal with |- context [request_digest s ?r] =>
        destruct (request_digest_session s r n Hn
                    (fun _ => ltac:(rewrite Hc; discriminate)))
          as [hdr Hreq]; rewrite Hreq end.
      do 3 eexists. split; [reflexivity|].
      apply bump_sound. unfold session_sound.
      rewrite Hcan, Hsch, Hn, Hc. reflexivity.
    + destruct (HAVE_GSSAPI env); eauto.
  - intros env w areq code ret areq' w' Hs. unfold ah_post_send.
    destruct areq as [req|]; [|intros H; injection H as _ _ <-; exact Hs].
    destruct (auth_info_hdr req) as [info|].
    + destruct (verify_response req (w_sess w) info) as [[okay s1]|] eqn:Hv;
        [|discriminate].
      apply verify_response_sound in Hv; [|exact Hs].
      destruct (negb (okay =? 0)).
      * intros H. injection H as _ _ <-. exact Hv.
      * destruct (post_send_challenge env (with_sess (fun _ => s1) w) req
                    code) as [[ret1 w1]|] eqn:Hp; [|discriminate].
        intros H. injection H as _ _ <-.
        apply (post_send_challenge_sound _ _ _ _ _ _ Hp). exact Hv.
    + destruct (post_send_challenge env w req code) as [[ret1 w1]|] eqn:Hp;
        [|discriminate].
      intros H. injection H as _ _ <-.
      apply (post_send_challenge_sound _ _ _ _ _ _ Hp). exact Hs.
  - intros s. apply session_wiped_sound, session_wiped_clean.
Qed.

Lemma post_send_challenge_failure env w req code ret w' :
  post_send_challenge env w req code = Some (ret, w') ->
  ret = NE_AUTH \/ ret = NE_PROXYAUTH ->
  session_wiped (w_sess w') = true.
Proof.
  unfold post_send_challenge. intros H Hret.
  assert (Hnot : ret <> NE_OK /\ ret <> NE_RETRY)
    by (destruct Hret as [-> | ->]; split; discriminate).
  destruct Hnot as [Hok Hretry].
  destruct (auth_hdr req) as [hdr|];
    [|injection H as <- _; contradiction (Hok eq_refl)].
  destruct (code =? _);
    [|injection H as <- _; contradiction (Hok eq_refl)].
  destruct (auth_challenge env w hdr) as [[r w1]|]; [|discriminate].
  destruct (r =? 0).
  - injection H as <- _. contradiction (Hretry eq_refl).
  - injection H as _ <-. apply session_wiped_clean.
Qed.

(** X14: once the post-send hook has returned a failure code, [NE_AUTH] or
    [NE_PROXYAUTH], the session holds none of the credentials and the
    pre-send hook adds nothing to a request: no credentials go out until a
    later challenge is accepted. *)
Theorem failed_challenge_silences (env : auth_env) (w w' : world)
  (areq : option auth_request) (code : Z) (ret : ne_code)
  (areq' : option auth_request) :
  ah_post_send env w areq code = Some (ret, areq', w') ->
  ret = NE_AUTH \/ ret = NE_PROXYAUTH ->
  session_wiped (w_sess w') = true
  /\ forall next request,
       ah_pre_send env (w_sess w') next request
       = Some (next, request, w_sess w').
Proof.
  intros Hpost Hret.
  assert (Hwiped : session_wiped (w_sess w') = true).
  { unfold ah_post_send in Hpost.
    destruct areq as [req|];
      [|injection Hpost as <- _ _; destruct Hret; discriminate].
    destruct (auth_info_hdr req) as [info|].
    - destruct (verify_response req (w_sess w) info) as [[okay s1]|];
        [|discriminate].
      destruct (negb (okay =? 0));
        [injection Hpost as <- _ _; destruct Hret; discriminate|].
      destruct (post_send_challenge env (with_sess (fun _ => s1) w) req code)
        as [[ret1 w1]|] eqn:Hp; [|discriminate].
      injection Hpost as <- _ <-.
      apply (post_send_challenge_failure _ _ _ _ _ _ Hp Hret).
    - destruct (post_send_challenge env w req code) as [[ret1 w1]|] eqn:Hp;
        [|discriminate].
      injection Hpost as <- _ <-.
      apply (post_send_challenge_failure _ _ _ _ _ _ Hp Hret). }
  split; [exact Hwiped|].
  assert (Hcan : can_handle (w_sess w') = false).
  { unfold session_wiped in Hwiped.
    destruct (can_handle (w_sess w')); [discriminate|reflexivity]. }
  intros next request. unfold ah_pre_send. rewrite Hcan.
  destruct next; reflexivity.
Qed.

(** ** From a challenge to the credentials of the next request *)

Lemma single_challenge_selected env w c :
  Chall.scheme c <> auth_scheme_gssapi ->
  select_challenge env w [c]
  = (let '(r, w') :=
       examine_scheme env (Chall.scheme c) (record_event (EvExamine c) w) c in
     (if r =? 0 then 0 else 1, with_sess (set_can_handle (r =? 0)) w')).
Proof.
  intros Hnot. rewrite select_challenge_first_accepted.
  unfold preference_order, of_scheme. cbn [filter].
  destruct (Chall.scheme c) eqn:Hs; [| |contradiction (Hnot eq_refl)];
    destruct (HAVE_GSSAPI env);
    cbn [auth_scheme_eqb app first_accepted Chall.scheme];
    try rewrite Hs;
    destruct (examine_scheme env _ (record_event (EvExamine c) w) c)
      as [r w1];
    destruct (r =? 0); reflexivity.
Qed.

Lemma basic_challenge_accepted w c r user pw :
  Chall.realm c = Some r ->
  creds (w_sess w) (Some r) (attempt (w_sess w)) (username (w_sess w))
  = (0, user, pw) ->
  exists w',
    basic_challenge w c = (0, w')
    /\ w_log w' = (w_log w ++ [EvCreds (Some r) (attempt (w_sess w))])%list
    /\ attempt (w_sess w') = attempt (w_sess w) + 1
    /\ scheme (w_sess w') = auth_scheme_basic
    /\ basic (w_sess w') = Some (ne_base64 (user ++ ":" ++ pw))
    /\ spec (w_sess w') = spec (w_sess w)
    /\ qop (w_sess w') = qop (w_sess w).
Proof.
  intros Hr Hcreds. unfold basic_challenge, get_credentials. rewrite Hr.
  cbn [w_sess with_sess clean_session attempt username creds realm
       set_realm set_can_handle set_basic set_nonce set_cnonce set_opaque
       set_gssapi_token].
  rewrite Hcreds. cbn [negb Z.eqb].
  eexists. split; [reflexivity|].
  cbn [w_sess w_log with_sess record_event ne_concat].
  rewrite append_nil_r. repeat split.
Qed.

Lemma digest_challenge_accepted env w c r n user pw :
  Chall.realm c = Some r ->
  Chall.nonce c = Some n ->
  Chall.alg c = auth_alg_md5 ->
  Chall.stale c = false ->
  creds (w_sess w) (Some r) (attempt (w_sess w)) (username (w_sess w))
  = (0, user, pw) ->
  exists w',
    digest_challenge env w c = (0, w')
    /\ scheme (w_sess w') = auth_scheme_digest
    /\ realm (w_sess w') = Some r
    /\ nonce (w_sess w') = Some n
    /\ cnonce (w_sess w') = Some (cnonce_source env (w_rand w))
    /\ username (w_sess w') = user
    /\ h_a1 (w_sess w') = md5_hex (user ++ ":" ++ r ++ ":" ++ pw)
    /\ alg (w_sess w') = auth_alg_md5
    /\ opaque (w_sess w') = Chall.opaque c
    /\ qop (w_sess w')
       = (if Chall.got_qop c
          then if Chall.qop_auth_int c then auth_qop_auth_int
               else auth_qop_auth
          else auth_qop_none)
    /\ (Chall.got_qop c = true -> nonce_count (w_sess w') = 0)
    /\ spec (w_sess w') = spec (w_sess w)
    /\ attempt (w_sess w') = attempt (w_sess w) + 1
    /\ w_log w' = (w_log w ++ [EvCreds (Some r) (attempt (w_sess w))])%list.
Proof.
  intros Hr Hn Halg Hstale Hcreds.
  unfold digest_challenge, get_credentials, get_cnonce, digest_invalid.
  rewrite Hr, Hn, Halg, Hstale.
  cbn [is_none orb w_sess with_sess clean_session attempt username creds
       realm set_realm set_can_handle set_basic set_nonce set_cnonce
       set_opaque set_gssapi_token].
  rewrite Hcreds. cbn [negb Z.eqb].
  eexists. split; [reflexivity|].
  cbn [w_sess w_log w_rand with_sess record_event].
  unfold install_h_a1, install_challenge, install_qop, install_opaque,
    calc_h_a1.
  rewrite Hstale, Hn, Halg. cbn [negb].
  destruct (Chall.got_qop c), (Chall.opaque c), (Chall.qop_auth_int c);
    repeat split; discriminate.
Qed.

(** X15: a Basic challenge answered.  When the response under the class's
    status code carries [Basic realm="r"] and the callback returns zero
    with a user name and a password, the post-send hook asks for the
    credentials of realm [r] once, under the current attempt number, and
    returns [NE_RETRY]; the pre-send hook then adds to every request the
    class's header with [Basic] and the base64 text of [user:password],
    and leaves the session as it is. *)
Theorem basic_challenge_answered (env : auth_env) (w : world)
  (req : auth_request) (r user pw : string) :
  plain_value r = true ->
  auth_hdr req = Some ("Basic realm=" ++ quoted r) ->
  auth_info_hdr req = None ->
  creds (w_sess w) (Some r) (attempt (w_sess w)) (username (w_sess w))
  = (0, user, pw) ->
  exists w',
    ah_post_send env w (Some req) (status_code (spec (w_sess w)))
    = Some (NE_RETRY, Some (capture_headers None None req), w')
    /\ asked (w_log w')
       = (asked (w_log w) ++ [(Some r, attempt (w_sess w))])%list
    /\ forall next request,
         exists next',
           ah_pre_send env (w_sess w') (Some next) request
           = Some
               (Some next',
                request ++ req_hdr (spec (w_sess w)) ++ ": Basic "
                  ++ ne_base64 (user ++ ":" ++ pw) ++ CRLF,
                w_sess w')
           /\ will_handle next' = true.
Proof.
  intros Hr Hhdr Hinfo Hcreds.
  set (c := Chall.mk auth_scheme_basic (Some r) None None false false false
              false auth_alg_md5).
  assert (Hparse :
    parse_challenges env (S (String.length ("Basic realm=" ++ quoted r)))
      ("Basic realm=" ++ quoted r) VUninit [] = Some [c])
    by (cbn [String.length append]; apply (parse_basic_header env r _ Hr)).
  destruct (basic_challenge_accepted (record_event (EvExamine c) w) c r user
              pw eq_refl Hcreds)
    as (w1 & Hacc & Hlog & _ & Hsch & Hbasic & Hspec & _).
  exists (with_sess (set_can_handle true) w1).
  split; [|split].
  - unfold ah_post_send, post_send_challenge. rewrite Hinfo, Hhdr.
    rewrite Z.eqb_refl. unfold auth_challenge. rewrite Hparse.
    rewrite single_challenge_selected by discriminate.
    cbn [Chall.scheme c examine_scheme]. rewrite Hacc. reflexivity.
  - cbn [w_log with_sess]. rewrite Hlog.
    cbn [w_log record_event]. rewrite !asked_app. cbn [asked].
    rewrite app_nil_r. reflexivity.
  - intros next request. unfold ah_pre_send, request_basic.
    cbn [w_sess with_sess can_handle set_can_handle negb scheme spec basic
         qop] in *.
    rewrite Hsch, Hbasic, Hspec. cbn [w_sess record_event ne_concat].
    rewrite append_nil_r.
    destruct (qop_is_auth_int (qop (w_sess w1)));
      eexists; split; reflexivity.
Qed.

Lemma request_digest_plain s req r n :
  realm s = Some r ->
  nonce s = Some n ->
  qop s = auth_qop_none ->
  alg s = auth_alg_md5 ->
  opaque s = None ->
  request_digest s req
  = Some
      (digest_credentials (username s) r n (uri req)
         (md5_hex
            (h_a1 s ++ ":" ++ n ++ ":"
               ++ md5_hex (method req ++ ":" ++ uri req)))
         "MD5" None None,
       set_stored_rdig (Md5Ctx (h_a1 s ++ ":" ++ n ++ ":")) s).
Proof.
  intros Hr Hn Hq Halg Hop.
  unfold request_digest, digest_credentials, md5_hex. cbv zeta.
  rewrite Hr, Hn, Hq, Halg, Hop.
  cbn [qop_is_none qop_is_auth_int negb ne_md5_process_bytes ne_md5_init_ctx
       ne_md5_finish_ascii].
  flatten_appends. reflexivity.
Qed.

(** X16: a Digest challenge answered.  When the response under the class's
    status code carries [Digest realm="r", nonce="n"] and the callback
    returns zero with a user name and a password, the post-send hook
    returns [NE_RETRY], and the pre-send hook then adds to the next request
    the class's header with the credentials of RFC 2617 without a qop: the
    response is MD5 of H(A1), the nonce and H(A2), where H(A1) is MD5 of
    [user:r:password] and H(A2) is MD5 of the request's method and URI. *)
Theorem digest_challenge_answered (env : auth_env) (w : world)
  (req : auth_request) (r n user pw : string) :
  plain_value r = true ->
  plain_value n = true ->
  auth_hdr req = Some ("Digest realm=" ++ quoted r ++ ", nonce=" ++ quoted n) ->
  auth_info_hdr req = None ->
  creds (w_sess w) (Some r) (attempt (w_sess w)) (username (w_sess w))
  = (0, user, pw) ->
  exists w',
    ah_post_send env w (Some req) (status_code (spec (w_sess w)))
    = Some (NE_RETRY, Some (capture_headers None None req), w')
    /\ asked (w_log w')
       = (asked (w_log w) ++ [(Some r, attempt (w_sess w))])%list
    /\ forall next request,
         let response :=
           md5_hex
             (md5_hex (user ++ ":" ++ r ++ ":" ++ pw) ++ ":" ++ n ++ ":"
                ++ md5_hex (method next ++ ":" ++ uri next)) in
         exists s',
           ah_pre_send env (w_sess w') (Some next) request
           = Some
               (Some (set_will_handle true next),
                request ++ req_hdr (spec (w_sess w)) ++ ": "
                  ++ digest_credentials user r n (uri next) response "MD5"
                       None None,
                s')
           /\ nonce_count s' = nonce_count (w_sess w').
Proof.
  intros Hr Hn Hhdr Hinfo Hcreds.
  set (value := "Digest realm=" ++ quoted r ++ ", nonce=" ++ quoted n) in *.
  set (c := Chall.mk auth_scheme_digest (Some r) (Some n) None false false
              false false auth_alg_md5).
  assert (Hparse :
    parse_challenges env (S (String.length value)) value VUninit []
    = Some [c])
    by (subst value; cbn [String.length append];
        apply (parse_digest_header env r n _ Hr Hn)).
  destruct (digest_challenge_accepted env (record_event (EvExamine c) w) c r
              n user pw eq_refl eq_refl eq_refl eq_refl Hcreds)
    as (w1 & Hacc & Hsch & Hrealm & Hnonce & Hcn & Huser & Hha1 & Halg & Hop
        & Hqop & _ & Hspec & _ & Hlog).
  exists (with_sess (set_can_handle true) w1).
  split; [|split].
  - unfold ah_post_send, post_send_challenge. rewrite Hinfo, Hhdr.
    rewrite Z.eqb_refl. unfold auth_challenge. rewrite Hparse.
    rewrite single_challenge_selected by discriminate.
    cbn [Chall.scheme c examine_scheme]. rewrite Hacc. reflexivity.
  - cbn [w_log with_sess]. rewrite Hlog.
    cbn [w_log record_event]. rewrite !asked_app. cbn [asked].
    rewrite app_nil_r. reflexivity.
  - intros next request response.
    set (s := w_sess (with_sess (set_can_handle true) w1)).
    assert (Hs : can_handle s = true /\ scheme s = auth_scheme_digest
                 /\ realm s = Some r /\ nonce s = Some n
                 /\ username s = user
                 /\ h_a1 s = md5_hex (user ++ ":" ++ r ++ ":" ++ pw)
                 /\ alg s = auth_alg_md5 /\ opaque s = None
                 /\ qop s = auth_qop_none
                 /\ spec s = spec (w_sess w))
      by (subst s; cbn [w_sess with_sess];
          repeat split; assumption).
    destruct Hs as (Hcan & Hsch' & Hrealm' & Hnonce' & Huser' & Hha1' & Halg'
                    & Hop' & Hqop' & Hspec').
    unfold ah_pre_send. rewrite Hcan, Hsch', Hqop', Hspec'.
    cbn [negb qop_is_auth_int].
    rewrite (request_digest_plain s (set_will_handle true next) r n Hrealm'
               Hnonce' Hqop' Halg' Hop').
    rewrite Huser', Hha1'.
    cbn [ne_concat uri method set_will_handle].
    rewrite append_nil_r.
    eexists. split; reflexivity.
Qed.

(** ** The attempt numbers that the callback is given *)

Lemma attempts_from_app a l1 l2 :
  attempts_from a (l1 ++ l2)%list
  = attempts_from a l1 && attempts_from (a + Z.of_nat (List.length l1)) l2.
Proof.
  revert a. induction l1 as [|[r x] l1 IH]; intros a.
  - cbn [app attempts_from List.length andb Z.of_nat]. rewrite Z.add_0_r.
    reflexivity.
  - cbn [app attempts_from List.length]. rewrite IH, andb_assoc.
    replace (a + 1 + Z.of_nat (List.length l1))
      with (a + Z.of_nat (S (List.length l1))) by lia.
    reflexivity.
Qed.

Lemma install_challenge_attempt parms cn s :
  attempt (install_challenge parms cn s) = attempt s.
Proof.
  unfold install_challenge, install_qop, install_opaque.
  destruct (Chall.got_qop parms), (Chall.opaque parms); reflexivity.
Qed.

Lemma install_h_a1_attempt parms password s :
  attempt (install_h_a1 parms password s) = attempt s.
Proof. unfold install_h_a1. destruct (Chall.stale parms); reflexivity. Qed.

(** The asked-and-counted relation between two worlds: the credential
    requests added carry the attempt numbers from the first world's count
    on, and the count has gone up by their number. *)
Lemma counted_refl w :
  exists l,
    asked (w_log w) = (asked (w_log w) ++ l)%list
    /\ attempts_from (attempt (w_sess w)) l = true
    /\ attempt (w_sess w) = attempt (w_sess w) + Z.of_nat (List.length l).
Proof.
  exists []. rewrite app_nil_r. cbn. rewrite Z.add_0_r. repeat split.
Qed.

Lemma counted_trans w1 w2 w3 :
  (exists l,
      asked (w_log w2) = (asked (w_log w1) ++ l)%list
      /\ attempts_from (attempt (w_sess w1)) l = true
      /\ attempt (w_sess w2) = attempt (w_sess w1) + Z.of_nat (List.length l)) ->
  (exists l,
      asked (w_log w3) = (asked (w_log w2) ++ l)%list
      /\ attempts_from (attempt (w_sess w2)) l = true
      /\ attempt (w_sess w3) = attempt (w_sess w2) + Z.of_nat (List.length l)) ->
  exists l,
    asked (w_log w3) = (asked (w_log w1) ++ l)%list
    /\ attempts_from (attempt (w_sess w1)) l = true
    /\ attempt (w_sess w3) = attempt (w_sess w1) + Z.of_nat (List.length l).
Proof.
  intros (l1 & Ha1 & Hf1 & Hc1) (l2 & Ha2 & Hf2 & Hc2).
  exists (l1 ++ l2)%list. split; [|split].
  - rewrite Ha2, Ha1, <- app_assoc. reflexivity.
  - rewrite attempts_from_app, Hf1, <- Hc1, Hf2. reflexivity.
  - rewrite Hc2, Hc1, length_app. lia.
Qed.

Lemma counted_once w w' r :
  w_log w' = (w_log w ++ [EvCreds r (attempt (w_sess w))])%list ->
  attempt (w_sess w') = attempt (w_sess w) + 1 ->
  exists l,
    asked (w_log w') = (asked (w_log w) ++ l)%list
    /\ attempts_from (attempt (w_sess w)) l = true
    /\ attempt (w_sess w') = attempt (w_sess w) + Z.of_nat (List.length l).
Proof.
  intros Hlog Hatt. exists [(r, attempt (w_sess w))].
  rewrite Hlog, asked_app, Hatt. cbn [asked attempts_from List.length andb].
  rewrite Z.eqb_refl. repeat split.
Qed.

Lemma basic_challenge_counted w c :
  let w' := snd (basic_challenge w c) in
  exists l,
    asked (w_log w') = (asked (w_log w) ++ l)%list
    /\ attempts_from (attempt (w_sess w)) l = true
    /\ attempt (w_sess w') = attempt (w_sess w) + Z.of_nat (List.length l).
Proof.
  cbv zeta. unfold basic_challenge, get_credentials.
  destruct (Chall.realm c) as [r|]; [|apply counted_refl].
  cbn [w_sess with_sess clean_session attempt username creds realm
       set_realm set_can_handle set_basic set_nonce set_cnonce set_opaque
       set_gssapi_token].
  destruct (creds (w_sess w) (Some r) (attempt (w_sess w))
              (username (w_sess w))) as [[ret user] pw].
  destruct (negb (ret =? 0)); cbn [snd];
    apply (counted_once _ _ (Some r)); reflexivity.
Qed.

Lemma gssapi_challenge_counted env w c :
  let w' := snd (gssapi_challenge env w c) in
  exists l,
    asked (w_log w') = (asked (w_log w) ++ l)%list
    /\ attempts_from (attempt (w_sess w)) l = true
    /\ attempt (w_sess w') = attempt (w_sess w) + Z.of_nat (List.length l).
Proof.
  cbv zeta. unfold gssapi_challenge.
  destruct (gss_init_sec_context env _) as [tok|];
    [destruct (String.length tok =? 0)%nat|];
    cbn [snd]; exists []; rewrite app_nil_r; cbn; rewrite Z.add_0_r;
    repeat split.
Qed.

Lemma digest_challenge_counted env w c :
  let w' := snd (digest_challenge env w c) in
  exists l,
    asked (w_log w') = (asked (w_log w) ++ l)%list
    /\ attempts_from (attempt (w_sess w)) l = true
    /\ attempt (w_sess w') = attempt (w_sess w) + Z.of_nat (List.length l).
Proof.
  cbv zeta. unfold digest_challenge, get_credentials, get_cnonce.
  destruct (digest_invalid c); [apply counted_refl|].
  destruct (Chall.stale c).
  - cbn [negb Z.eqb snd w_log w_sess with_sess].
    rewrite install_h_a1_attempt, install_challenge_attempt.
    exists []. rewrite app_nil_r. cbn. rewrite Z.add_0_r. repeat split.
  - cbn [w_sess with_sess clean_session attempt username creds realm
         set_realm set_can_handle set_basic set_nonce set_cnonce set_opaque
         set_gssapi_token].
    destruct (creds (w_sess w) (Chall.realm c) (attempt (w_sess w))
                (username (w_sess w))) as [[ret user] pw].
    destruct (negb (ret =? 0)); cbn [snd];
      apply (counted_once _ _ (Chall.realm c));
      cbn [w_log w_sess with_sess record_event];
      try rewrite install_h_a1_attempt, install_challenge_attempt;
      reflexivity.
Qed.

Lemma first_accepted_counted env :
  forall candidates w,
    let w' := snd (first_accepted env candidates w) in
    exists l,
      asked (w_log w') = (asked (w_log w) ++ l)%list
      /\ attempts_from (attempt (w_sess w)) l = true
      /\ attempt (w_sess w') = attempt (w_sess w) + Z.of_nat (List.length l).
Proof.
  induction candidates as [|c rest IH]; intros w; cbv zeta.
  - apply counted_refl.
  - cbn [first_accepted].
    assert (Hone :
      let w1 := snd (examine_scheme env (Chall.scheme c)
                       (record_event (EvExamine c) w) c) in
      exists l,
        asked (w_log w1) = (asked (w_log w) ++ l)%list
        /\ attempts_from (attempt (w_sess w)) l = true
        /\ attempt (w_sess w1)
           = attempt (w_sess w) + Z.of_nat (List.length l)).
    { cbv zeta.
      apply (counted_trans w (record_event (EvExamine c) w)).
      - exists []. cbn [w_log w_sess record_event]. rewrite asked_app.
        cbn. rewrite Z.add_0_r. repeat split.
      - destruct (Chall.scheme c); cbn [examine_scheme].
        + apply basic_challenge_counted.
        + apply digest_challenge_counted.
        + apply gssapi_challenge_counted. }
    cbv zeta in Hone.
    destruct (examine_scheme env (Chall.scheme c)
                (record_event (EvExamine c) w) c) as [r w1].
    cbn [snd] in Hone.
    destruct (r =? 0); [exact Hone|].
    apply (counted_trans w w1); [exact Hone|apply IH].
Qed.

Lemma auth_challenge_counted env w value r w' :
  auth_challenge env w value = Some (r, w') ->
  exists l,
    asked (w_log w') = (asked (w_log w) ++ l)%list
    /\ attempts_from (attempt (w_sess w)) l = true
    /\ attempt (w_sess w') = attempt (w_sess w) + Z.of_nat (List.length l).
Proof.
  unfold auth_challenge.
  destruct (parse_challenges env _ value VUninit []) as [[|c next]|];
    [| |discriminate].
  - intros E; injection E as _ <-. apply counted_refl.
  - rewrite select_challenge_first_accepted.
    pose proof (first_accepted_counted env
                  (preference_order env (c :: next)) w) as Hc.
    cbv zeta in Hc.
    destruct (first_accepted env (preference_order env (c :: next)) w)
      as [ok w2].
    cbn [snd] in Hc.
    intros E; injection E as _ <-. exact Hc.
Qed.

(** X17: the attempt numbers given to the credentials callback count up.
    While the post-send hook handles one response, every call of the
    callback is given the session's attempt count at that moment, the
    first one the count the hook started with, each next one a number one
    higher, and the count the hook leaves is the number for the next call;
    [ah_create] sets it back to zero for a new request. *)
Theorem attempts_count_up (env : auth_env) (w w' : world)
  (areq areq' : option auth_request) (code : Z) (ret : ne_code) :
  ah_post_send env w areq code = Some (ret, areq', w') ->
  (exists l,
      asked (w_log w') = (asked (w_log w) ++ l)%list
      /\ attempts_from (attempt (w_sess w)) l = true
      /\ attempt (w_sess w') = attempt (w_sess w) + Z.of_nat (List.length l))
  /\ forall req method uri r s,
       ah_create req (w_sess w') method uri = (Some r, s) -> attempt s = 0.
Proof.
  intros H. split.
  - assert (Hchall : forall w0 req w1 r1,
              post_send_challenge env w0 req code = Some (r1, w1) ->
              exists l,
                asked (w_log w1) = (asked (w_log w0) ++ l)%list
                /\ attempts_from (attempt (w_sess w0)) l = true
                /\ attempt (w_sess w1)
                   = attempt (w_sess w0) + Z.of_nat (List.length l)).
    { intros w0 req w1 r1. unfold post_send_challenge.
      destruct (auth_hdr req) as [hdr|];
        [|intros E; injection E as _ <-; apply counted_refl].
      destruct (code =? _);
        [|intros E; injection E as _ <-; apply counted_refl].
      destruct (auth_challenge env w0 hdr) as [[r w2]|] eqn:Hch;
        [|discriminate].
      apply auth_challenge_counted in Hch.
      destruct (r =? 0); intros E; injection E as _ <-; exact Hch. }
    unfold ah_post_send in H.
    destruct areq as [req|]; [|injection H as _ _ <-; apply counted_refl].
    destruct (auth_info_hdr req) as [info|].
    + destruct (verify_response req (w_sess w) info) as [[okay s1]|] eqn:Hv;
        [|discriminate].
      apply verify_response_fields in Hv.
      destruct Hv as (_ & _ & _ & _ & _ & _ & _ & _ & _ & _ & _ & Hatt & _).
      destruct (negb (okay =? 0)).
      * injection H as _ _ <-. cbn [w_log w_sess with_sess attempt set_sess].
        rewrite Hatt. exists []. rewrite app_nil_r. cbn. rewrite Z.add_0_r.
        repeat split.
      * destruct (post_send_challenge env (with_sess (fun _ => s1) w) req
                    code) as [[ret1 w1]|] eqn:Hp; [|discriminate].
        injection H as _ _ <-. apply Hchall in Hp.
        cbn [w_log w_sess with_sess] in Hp. rewrite Hatt in Hp. exact Hp.
    + destruct (post_send_challenge env w req code) as [[ret1 w1]|] eqn:Hp;
        [|discriminate].
      injection H as _ _ <-. apply (Hchall _ _ _ _ Hp).
  - intros req method uri r s. unfold ah_create.
    destruct (context (w_sess w')), (streq method "CONNECT");
      intros E; inversion E; reflexivity.
Qed.

(** ** Scheme names and the schemes that are not known *)

Lemma tokenize_loop_name key :
  forall acc,
    strchr key "="%char = false ->
    strchr key " "%char = false ->
    (forall tail,
        tokenize_loop true (BEFORE_EQ (Some acc)) (key ++ String " " tail)
        = Tok (Some (acc ++ key)) ValNull tail)
    /\ tokenize_loop true (BEFORE_EQ (Some acc)) key
       = Tok (Some (acc ++ key)) ValNull "".
Proof.
  induction key as [|c key IH]; intros acc Heq Hsp.
  - cbn. rewrite append_nil_r. split; reflexivity.
  - cbn [strchr] in Heq, Hsp.
    apply orb_false_elim in Heq. destruct Heq as [Hc Hk].
    apply orb_false_elim in Hsp. destruct Hsp as [Hs Hks].
    rewrite Ascii.eqb_sym in Hc. rewrite Ascii.eqb_sym in Hs.
    destruct (IH (snoc acc c) Hk Hks) as [IH1 IH2].
    unfold snoc in IH1, IH2. rewrite append_assoc in IH1, IH2.
    cbn [append] in IH1, IH2.
    split; [intros tail|]; cbn [append tokenize_loop]; rewrite Hc, Hs;
      cbn [andb]; [apply IH1|apply IH2].
Qed.

Lemma tokenize_name lead key :
  all_in key_blanks lead = true ->
  clean_key true key = true ->
  (forall tail,
      tokenize (lead ++ key ++ " " ++ tail) true = Tok (Some key) ValNull tail)
  /\ tokenize (lead ++ key) true = Tok (Some key) ValNull "".
Proof.
  intros Hlead Hkey.
  assert (Hloop :
    (forall tail,
        tokenize_loop true (BEFORE_EQ None) (key ++ " " ++ tail)
        = Tok (Some key) ValNull tail)
    /\ tokenize_loop true (BEFORE_EQ None) key = Tok (Some key) ValNull "").
  { unfold clean_key in Hkey.
    destruct key as [|c key]; [rewrite andb_false_r in Hkey; discriminate|].
    rewrite andb_true_r in Hkey.
    apply andb_prop in Hkey. destruct Hkey as [Hkey Hsp].
    apply andb_prop in Hkey. destruct Hkey as [Hb Heq].
    apply negb_true_iff in Hb, Heq, Hsp.
    cbn [begins_in] in Hb. cbn [andb strchr] in Heq, Hsp.
    apply orb_false_elim in Heq. destruct Heq as [Hc Hk].
    apply orb_false_elim in Hsp. destruct Hsp as [_ Hks].
    destruct (tokenize_loop_name key (String c "") Hk Hks) as [H1 H2].
    split; [intros tail|]; cbn [append tokenize_loop];
      rewrite (Ascii.eqb_sym c "="%char), Hc, Hb; [apply H1|apply H2]. }
  destruct Hloop as [H1 H2]. split.
  - intros tail. rewrite (tokenize_nonempty _ _ _ _ Hkey).
    rewrite (tokenize_loop_blanks _ _ _ Hlead). apply H1.
  - pose proof (tokenize_nonempty true lead key "" Hkey) as Hne.
    rewrite append_nil_r in Hne. rewrite Hne.
    pose proof (tokenize_loop_blanks true lead key Hlead) as Hb.
    rewrite Hb. exact H2.
Qed.

Lemma unknown_after_basic env x r fuel :
  clean_key true x = true ->
  scheme_of_token env x = None ->
  plain_value r = true ->
  parse_challenges env (3 + fuel) ("Basic realm=" ++ quoted r ++ ", " ++ x)
    VUninit []
  = Some [].
Proof.
  intros Hkey Hunknown Hr.
  change (3 + fuel)%nat with (S (S (S fuel))).
  rewrite parse_challenges_S.
  change (tokenize ("Basic realm=" ++ quoted r ++ ", " ++ x) true)
    with (Tok (Some "Basic") ValNull ("realm=" ++ quoted r ++ ", " ++ x)).
  cbn [store_value].
  change (scheme_of_token env "Basic") with (Some auth_scheme_basic).
  cbv beta iota.
  rewrite parse_challenges_S.
  pose proof (tokenize_quoted_more true "" "realm" r (" " ++ x)
                eq_refl eq_refl (plain_value_no_quote r Hr)) as Htok.
  change ("" ++ "realm" ++ "=" ++ quoted r ++ "," ++ " " ++ x)
    with ("realm=" ++ quoted r ++ ", " ++ x) in Htok.
  rewrite Htok. cbn [store_value]. cbv beta iota zeta.
  rewrite parse_challenges_S.
  destruct (tokenize_name " " x eq_refl Hkey) as [_ Hlast].
  rewrite Hlast. cbn [store_value]. rewrite Hunknown. reflexivity.
Qed.

Lemma unknown_scheme_parse env x value :
  clean_key true x = true ->
  scheme_of_token env x = None ->
  (exists rest, value = x ++ " " ++ rest)
  \/ value = x
  \/ (exists r,
         plain_value r = true
         /\ value = "Basic realm=" ++ quoted r ++ ", " ++ x) ->
  parse_challenges env (S (String.length value)) value VUninit [] = Some [].
Proof.
  intros Hkey Hunknown Hshape.
  destruct (tokenize_name "" x eq_refl Hkey) as [Hmore Hlast].
  cbn [append] in Hmore, Hlast.
  destruct Hshape as [[rest ->] | [-> | (r & Hr & ->)]].
  - rewrite parse_challenges_S. cbn [append]. rewrite Hmore.
    cbn [store_value]. rewrite Hunknown. reflexivity.
  - rewrite parse_challenges_S, Hlast. cbn [store_value].
    rewrite Hunknown. reflexivity.
  - cbn [String.length append].
    apply (unknown_after_basic env x r _ Hkey Hunknown Hr).
Qed.

(** X18: a scheme that is not known spoils the whole header.  When the
    challenge header begins with a name that is none of the schemes
    compiled in, whatever follows it, or names one after a Basic challenge,
    every challenge of the header is dropped: [auth_challenge] fails
    without a call of the callback, and under the class's status code the
    post-send hook returns the class's failure code and frees the
    credentials the session had. *)
Theorem unknown_scheme_rejects (env : auth_env) (w : world)
  (req : auth_request) (x value : string) :
  clean_key true x = true ->
  scheme_of_token env x = None ->
  (exists rest, value = x ++ " " ++ rest)
  \/ value = x
  \/ (exists r,
         plain_value r = true
         /\ value = "Basic realm=" ++ quoted r ++ ", " ++ x) ->
  auth_hdr req = Some value ->
  auth_info_hdr req = None ->
  auth_challenge env w value = Some (-1, w)
  /\ ah_post_send env w (Some req) (status_code (spec (w_sess w)))
     = Some
         (fail_code (spec (w_sess w)), Some (capture_headers None None req),
          with_sess clean_session w).
Proof.
  intros Hkey Hunknown Hshape Hhdr Hinfo.
  pose proof (unknown_scheme_parse env x value Hkey Hunknown Hshape) as Hp.
  assert (Hch : auth_challenge env w value = Some (-1, w))
    by (unfold auth_challenge; rewrite Hp; reflexivity).
  split; [exact Hch|].
  unfold ah_post_send, post_send_challenge.
  rewrite Hinfo, Hhdr, Z.eqb_refl, Hch. reflexivity.
Qed.

(** ** A Negotiate challenge answered, and credentials forgotten *)

Lemma gssapi_challenge_accepted env w c tok :
  gss_init_sec_context env ("khttp@" ++ server_hostname (sess (w_sess w)))
  = Some tok ->
  tok <> "" ->
  exists w',
    gssapi_challenge env w c = (0, w')
    /\ w_log w' = w_log w
    /\ scheme (w_sess w') = auth_scheme_gssapi
    /\ gssapi_token (w_sess w') = Some (ne_base64 tok)
    /\ spec (w_sess w') = spec (w_sess w)
    /\ qop (w_sess w') = qop (w_sess w).
Proof.
  intros Htok Hne. unfold gssapi_challenge.
  cbn [w_sess with_sess clean_session sess set_realm set_can_handle set_basic
       set_nonce set_cnonce set_opaque set_gssapi_token ne_concat].
  rewrite append_nil_r, Htok.
  destruct tok as [|t tok]; [contradiction (Hne eq_refl)|].
  cbn [String.length Nat.eqb].
  eexists. split; [reflexivity|]. repeat split.
Qed.

(** X20: a Negotiate challenge answered.  With GSSAPI compiled in, when
    the response under the class's status code carries [GSS-Negotiate] and
    the provider gives a token that is not empty for the principal
    [khttp@] and the server's host name, the post-send hook returns
    [NE_RETRY] without a call of the credentials callback, and the
    pre-send hook then adds to every request the class's header with
    [GSS-Negotiate] and the base64 text of the token. *)
Theorem negotiate_challenge_answered (env : auth_env) (w : world)
  (req : auth_request) (tok : string) :
  HAVE_GSSAPI env = true ->
  gss_init_sec_context env ("khttp@" ++ server_hostname (sess (w_sess w)))
  = Some tok ->
  tok <> "" ->
  auth_hdr req = Some "GSS-Negotiate" ->
  auth_info_hdr req = None ->
  exists w',
    ah_post_send env w (Some req) (status_code (spec (w_sess w)))
    = Some (NE_RETRY, Some (capture_headers None None req), w')
    /\ asked (w_log w') = asked (w_log w)
    /\ forall next request,
         exists next',
           ah_pre_send env (w_sess w') (Some next) request
           = Some
               (Some next',
                request ++ req_hdr (spec (w_sess w)) ++ ": GSS-Negotiate "
                  ++ ne_base64 tok ++ CRLF,
                w_sess w')
           /\ will_handle next' = true.
Proof.
  intros Hgss Htok Hne Hhdr Hinfo.
  set (c := Chall.fresh auth_scheme_gssapi).
  assert (Hparse :
    parse_challenges env (S (String.length "GSS-Negotiate")) "GSS-Negotiate"
      VUninit [] = Some [c]).
  { cbn [String.length]. rewrite parse_challenges_S.
    change (tokenize "GSS-Negotiate" true)
      with (Tok (Some "GSS-Negotiate") ValNull "").
    cbn [store_value]. unfold scheme_of_token. rewrite Hgss.
    change (strcaseeq "GSS-Negotiate" "basic") with false.
    change (strcaseeq "GSS-Negotiate" "digest") with false.
    change (strcaseeq "GSS-Negotiate" "gss-negotiate") with true.
    cbn [andb]. rewrite parse_challenges_S. reflexivity. }
  destruct (gssapi_challenge_accepted env (record_event (EvExamine c) w) c tok
              Htok Hne)
    as (w1 & Hacc & Hlog & Hsch & Htoken & Hspec & _).
  exists (with_sess (set_can_handle true) w1).
  split; [|split].
  - unfold ah_post_send, post_send_challenge. rewrite Hinfo, Hhdr.
    rewrite Z.eqb_refl. unfold auth_challenge. rewrite Hparse.
    rewrite select_challenge_first_accepted.
    unfold preference_order, of_scheme. rewrite Hgss.
    cbn [filter c Chall.fresh Chall.scheme auth_scheme_eqb app
         first_accepted examine_scheme].
    fold c. rewrite Hacc. reflexivity.
  - cbn [w_log with_sess]. rewrite Hlog.
    cbn [w_log record_event]. rewrite asked_app. cbn [asked].
    rewrite app_nil_r. reflexivity.
  - intros next request. unfold ah_pre_send, request_gssapi.
    cbn [w_sess with_sess can_handle set_can_handle negb scheme spec
         gssapi_token qop] in *.
    rewrite Hsch, Htoken, Hspec, Hgss. cbn [w_sess record_event ne_concat].
    rewrite append_nil_r.
    destruct (qop_is_auth_int (qop (w_sess w1)));
      eexists; split; reflexivity.
Qed.

Lemma clean_session_twice s : clean_session (clean_session s) = clean_session s.
Proof. destruct s; reflexivity. Qed.

(** X19: [ne_forget_auth] frees the credentials of the server session and
    of the proxy session, whichever are registered, so that the pre-send
    hook adds nothing to the requests that follow; doing it twice is doing
    it once.  It leaves the user name and H(A1), which are not pointers,
    as they were. *)
Theorem forget_auth_silences (env : auth_env)
  (server proxy : option auth_session) (s s' : auth_session) :
  (server = Some s /\ fst (ne_forget_auth server proxy) = Some s')
  \/ (proxy = Some s /\ snd (ne_forget_auth server proxy) = Some s') ->
  session_wiped s' = true
  /\ (forall areq request,
         ah_pre_send env s' areq request = Some (areq, request, s'))
  /\ username s' = username s /\ h_a1 s' = h_a1 s
  /\ spec s' = spec s /\ context s' = context s
  /\ ne_forget_auth (fst (ne_forget_auth server proxy))
       (snd (ne_forget_auth server proxy))
     = ne_forget_auth server proxy.
Proof.
  intros Hcase.
  assert (Hs : s' = clean_session s).
  { destruct Hcase as [[-> H] | [-> H]]; cbn in H; injection H as <-;
      reflexivity. }
  subst s'. split; [apply session_wiped_clean|]. split.
  - intros areq request. unfold ah_pre_send. destruct areq; reflexivity.
  - repeat split. unfold ne_forget_auth. cbn [fst snd].
    destruct server, proxy; cbn [option_map];
      rewrite ?clean_session_twice; reflexivity.
Qed.

(** ** The added statements at concrete inputs *)

Lemma tokenize_consumes_witness :
  tokenize "realm=x, nonce=abc" false = Tok (Some "realm") (ValSet "x")
                                           " nonce=abc"
  /\ (String.length " nonce=abc" < String.length "realm=x, nonce=abc")%nat.
Proof.
  split; [reflexivity|].
  exact (proj2 (tokenize_consumes "realm=x, nonce=abc" false (Some "realm")
                  (ValSet "x") " nonce=abc" eq_refl)).
Defined.

Lemma tokenize_quoted_pair_witness :
  tokenize (" " ++ "realm" ++ "=" ++ quoted "a,b" ++ "," ++ " x=y") true
  = Tok (Some "realm") (ValSet (quoted "a,b")) " x=y".
Proof.
  exact (proj1 (tokenize_quoted_pair true " " "realm" "a,b" " x=y"
                  eq_refl eq_refl eq_refl)).
Defined.

Lemma tokenize_value_witness :
  tokenize "Digest x" true = Tok (Some "Digest") ValNull "x"
  /\ Some "Digest" <> None.
Proof.
  split; [reflexivity|].
  exact (proj1 (proj2 (tokenize_value "Digest x" true (Some "Digest") ValNull
                         "x" eq_refl) eq_refl) eq_refl).
Defined.

Lemma keys_case_insensitive_witness :
  challenge_pair "REALM" "x" (Chall.fresh auth_scheme_basic)
  = challenge_pair "realm" "x" (Chall.fresh auth_scheme_basic).
Proof.
  exact (proj1 (proj2 (keys_case_insensitive rfc_env "REALM" "realm" "x"
                         (Chall.fresh auth_scheme_basic) auth_info_init
                         eq_refl))).
Defined.

Lemma parse_written_challenge_witness :
  parse_challenges rfc_env (S (String.length basic_header)) basic_header
    VUninit []
  = Some [Chall.mk auth_scheme_basic (Some "WallyWorld") None None false
            false false false auth_alg_md5].
Proof.
  exact (proj1 (parse_written_challenge rfc_env "WallyWorld" "abc" eq_refl
                  eq_refl)).
Defined.

Lemma nc_round_trip_witness : sscanf_hex (nc_hex 1) = Some 1.
Proof.
  apply (proj2 (proj2 (nc_round_trip 1))). lia.
Defined.

Lemma request_digest_rfc2617_witness :
  exists hdr s',
    request_digest signed_session signed_request = Some (hdr, s')
    /\ nonce_count s' = 1.
Proof.
  pose proof (request_digest_rfc2617 signed_session signed_request rfc_realm
                rfc_nonce) as H.
  cbv zeta in H. do 2 eexists. split.
  - apply H.
    + vm_compute. reflexivity.
    + vm_compute. reflexivity.
    + intros _. vm_compute. discriminate.
  - vm_compute. reflexivity.
Defined.

Lemma nonce_count_over_requests_witness :
  exists s',
    send_requests 3 signed_session signed_request = Some s'
    /\ nonce_count s'
       = (nonce_count signed_session + Z.of_nat 3) mod 4294967296.
Proof.
  destruct (nonce_count_over_requests 3 signed_session signed_request
              rfc_nonce)
    as (s' & Hs & _ & _ & _ & Hc).
  - vm_compute. reflexivity.
  - vm_compute. reflexivity.
  - vm_compute. discriminate.
  - vm_compute. split; [discriminate|reflexivity].
  - exists s'. split; assumption.
Defined.

Lemma signed_response_accepted_witness :
  exists s2,
    verify_response signed_request (snd signed_sent)
      ("qop=" ++ qop_text (qop signed_session) ++ ", rspauth="
         ++ quoted
              (rfc_request_digest (qop signed_session) (h_a1 signed_session)
                 rfc_nonce (nc_hex (nonce_count (snd signed_sent)))
                 "0a4f113b"
                 (h_a2 (qop signed_session) "" (uri signed_request) ""))
         ++ ", cnonce=" ++ quoted "0a4f113b" ++ ", nc="
         ++ nc_hex (nonce_count (snd signed_sent)))
    = Some (0, s2).
Proof.
  destruct (signed_response_accepted signed_session (snd signed_sent)
              signed_request rfc_nonce "0a4f113b" "" (fst signed_sent))
    as (s2 & Hs & _).
  - vm_compute. reflexivity.
  - vm_compute. reflexivity.
  - vm_compute. reflexivity.
  - reflexivity.
  - vm_compute. reflexivity.
  - reflexivity.
  - vm_compute. discriminate.
  - vm_compute. reflexivity.
  - exists s2. exact Hs.
Defined.

Lemma verify_response_keeps_credentials_witness :
  verify_response checked_request (w_sess checked_world) qop_rspauth_header
  = Some (fst checked_outcome, snd checked_outcome)
  /\ username (snd checked_outcome) = username (w_sess checked_world).
Proof.
  assert (H : verify_response checked_request (w_sess checked_world)
                qop_rspauth_header
              = Some (fst checked_outcome, snd checked_outcome))
    by (vm_compute; reflexivity).
  split; [exact H|].
  exact (proj1 (proj2 (proj2 (proj1 (verify_response_keeps_credentials _ _ _
                                       _ _ H))))).
Defined.

Lemma post_send_outcomes_witness :
  ah_post_send rfc_env rfc_world (Some challenged_request) 401
  = Some (NE_RETRY, Some (capture_headers None None challenged_request),
          ready_world)
  /\ can_handle (w_sess ready_world) = true.
Proof.
  assert (H : ah_post_send rfc_env rfc_world (Some challenged_request) 401
              = Some (NE_RETRY,
                      Some (capture_headers None None challenged_request),
                      ready_world))
    by (vm_compute; reflexivity).
  split; [exact H|].
  exact (proj2 (proj2 (proj2 (post_send_outcomes rfc_env rfc_world ready_world
                                challenged_request 401 NE_RETRY _
                                (or_introl eq_refl) H)))).
Defined.

Lemma session_sound_kept_witness :
  exists areq' request' s',
    ah_pre_send rfc_env (w_sess ready_world) (Some rfc_request) ""
    = Some (areq', request', s')
    /\ session_sound s' = true.
Proof.
  apply (proj1 (proj2 (proj2 session_sound_kept))).
  vm_compute. reflexivity.
Defined.

Lemma failed_challenge_silences_witness :
  ah_post_send rfc_env refusing_world (Some challenged_request) 401
  = Some (NE_AUTH, Some (capture_headers None None challenged_request),
          refused_world)
  /\ session_wiped (w_sess refused_world) = true.
Proof.
  assert (H : ah_post_send rfc_env refusing_world (Some challenged_request)
                401
              = Some (NE_AUTH,
                      Some (capture_headers None None challenged_request),
                      refused_world))
    by (vm_compute; reflexivity).
  split; [exact H|].
  exact (proj1 (failed_challenge_silences rfc_env refusing_world refused_world
                  (Some challenged_request) 401 NE_AUTH _ H
                  (or_introl eq_refl))).
Defined.

Lemma basic_challenge_answered_witness :
  exists w',
    ah_post_send rfc_env rfc_world (Some basic_challenged) 401
    = Some (NE_RETRY, Some (capture_headers None None basic_challenged), w').
Proof.
  destruct (basic_challenge_answered rfc_env rfc_world basic_challenged
              "WallyWorld" "Mufasa" "Circle Of Life" eq_refl eq_refl eq_refl
              eq_refl)
    as (w' & H & _).
  exists w'. exact H.
Defined.

Lemma digest_challenge_answered_witness :
  exists w',
    ah_post_send rfc_env rfc_world (Some digest_challenged) 401
    = Some (NE_RETRY, Some (capture_headers None None digest_challenged), w').
Proof.
  destruct (digest_challenge_answered rfc_env rfc_world digest_challenged
              rfc_realm rfc_nonce "Mufasa" "Circle Of Life" eq_refl eq_refl
              eq_refl eq_refl eq_refl)
    as (w' & H & _).
  exists w'. exact H.
Defined.

Lemma attempts_count_up_witness :
  exists l,
    asked (w_log ready_world) = (asked (w_log rfc_world) ++ l)%list
    /\ attempts_from (attempt (w_sess rfc_world)) l = true
    /\ attempt (w_sess ready_world)
       = attempt (w_sess rfc_world) + Z.of_nat (List.length l).
Proof.
  apply (proj1 (attempts_count_up rfc_env rfc_world ready_world
                  (Some challenged_request)
                  (Some (capture_headers None None challenged_request)) 401
                  NE_RETRY ltac:(vm_compute; reflexivity))).
Defined.

Lemma unknown_scheme_rejects_witness :
  auth_challenge rfc_env rfc_world mixed_header = Some (-1, rfc_world).
Proof.
  apply (proj1 (unknown_scheme_rejects rfc_env rfc_world mixed_challenged
                  "NTLM" mixed_header eq_refl eq_refl
                  (or_intror
                     (or_intror
                        (ex_intro _ "WallyWorld" (conj eq_refl eq_refl))))
                  eq_refl eq_refl)).
Defined.

Lemma forget_auth_silences_witness :
  session_wiped (clean_session (w_sess ready_world)) = true.
Proof.
  apply (proj1 (forget_auth_silences rfc_env (Some (w_sess ready_world)) None
                  (w_sess ready_world) (clean_session (w_sess ready_world))
                  (or_introl (conj eq_refl eq_refl)))).
Defined.

Lemma negotiate_challenge_answered_witness :
  exists w',
    ah_post_send gss_env rfc_world (Some negotiate_challenged) 401
    = Some (NE_RETRY, Some (capture_headers None None negotiate_challenged),
            w').
Proof.
  destruct (negotiate_challenge_answered gss_env rfc_world
              negotiate_challenged "token" eq_refl eq_refl
              ltac:(discriminate) eq_refl eq_refl)
    as (w' & H & _).
  exists w'. exact H.
Defined.

(** ** The client nonce after a failed challenge *)

Lemma examine_scheme_rejects env sch w c r w' :
  examine_scheme env sch w c = (r, w') ->
  r <> 0 ->
  scheme (w_sess w') = scheme (w_sess w).
Proof.
  destruct sch; cbn [examine_scheme].
  - unfold basic_challenge, get_credentials.
    destruct (Chall.realm c);
      [|intros H _; injection H as _ <-; reflexivity].
    cbn [w_sess with_sess].
    match goal with |- context [creds ?s ?rr ?a ?u] =>
      destruct (creds s rr a u) as [[ret user] pw] end.
    destruct (negb (ret =? 0)); intros H Hr; injection H as <- <-;
      [reflexivity|contradiction (Hr eq_refl)].
  - unfold digest_challenge, get_credentials, get_cnonce.
    destruct (digest_invalid c);
      [intros H _; injection H as _ <-; reflexivity|].
    destruct (Chall.stale c).
    + cbn [negb Z.eqb]. intros H Hr. apply (f_equal fst) in H.
      cbn [fst] in H. contradiction (Hr (eq_sym H)).
    + cbn [w_sess with_sess].
      match goal with |- context [creds ?s ?rr ?a ?u] =>
        destruct (creds s rr a u) as [[ret user] pw] end.
      destruct (negb (ret =? 0)); intros H Hr.
      * injection H as _ <-. reflexivity.
      * apply (f_equal fst) in H. cbn [fst] in H.
        contradiction (Hr (eq_sym H)).
  - unfold gssapi_challenge.
    destruct (gss_init_sec_context env _) as [tok|];
      [destruct (String.length tok =? 0)%nat|];
      intros H Hr; injection H as <- <-;
      try reflexivity; contradiction (Hr eq_refl).
Qed.

Lemma first_accepted_rejects env :
  forall candidates w w',
    first_accepted env candidates w = (false, w') ->
    scheme (w_sess w') = scheme (w_sess w).
Proof.
  induction candidates as [|c rest IH]; intros w w' H.
  - injection H as <-. reflexivity.
  - cbn [first_accepted] in H.
    destruct (examine_scheme env (Chall.scheme c)
                (record_event (EvExamine c) w) c) as [r w1] eqn:Hex.
    destruct (r =? 0) eqn:Hr; [discriminate|].
    apply Z.eqb_neq in Hr.
    rewrite (IH _ _ H). apply (examine_scheme_rejects _ _ _ _ _ _ Hex Hr).
Qed.

Lemma auth_challenge_rejects env w value r w' :
  auth_challenge env w value = Some (r, w') ->
  r <> 0 ->
  scheme (w_sess w') = scheme (w_sess w).
Proof.
  unfold auth_challenge.
  destruct (parse_challenges env _ value VUninit []) as [[|c next]|];
    [intros H _; injection H as _ <-; reflexivity| |discriminate].
  rewrite select_challenge_first_accepted.
  destruct (first_accepted env (preference_order env (c :: next)) w)
    as [ok w1] eqn:Hacc.
  destruct ok; intros H Hr; injection H as <- <-;
    [contradiction (Hr eq_refl)|].
  cbn [w_sess with_sess]. apply (first_accepted_rejects _ _ _ _ Hacc).
Qed.

Lemma post_send_challenge_rejects env w req code ret w' :
  post_send_challenge env w req code = Some (ret, w') ->
  ret = NE_AUTH \/ ret = NE_PROXYAUTH ->
  scheme (w_sess w') = scheme (w_sess w).
Proof.
  unfold post_send_challenge. intros H Hret.
  assert (Hnot : ret <> NE_OK /\ ret <> NE_RETRY)
    by (destruct Hret as [-> | ->]; split; discriminate).
  destruct Hnot as [Hok Hretry].
  destruct (auth_hdr req) as [hdr|];
    [|injection H as <- _; contradiction (Hok eq_refl)].
  destruct (code =? _);
    [|injection H as <- _; contradiction (Hok eq_refl)].
  destruct (auth_challenge env w hdr) as [[r w1]|] eqn:Hch; [|discriminate].
  destruct (r =? 0) eqn:Hr.
  - injection H as <- _. contradiction (Hretry eq_refl).
  - injection H as _ <-. apply Z.eqb_neq in Hr.
    cbn [w_sess with_sess]. apply (auth_challenge_rejects _ _ _ _ _ Hch Hr).
Qed.

Lemma verify_response_missing_cnonce req s value i :
  will_handle req = true ->
  scheme s = auth_scheme_digest ->
  cnonce s = None ->
  parse_auth_info (S (String.length value)) value VUninit auth_info_init
  = Some i ->
  ai_qop i <> auth_qop_none ->
  ai_rspauth i <> None -> ai_cnonce i <> None -> ai_nc i <> None ->
  verify_response req s value = None.
Proof.
  intros Hw Hs Hc Hp Hq Hr Hcn Hnc.
  rewrite (verify_response_parsed req s value i Hw Hs Hp).
  unfold check_auth_info.
  rewrite (parse_auth_info_qop_value value i Hp Hq), Hc.
  destruct (ai_rspauth i); [|contradiction (Hr eq_refl)].
  destruct (ai_cnonce i); [|contradiction (Hcn eq_refl)].
  destruct (ai_nc i); [|contradiction (Hnc eq_refl)].
  reflexivity.
Qed.

(** X21: the client nonce is compared after it was freed.  When the
    post-send hook has returned a failure code on a session under Digest
    for a request that carried credentials, the request is still marked as
    carrying them and the session is still under Digest, but
    [clean_session] has freed the client nonce.  If the same request then
    gets a response whose info header names qop [auth] or [auth-int] with
    [rspauth], [cnonce] and [nc], [verify_response] compares the header's
    cnonce with the missing one of the session: the run has no defined
    result, although the session is one that can build its credentials. *)
Theorem cleaned_session_null_cnonce (env : auth_env) (w w' : world)
  (req : auth_request) (areq' : option auth_request) (code code' : Z)
  (ret : ne_code) (value : string) (i : auth_info) :
  will_handle req = true ->
  scheme (w_sess w) = auth_scheme_digest ->
  ah_post_send env w (Some req) code = Some (ret, areq', w') ->
  ret = NE_AUTH \/ ret = NE_PROXYAUTH ->
  parse_auth_info (S (String.length value)) value VUninit auth_info_init
  = Some i ->
  ai_qop i <> auth_qop_none ->
  ai_rspauth i <> None -> ai_cnonce i <> None -> ai_nc i <> None ->
  let again := capture_headers None (Some value) req in
  areq' = Some (capture_headers None None req)
  /\ will_handle again = true
  /\ scheme (w_sess w') = auth_scheme_digest
  /\ cnonce (w_sess w') = None
  /\ session_sound (w_sess w') = true
  /\ verify_response again (w_sess w') value = None
  /\ ah_post_send env w' (Some again) code' = None.
Proof.
  intros Hw Hs Hpost Hret Hp Hq Hr Hcn Hnc again.
  assert (Hout : areq' = Some (capture_headers None None req)
                 /\ scheme (w_sess w') = auth_scheme_digest
                 /\ session_wiped (w_sess w') = true).
  { unfold ah_post_send in Hpost.
    destruct (auth_info_hdr req) as [info|].
    - destruct (verify_response req (w_sess w) info) as [[okay s1]|] eqn:Hv;
        [|discriminate].
      apply verify_response_fields in Hv.
      destruct Hv as (_ & Hsch & _).
      destruct (negb (okay =? 0));
        [injection Hpost as <- _ _; destruct Hret; discriminate|].
      destruct (post_send_challenge env (with_sess (fun _ => s1) w) req code)
        as [[ret1 w1]|] eqn:Hc; [|discriminate].
      injection Hpost as <- <- <-. split; [reflexivity|]. split.
      + rewrite (post_send_challenge_rejects _ _ _ _ _ _ Hc Hret).
        cbn [w_sess with_sess]. rewrite Hsch. exact Hs.
      + apply (post_send_challenge_failure _ _ _ _ _ _ Hc Hret).
    - destruct (post_send_challenge env w req code) as [[ret1 w1]|] eqn:Hc;
        [|discriminate].
      injection Hpost as <- <- <-. split; [reflexivity|]. split.
      + rewrite (post_send_challenge_rejects _ _ _ _ _ _ Hc Hret). exact Hs.
      + apply (post_send_challenge_failure _ _ _ _ _ _ Hc Hret). }
  destruct Hout as (Hareq & Hsch & Hwiped).
  assert (Hcnonce : cnonce (w_sess w') = None).
  { unfold session_wiped in Hwiped.
    destruct (cnonce (w_sess w')); [|reflexivity].
    rewrite !andb_false_r in Hwiped. cbn [is_none andb] in Hwiped.
    rewrite ?andb_false_r in Hwiped. discriminate Hwiped. }
  assert (Hagain : will_handle again = true) by exact Hw.
  assert (Hverify : verify_response again (w_sess w') value = None)
    by (apply (verify_response_missing_cnonce again (w_sess w') value i);
        assumption).
  repeat split; try assumption.
  - apply session_wiped_sound, Hwiped.
  - unfold ah_post_send. change (auth_info_hdr again) with (Some value).
    cbv beta iota. rewrite Hverify. reflexivity.
Qed.

Lemma cleaned_session_null_cnonce_witness :
  ah_post_send rfc_env (snd ready_emitted) (Some spoiled_request) 401
  = Some (NE_AUTH, Some (capture_headers None None spoiled_request),
          spoiled_world)
  /\ ah_post_send rfc_env spoiled_world
       (Some (capture_headers None (Some full_info_header) spoiled_request))
       200
     = None.
Proof.
  assert (H : ah_post_send rfc_env (snd ready_emitted) (Some spoiled_request)
                401
              = Some (NE_AUTH,
                      Some (capture_headers None None spoiled_request),
                      spoiled_world))
    by (vm_compute; reflexivity).
  split; [exact H|].
  refine
    (proj2
       (proj2
          (proj2
             (proj2
                (proj2
                   (proj2
                      (cleaned_session_null_cnonce rfc_env (snd ready_emitted)
                         spoiled_world spoiled_request _ 401 200 NE_AUTH
                         full_info_header full_info _ _ H (or_introl eq_refl)
                         _ _ _ _ _))))))).
  - vm_compute. reflexivity.
  - vm_compute. reflexivity.
  - vm_compute. reflexivity.
  - discriminate.
  - discriminate.
  - discriminate.
  - discriminate.
Defined.
